(** * vector.h: a growable array over raw storage

    A shallow embedding of [src/vector.h] and the properties of its
    operations.

    The container owns one block of raw storage and calls the element
    type's copy constructor, copy assignment and destructor one slot at a
    time.  The embedding therefore keeps, for every slot of every block,
    whether an object lives there, and with which value:

    - [Raw]     never constructed, no value;
    - [Live v]  a constructed object with value [v];
    - [Dead v]  an object whose destructor has run; [v] is the value it
                had then.  No object is left to read.

    The functions below perform exactly the constructor, assignment and
    destructor calls of the source, in the source's order.  A call that
    C++ gives no meaning has no defined result and is [Undef]: a read or
    a destructor call on a slot without a live object ([Raw] or [Dead]),
    an access out of the block, through the null pointer or into a freed
    block, a failed [assert].

    One such call is followed further: an assignment to a slot without a
    live object.  The loop of [erase] assigns to slots it has destroyed;
    C++ gives that no meaning either, and what runs then is the code of
    [T::operator=] on storage without an object.  The embedding lets the
    run go on, with the slot [Dead] and nothing to read in it.  That is how the states are reached on which
    the defects of [erase] are shown.  Nothing else rests on it: what is
    proved of a call that has returned or raised holds all the more when
    such an assignment ends the run, and where a call is proved to have a
    result, every slot it assigns to holds a live object.

    [size_t] is a 64-bit unsigned integer: [N] with the wrap-around of
    every arithmetic operation of the source written out. *)

From stdpp Require Import base numbers option list.
From Stdlib Require Import ZArith NArith Lia.

Local Open Scope N_scope.

(** ** Machine integers *)

Definition size_modulus : N := 2 ^ 64.

(** The value of a [size_t] expression whose mathematical value is [n]. *)
Definition wrap (n : N) : N := n mod size_modulus.

(** Conversion of a [ptrdiff_t] (or of a difference of two [size_t]) to
    [size_t]. *)
Definition to_size_t (z : Z) : N := Z.to_N (z mod Z.of_N size_modulus).

Definition sz_sub (x y : N) : N := to_size_t (Z.of_N x - Z.of_N y).

(** ** The element type

    What the container needs of [T]: a copy constructor and a copy
    assignment, both of which may raise, and a destructor, which does not.
    Whether a copy raises is decided by the value copied.  What an
    assignment that raises leaves in its target is up to [T]:
    [assign_residue old v] is the value of an object that held [old] after
    the assignment of [v] to it has raised.  [sizeof(T)] is a positive
    [size_t]. *)

Class Element (T : Type) := {
  copy_throws : T -> bool;
  assign_throws : T -> bool;
  assign_residue : T -> T -> T;
  sizeof : N;
  sizeof_pos : 0 < sizeof;
  sizeof_fits : sizeof < size_modulus
}.

Inductive exn := bad_alloc | copy_failure | assign_failure.

(** ** Storage *)

Inductive slot (T : Type) :=
| Raw
| Live (v : T)
| Dead (v : T).
Arguments Raw {T}.
Arguments Live {T} v.
Arguments Dead {T} v.

(** The value of the object in a slot, when there is one. *)
Definition payload {T} (s : slot T) : option T :=
  match s with
  | Live v => Some v
  | Raw | Dead _ => None
  end.

Definition is_live {T} (s : slot T) : bool :=
  match s with
  | Live _ => true
  | _ => false
  end.

(** A [T*]: null, or slot [i] of block [b]. *)
Inductive ptr :=
| Null
| At (b : nat) (i : N).

(** [p + n].  On the null pointer only [nullptr + 0] is defined; the null
    pointer is what the other sums give here, and it is never
    dereferenced. *)
Definition ptr_add (p : ptr) (n : N) : ptr :=
  match p with
  | Null => Null
  | At b i => At b (i + n)
  end.

(** [p - q]; defined inside one block, and for two null pointers. *)
Definition ptr_diff (p q : ptr) : option Z :=
  match p, q with
  | Null, Null => Some 0%Z
  | At b i, At c j => if decide (b = c) then Some (Z.of_N i - Z.of_N j)%Z else None
  | _, _ => None
  end.

(** The heap: block [b] is the [b]-th entry, [None] once it is freed. *)
Abbreviation heap T := (list (option (list (slot T)))).

(** The three fields of [vector<T>]. *)
Record vec := Vec { data_ : ptr; size_ : N; capacity_ : N }.

(** [self] is [*this] of the running member function. *)
Record world (T : Type) := World { self : vec; mem : heap T }.
Arguments World {T} self mem.
Arguments self {T} w.
Arguments mem {T} w.

Inductive result (T A : Type) :=
| Ret (a : A) (w : world T)
| Throw (e : exn) (w : world T)
| Undef.
Arguments Ret {T A} a w.
Arguments Throw {T A} e w.
Arguments Undef {T A}.

Definition M (T A : Type) : Type := world T -> result T A.

#[global] Instance M_ret {T} : MRet (M T) := fun A a w => Ret a w.

#[global] Instance M_bind {T} : MBind (M T) := fun A B f m w =>
  match m w with
  | Ret a w' => f a w'
  | Throw e w' => Throw e w'
  | Undef => Undef
  end.

Definition throw {T A} (e : exn) : M T A := fun w => Throw e w.

(** [try { m } catch (...) { h }] *)
Definition try_catch {T A} (m : M T A) (h : exn -> M T A) : M T A := fun w =>
  match m w with
  | Throw e w' => h e w'
  | r => r
  end.

(** [assert(b)] *)
Definition assert {T} (b : bool) : M T unit := fun w =>
  if b then Ret tt w else Undef.

Definition gets {T A} (f : vec -> A) : M T A := fun w => Ret (f (self w)) w.

Definition set_data {T} (p : ptr) : M T unit := fun w =>
  Ret tt (World (Vec p (size_ (self w)) (capacity_ (self w))) (mem w)).

Definition set_size {T} (n : N) : M T unit := fun w =>
  Ret tt (World (Vec (data_ (self w)) n (capacity_ (self w))) (mem w)).

Definition set_capacity {T} (n : N) : M T unit := fun w =>
  Ret tt (World (Vec (data_ (self w)) (size_ (self w)) n) (mem w)).

(** [for (size_t i = i0; ...; i++) body(i)], run [n] times.  The loop
    conditions of the source keep [i] below a [size_t] value, so that
    [i++] does not wrap. *)
Fixpoint for_up {T} (i : N) (n : nat) (body : N -> M T unit) : M T unit :=
  match n with
  | O => mret tt
  | S n' => body i;; for_up (N.succ i) n' body
  end.

(** [for (size_t i = i0; ...; i--) body(i)], run [n] times.  The loop
    condition of the source keeps [i] above zero in the body. *)
Fixpoint for_down {T} (i : N) (n : nat) (body : N -> M T unit) : M T unit :=
  match n with
  | O => mret tt
  | S n' => body i;; for_down (N.pred i) n' body
  end.

(** [try { for (; i < ...; i++) body(i) } catch (...) { h(i) }] with [i]
    declared outside the [try]: the handler sees the index at which the
    body raised. *)
Fixpoint try_for_up {T} (i : N) (n : nat) (body : N -> M T unit)
    (h : N -> exn -> M T unit) : M T unit :=
  match n with
  | O => mret tt
  | S n' => fun w =>
      match body i w with
      | Ret _ w' => try_for_up (N.succ i) n' body h w'
      | Throw e w' => h i e w'
      | Undef => Undef
      end
  end.

Section Vector.
Context {T : Type} `{!Element T}.

(** [operator new] raises [bad_alloc] for the byte counts the allocator
    refuses. *)
Variable alloc_fails : N -> bool.

Implicit Types (h : heap T) (w : world T) (p q : ptr) (v : T).

Definition block_at h (b : nat) : option (list (slot T)) := mjoin (h !! b).

Definition load h p : option (slot T) :=
  match p with
  | Null => None
  | At b i => blk ← block_at h b; blk !! N.to_nat i
  end.

Definition store h p (s : slot T) : option (heap T) :=
  match p with
  | Null => None
  | At b i =>
      blk ← block_at h b;
      if decide (N.to_nat i < length blk)%nat
      then Some (<[b := Some (<[N.to_nat i := s]> blk)]> h)
      else None
  end.

(** [operator new(bytes)]: a fresh block with room for [bytes / sizeof(T)]
    objects, none constructed. *)
Definition operator_new (bytes : N) : M T ptr := fun w =>
  if alloc_fails bytes then Throw bad_alloc w
  else Ret (At (length (mem w)) 0)
           (World (self w) (mem w ++ [Some (replicate (N.to_nat (bytes / sizeof)) Raw)])).

(** [operator delete(p)]: nothing for the null pointer. *)
Definition operator_delete p : M T unit := fun w =>
  match p with
  | Null => Ret tt w
  | At b i =>
      match block_at (mem w) b with
      | Some _ => if decide (i = 0) then Ret tt (World (self w) (<[b := None]> (mem w))) else Undef
      | None => Undef
      end
  end.

(** The value of [*p]; defined where [p] points at a live object. *)
Definition read p : M T T := fun w =>
  match load (mem w) p ≫= payload with
  | Some v => Ret v w
  | None => Undef
  end.

(** [new(p) T(v)] *)
Definition construct_at p v : M T unit := fun w =>
  match store (mem w) p (Live v) with
  | None => Undef
  | Some h' => if copy_throws v then Throw copy_failure w else Ret tt (World (self w) h')
  end.

(** [p->~T()]; defined where [p] points at a live object. *)
Definition destroy_at p : M T unit := fun w =>
  match load (mem w) p ≫= payload with
  | None => Undef
  | Some v =>
      match store (mem w) p (Dead v) with
      | Some h' => Ret tt (World (self w) h')
      | None => Undef
      end
  end.

(** What an assignment of [v] that raises leaves in the slot [s]. *)
Definition failed_assign (s : slot T) v : slot T :=
  match s with
  | Raw => Raw
  | Live old => Live (assign_residue old v)
  | Dead old => Dead (assign_residue old v)
  end.

(** [*p = v].  [T::operator=] runs on the slot; when it raises, the slot is
    left with [failed_assign]. *)
Definition assign_at p v : M T unit := fun w =>
  match load (mem w) p with
  | None => Undef
  | Some s =>
      match store (mem w) p
              (if assign_throws v then failed_assign s v
               else if is_live s then Live v else Dead v) with
      | Some h' =>
          if assign_throws v then Throw assign_failure (World (self w) h')
          else Ret tt (World (self w) h')
      | None => Undef
      end
  end.

(** *** Free functions *)

Definition destroy_all p (size : N) : M T unit :=
  for_up 0 (N.to_nat size) (fun i => destroy_at (ptr_add p i)).

Definition copy_and_construct (dst src : ptr) (size : N) : M T unit :=
  try_for_up 0 (N.to_nat size)
    (fun i => v ← read (ptr_add src i); construct_at (ptr_add dst i) v)
    (fun i e => destroy_all dst i;; throw e).

(** *** Constructors, destructor *)

Definition vector_default : vec := Vec Null 0 0.

Definition vector_dtor : M T unit :=
  d ← gets data_; n ← gets size_;
  destroy_all d n;;
  operator_delete d.

(** [vector(vector const& v) : vector()].  The delegated constructor has
    completed when the body runs, so an exception leaving the body runs
    the destructor of the object under construction. *)
Definition vector_copy (v : vec) : M T unit :=
  (fun w => Ret tt (World vector_default (mem w)));;
  try_catch
    (if decide (size_ v ≠ 0) then
       ptr ← operator_new (wrap (size_ v * sizeof));
       copy_and_construct ptr (data_ v) (size_ v);;
       set_data ptr;;
       set_capacity (size_ v);;
       set_size (size_ v)
     else mret tt)
    (fun e => vector_dtor;; throw e).

(** Run [m] with [o] as [*this] (a local object of the caller); gives
    back the object as [m] leaves it. *)
Definition on_object {A} (o : vec) (m : M T A) : M T (A * vec) := fun w =>
  match m (World o (mem w)) with
  | Ret a w' => Ret (a, self w') (World (self w) (mem w'))
  | Throw e w' => Throw e (World (self w) (mem w'))
  | Undef => Undef
  end.

(** [swap(other)]; returns [other] as it is afterwards. *)
Definition swap (other : vec) : M T vec := fun w =>
  Ret (self w) (World other (mem w)).

(** [operator=(vector const& other)].  [other] is read by the copy
    constructor only, before [*this] is written; its fields are passed
    by value, which is exact also when [other] is [*this]. *)
Definition operator_assign (other : vec) : M T unit :=
  '(_, copy) ← on_object vector_default (vector_copy other);
  copy ← swap copy;
  _ ← on_object copy vector_dtor;
  mret tt.

(** *** Queries *)

Definition begin_ w : ptr := data_ (self w).
Definition end_ w : ptr := ptr_add (data_ (self w)) (size_ (self w)).
Definition size w : N := size_ (self w).
Definition capacity w : N := capacity_ (self w).
Definition empty w : bool := bool_decide (size_ (self w) = 0).

(** [operator[](i)] *)
Definition operator_index (i : N) : M T ptr :=
  n ← gets size_;
  assert (bool_decide (i < n));;
  d ← gets data_;
  mret (ptr_add d i).

Definition front : M T ptr :=
  n ← gets size_;
  assert (bool_decide (0 < n));;
  d ← gets data_;
  mret (ptr_add d 0).

Definition back : M T ptr :=
  n ← gets size_;
  assert (bool_decide (0 < n));;
  d ← gets data_;
  mret (ptr_add d (sz_sub n 1)).

(** *** Capacity

    The private [reserve_if_needed] is called by no member function; it is
    modelled apart, after the member functions. *)

Definition copy_to_ptr (capacity : N) (ptr : ptr) : M T unit :=
  try_catch
    (d ← gets data_; n ← gets size_; copy_and_construct ptr d n)
    (fun e =>
       old ← gets data_; set_data ptr;;
       set_capacity capacity;;
       n ← gets size_;
       destroy_all old n;;
       operator_delete old;;
       set_size 0;;
       throw e);;
  old ← gets data_; set_data ptr;;
  set_capacity capacity;;
  n ← gets size_;
  destroy_all old n;;
  operator_delete old.

Definition resize (size : N) : M T unit :=
  if decide (size = 0) then
    d ← gets data_;
    operator_delete d;;
    set_data Null;;
    set_capacity 0
  else
    ptr ← operator_new (wrap (size * sizeof));
    copy_to_ptr size ptr.

Definition reserve (size : N) : M T unit :=
  c ← gets capacity_;
  if decide (c < size) then resize size else mret tt.

Definition shrink_to_fit : M T unit :=
  c ← gets capacity_; n ← gets size_;
  if decide (c ≠ n) then resize n else mret tt.

Definition clear : M T unit :=
  d ← gets data_; n ← gets size_;
  destroy_all d n;;
  set_size 0.

(** *** Insertion *)

Definition move_element (from to : N) : M T unit :=
  assert (bool_decide (to ≤ from));;
  if decide (from ≠ to) then
    d ← gets data_;
    copy ← read (ptr_add d from);
    (if copy_throws copy then throw copy_failure else mret tt);;
    for_down from (N.to_nat (from - to))
      (fun i => x ← read (ptr_add d (i - 1)); assign_at (ptr_add d i) x);;
    assign_at (ptr_add d to) copy
  else mret tt.

Definition resize_and_insert (size i : N) (e : T) : M T unit :=
  ptr ← operator_new (wrap (size * sizeof));
  n ← gets size_;
  construct_at (ptr_add ptr n) e;;
  let placed_element := ptr_add ptr n in
  try_catch (copy_to_ptr size ptr)
    (fun ex => destroy_at placed_element;; throw ex);;
  n ← gets size_; set_size (wrap (n + 1));;
  n ← gets size_;
  move_element (sz_sub n 1) i.

(** [insert(pos, e)].  [e] is a reference that may point into the
    container; both branches copy from it before they write to any slot,
    so that passing its value is exact. *)
Definition insert (pos : ptr) (e : T) : M T ptr := fun w =>
  match ptr_diff pos (begin_ w) with
  | None => Undef
  | Some d =>
      let pos_i := to_size_t d in
      ((n ← gets size_; c ← gets capacity_;
        if decide (n = c) then
          resize_and_insert (N.max 1 (wrap (c * 2))) pos_i e
        else
          d ← gets data_;
          construct_at (ptr_add d n) e;;
          set_size (wrap (n + 1));;
          n ← gets size_;
          move_element (sz_sub n 1) pos_i);;
       d ← gets data_;
       mret (ptr_add d pos_i)) w
  end.

Definition push_back (e : T) : M T unit := fun w =>
  (_ ← insert (end_ w) e; mret tt) w.

Definition pop_back : M T unit :=
  n ← gets size_;
  assert (bool_decide (0 < n));;
  p ← back;
  destroy_at p;;
  n ← gets size_;
  set_size (sz_sub n 1).

(** *** Removal *)

(** The body of the loop of [erase]:
    [data_[first_i + i - first_after_i] = data_[i]; data_[i].~T();] *)
Definition erase_body (dat : ptr) (first_i first_after_i i : N) : M T unit :=
  x ← read (ptr_add dat i);
  assign_at (ptr_add dat (sz_sub (wrap (first_i + i)) first_after_i)) x;;
  destroy_at (ptr_add dat i).

Definition erase (first last : ptr) : M T ptr := fun w =>
  match ptr_diff last (begin_ w), ptr_diff first (begin_ w), ptr_diff last first with
  | Some dl, Some df, Some d =>
      let first_after_i := to_size_t dl in
      let first_i := to_size_t df in
      (n ← gets size_; dat ← gets data_;
       for_up first_after_i (N.to_nat (n - first_after_i))
         (erase_body dat first_i first_after_i);;
       n ← gets size_;
       set_size (to_size_t (Z.of_N n - d));;
       dat ← gets data_;
       mret (ptr_add dat first_i)) w
  | _, _, _ => Undef
  end.

(** [erase(pos)] *)
Definition erase_pos (pos : ptr) : M T ptr := erase pos (ptr_add pos 1).

End Vector.

(** ** Observations and the container invariant *)

Section Observations.
Context {T : Type} `{!Element T}.

Implicit Types (w : world T).

(** The slots [data_[0]], ..., [data_[size_ - 1]]. *)
Definition view w : list (slot T) :=
  match data_ (self w) with
  | Null => []
  | At b i =>
      take (N.to_nat (size_ (self w)))
           (drop (N.to_nat i) (default [] (block_at (mem w) b)))
  end.

(** What reading through [operator[]] gives at [0], ..., [size() - 1]: the
    value of the live object there, and nothing where there is none. *)
Definition contents w : list (option T) := payload <$> view w.

(** The invariant of section 3 of the specification, on the fields and
    on the storage they describe: no storage and [size_ = capacity_ = 0],
    or a block of exactly [capacity_] slots of which the first [size_]
    hold live objects.  The byte count of the block is a [size_t]. *)
Definition valid w : bool :=
  match data_ (self w) with
  | Null =>
      bool_decide (size_ (self w) = 0) && bool_decide (capacity_ (self w) = 0)
  | At b i =>
      match block_at (mem w) b with
      | None => false
      | Some blk =>
          bool_decide (i = 0)
          && bool_decide (0 < capacity_ (self w))
          && bool_decide (capacity_ (self w) * sizeof < size_modulus)
          && bool_decide (N.of_nat (length blk) = capacity_ (self w))
          && bool_decide (size_ (self w) ≤ capacity_ (self w))
          && forallb is_live (take (N.to_nat (size_ (self w))) blk)
      end
  end.

(** The world after block [b] has been overwritten by [blk]. *)
Definition upd w (b : nat) (blk : list (slot T)) : world T :=
  World (self w) (<[b := Some blk]> (mem w)).

(** A world with no storage and an empty vector as [*this]. *)
Definition fresh_world : world T := World vector_default [].

(** [w'] differs from [w] at most in the slots of block [bd]. *)
Definition only_block (bd : nat) w w' : Prop :=
  self w' = self w /\
  length (mem w') = length (mem w) /\
  (forall b, b ≠ bd -> block_at (mem w') b = block_at (mem w) b) /\
  (is_Some (block_at (mem w) bd) -> is_Some (block_at (mem w') bd)).

End Observations.

Section Sequences.
Context {T : Type} `{!Element T}.
Variable alloc_fails : N -> bool.

(** [push_back(x)] for each [x] of [xs], in order. *)
Fixpoint push_all (xs : list T) : M T unit :=
  match xs with
  | [] => mret tt
  | x :: xs' => push_back alloc_fails x;; push_all xs'
  end.

End Sequences.

(** ** The private [reserve_if_needed] *)

(** The loop of [reserve_if_needed],
    [while (new_capacity < target) new_capacity *= 2;],
    run for at most [fuel] iterations: [None] when it is still running
    then. *)
Fixpoint double_until (fuel : nat) (target new_capacity : N) : option N :=
  if decide (new_capacity < target) then
    match fuel with
    | O => None
    | S fuel' => double_until fuel' target (wrap (new_capacity * 2))
    end
  else Some new_capacity.

Section Private.
Context {T : Type} `{!Element T}.
Variable alloc_fails : N -> bool.

(** The private [reserve_if_needed(additional_capacity)], which no member
    function calls; [None] when its loop is still running after [fuel]
    iterations. *)
Definition reserve_if_needed (fuel : nat) (additional_capacity : N)
    (w : world T) : option (result T unit) :=
  new_capacity ← double_until fuel
                   (wrap (size_ (self w) + additional_capacity))
                   (N.max 1 (capacity_ (self w)));
  Some (reserve alloc_fails new_capacity w).

End Private.

(** ** Test element types and containers *)

(** Numbers that always copy. *)
Definition plain : Element N :=
  {| copy_throws := fun _ => false;
     assign_throws := fun _ => false;
     assign_residue := fun old _ => old;
     sizeof := 8;
     sizeof_pos := eq_refl;
     sizeof_fits := eq_refl |}.

(** Numbers whose copy constructor raises on the value 13. *)
Definition fragile : Element N :=
  {| copy_throws := fun v => v =? 13;
     assign_throws := fun _ => false;
     assign_residue := fun old _ => old;
     sizeof := 8;
     sizeof_pos := eq_refl;
     sizeof_fits := eq_refl |}.

(** An allocator that never refuses. *)
Definition roomy : N -> bool := fun _ => false.

(** The vector [10, 13], full. *)
Definition two : world N :=
  World (Vec (At 0 0) 2 2) [Some [Live 10; Live 13]].

(** The vector [10, 13] with room for two more. *)
Definition two_of_four : world N :=
  World (Vec (At 0 0) 2 4) [Some [Live 10; Live 13; Raw; Raw]].

(** The vector [10, 20, 30, 40], full. *)
Definition four : world N :=
  World (Vec (At 0 0) 4 4) [Some [Live 10; Live 20; Live 30; Live 40]].

(** The vector [10, 20, 30] with room for one more. *)
Definition three_of_four : world N :=
  World (Vec (At 0 0) 3 4) [Some [Live 10; Live 20; Live 30; Raw]].

(** Wide objects: [sizeof(T)] is [2^62]. *)
Definition wide : Element N :=
  {| copy_throws := fun _ => false;
     assign_throws := fun _ => false;
     assign_residue := fun old _ => old;
     sizeof := 2 ^ 62;
     sizeof_pos := eq_refl;
     sizeof_fits := eq_refl |}.

(** The vector [10], full. *)
Definition one : world N := World (Vec (At 0 0) 1 1) [Some [Live 10]].

(** Two vectors in one heap: [*this] is [1, 2] and [second] is
    [7, 8, 9]. *)
Definition second : vec := Vec (At 1 0) 3 3.

Definition pair : world N :=
  World (Vec (At 0 0) 2 2) [Some [Live 1; Live 2]; Some [Live 7; Live 8; Live 9]].

(** * Properties

    ** Machine integers, the monad, the heap, the primitives *)

Lemma wrap_small n : n < size_modulus -> wrap n = n.
Proof. intros. unfold wrap. apply N.mod_small. assumption. Qed.

Lemma to_size_t_small z : (0 <= z < Z.of_N size_modulus)%Z -> to_size_t z = Z.to_N z.
Proof. intros. unfold to_size_t. by rewrite Z.mod_small. Qed.

Lemma sz_sub_small x y : y <= x -> x < size_modulus -> sz_sub x y = x - y.
Proof. intros. unfold sz_sub. rewrite to_size_t_small; lia. Qed.


Section Basics.
Context {T : Type} `{!Element T}.
Implicit Types (h : heap T) (w : world T) (p q : ptr) (v : T) (blk : list (slot T)).

Lemma bind_Ret {A B} (m : M T A) (f : A -> M T B) w b w' :
  (m ≫= f) w = Ret b w' -> exists a w1, m w = Ret a w1 /\ f a w1 = Ret b w'.
Proof.
  unfold mbind, M_bind. destruct (m w) as [a w1| |]; [|done..]. eauto.
Qed.

Lemma bind_gets {A B} (f : vec -> A) (k : A -> M T B) w :
  (gets f ≫= k) w = k (f (self w)) w.
Proof. reflexivity. Qed.

Lemma bind_mret {A B} (a : A) (k : A -> M T B) w : (mret a ≫= k) w = k a w.
Proof. reflexivity. Qed.

Lemma bind_set_data {B} p (k : unit -> M T B) w :
  (set_data p ≫= k) w = k tt (World (Vec p (size_ (self w)) (capacity_ (self w))) (mem w)).
Proof. reflexivity. Qed.

Lemma bind_set_size {B} n (k : unit -> M T B) w :
  (set_size n ≫= k) w = k tt (World (Vec (data_ (self w)) n (capacity_ (self w))) (mem w)).
Proof. reflexivity. Qed.

Lemma bind_set_capacity {B} n (k : unit -> M T B) w :
  (set_capacity n ≫= k) w = k tt (World (Vec (data_ (self w)) (size_ (self w)) n) (mem w)).
Proof. reflexivity. Qed.

Lemma bind_assert {B} (c : bool) (k : unit -> M T B) w :
  (assert c ≫= k) w = if c then k tt w else Undef.
Proof. by destruct c. Qed.

Lemma bind_assoc {A B C} (m : M T A) (f : A -> M T B) (g : B -> M T C) w :
  ((m ≫= f) ≫= g) w = (m ≫= (fun a => f a ≫= g)) w.
Proof. unfold mbind, M_bind. by destruct (m w). Qed.

Lemma block_at_lt h b blk : block_at h b = Some blk -> (b < length h)%nat.
Proof.
  unfold block_at. intros Hb. apply lookup_lt_is_Some.
  destruct (h !! b); [by eexists | discriminate].
Qed.

Lemma block_at_insert_eq h b o : (b < length h)%nat -> block_at (<[b := o]> h) b = o.
Proof. intros. unfold block_at. by rewrite list_lookup_insert_eq. Qed.

Lemma block_at_insert_ne h b c o : b ≠ c -> block_at (<[b := o]> h) c = block_at h c.
Proof. intros. unfold block_at. by rewrite list_lookup_insert_ne. Qed.

Lemma block_at_upd_eq w b blk0 blk :
  block_at (mem w) b = Some blk0 -> block_at (mem (upd w b blk)) b = Some blk.
Proof. intros Hb. apply block_at_insert_eq. eauto using block_at_lt. Qed.

Lemma upd_upd w b blk1 blk2 : upd (upd w b blk1) b blk2 = upd w b blk2.
Proof. unfold upd. simpl. by rewrite list_insert_insert_eq. Qed.

Lemma upd_id w b blk : block_at (mem w) b = Some blk -> upd w b blk = w.
Proof.
  unfold upd, block_at. intros Hb. destruct w as [s h]. simpl in *. f_equal.
  apply list_insert_id. destruct (h !! b) as [[?|]|]; simplify_eq/=; done.
Qed.

Lemma read_At w b i blk :
  block_at (mem w) b = Some blk ->
  read (At b i) w =
    match blk !! N.to_nat i ≫= payload with Some v => Ret v w | None => Undef end.
Proof. intros Hb. unfold read, load. by rewrite Hb. Qed.

Lemma assign_at_At w b i blk s v :
  block_at (mem w) b = Some blk -> blk !! N.to_nat i = Some s ->
  assign_at (At b i) v w =
    if assign_throws v
    then Throw assign_failure (upd w b (<[N.to_nat i := failed_assign s v]> blk))
    else Ret tt (upd w b (<[N.to_nat i := if is_live s then Live v else Dead v]> blk)).
Proof.
  intros Hb Hs. unfold assign_at, load, store. rewrite Hb. simpl. rewrite Hs.
  rewrite decide_True by (by eapply lookup_lt_Some).
  by destruct (assign_throws v).
Qed.

Lemma destroy_at_At w b i blk s v :
  block_at (mem w) b = Some blk -> blk !! N.to_nat i = Some s -> payload s = Some v ->
  destroy_at (At b i) w = Ret tt (upd w b (<[N.to_nat i := Dead v]> blk)).
Proof.
  intros Hb Hs Hv. unfold destroy_at, load, store. rewrite Hb. simpl. rewrite Hs. simpl.
  rewrite Hv. rewrite decide_True; [done|]. by eapply lookup_lt_Some.
Qed.

Lemma construct_at_At w b i blk v :
  block_at (mem w) b = Some blk -> (N.to_nat i < length blk)%nat ->
  construct_at (At b i) v w =
    if copy_throws v then Throw copy_failure w
    else Ret tt (upd w b (<[N.to_nat i := Live v]> blk)).
Proof.
  intros Hb Hi. unfold construct_at, store. rewrite Hb. simpl.
  by rewrite decide_True.
Qed.

Lemma construct_at_oob w b i blk v :
  block_at (mem w) b = Some blk -> (length blk <= N.to_nat i)%nat ->
  construct_at (At b i) v w = Undef.
Proof.
  intros Hb Hi. unfold construct_at, store. rewrite Hb. simpl.
  rewrite decide_False; [done | lia].
Qed.

End Basics.

(** Step through the field reads and writes at the head of a run. *)
Ltac mstep_in H :=
  repeat (first [ rewrite bind_gets in H | rewrite bind_mret in H
                | rewrite bind_set_data in H | rewrite bind_set_size in H
                | rewrite bind_set_capacity in H | rewrite bind_assert in H
                | rewrite bind_assoc in H ];
          cbn beta iota delta [self mem data_ size_ capacity_] in H).

(** ** The invariant, and the loop of [erase] *)

Section EraseLoop.
Context {T : Type} `{!Element T}.
Implicit Types (w : world T) (p q : ptr) (v : T) (blk cur : list (slot T)).

Lemma valid_inv w :
  valid w = true ->
  (data_ (self w) = Null /\ size_ (self w) = 0 /\ capacity_ (self w) = 0) \/
  (exists b blk xs,
      data_ (self w) = At b 0 /\ block_at (mem w) b = Some blk /\
        0 < capacity_ (self w) /\ capacity_ (self w) < size_modulus /\
      capacity_ (self w) * sizeof < size_modulus /\
      N.of_nat (length blk) = capacity_ (self w) /\
      size_ (self w) <= capacity_ (self w) /\
      take (N.to_nat (size_ (self w))) blk = Live <$> xs).
Proof.
  unfold valid. destruct (data_ (self w)) as [|b i].
  - rewrite andb_true_iff, !bool_decide_eq_true. tauto.
  - destruct (block_at (mem w) b) as [blk|] eqn:Hblk; [|done].
    rewrite !andb_true_iff, !bool_decide_eq_true.
      intros (((((-> & ?) & ?) & ?) & ?) & Hl). right.
    assert (capacity_ (self w) < size_modulus) by (pose proof sizeof_pos; nia).
    exists b, blk.
    assert (exists xs, take (N.to_nat (size_ (self w))) blk = Live <$> xs) as [xs Hxs].
    { clear -Hl. induction (take _ blk) as [|s l IH]; [by exists []|].
      simpl in Hl. apply andb_true_iff in Hl as [Hs Hl].
      destruct (IH Hl) as [xs ->]. destruct s; try done. by exists (v :: xs). }
    exists xs. repeat split; assumption || reflexivity.
Qed.

Lemma ptr_add_base b i : ptr_add (At b 0) i = At b i.
Proof. unfold ptr_add. by rewrite N.add_0_l. Qed.



End EraseLoop.

(** ** [erase] *)

Lemma to_size_t_of_N n : n < size_modulus -> to_size_t (Z.of_N n) = n.
Proof. intros. rewrite to_size_t_small; lia. Qed.

Section EraseSpec.
Context {T : Type} `{!Element T}.
Implicit Types (w : world T) (p q : ptr) (v : T) (blk cur : list (slot T)).

End EraseSpec.

(** ** Relocation *)

Section Reloc.
Context {T : Type} `{!Element T}.
Variable alloc_fails : N -> bool.
Implicit Types (w : world T) (p q : ptr) (v : T) (blk cur : list (slot T)).

Lemma block_at_upd_ne w b c blk : b ≠ c -> block_at (mem (upd w b blk)) c = block_at (mem w) c.
Proof. intros. by apply block_at_insert_ne. Qed.

Lemma throw_not_Ret {A B} (m : M T A) e w (b : B) w' : (m ≫= fun _ => throw e) w ≠ Ret b w'.
Proof. unfold mbind, M_bind, throw. by destruct (m w). Qed.

Lemma try_catch_Ret {A} (m : M T A) h w a w' :
  (forall e w1, h e w1 ≠ Ret a w') ->
  try_catch m h w = Ret a w' -> m w = Ret a w'.
Proof.
  unfold try_catch. intros Hh. destruct (m w) as [a1 w1|e w1|]; [done| |done].
  intros Hr. by apply Hh in Hr.
Qed.

(** [destroy_all] on slots that hold values. *)
Lemma destroy_all_loop bk k : forall i w cur,
  block_at (mem w) bk = Some cur ->
  (forall t, (N.to_nat i <= t < N.to_nat i + k)%nat -> is_Some (cur !! t ≫= payload)) ->
  exists cur', for_up i k (fun i => destroy_at (ptr_add (At bk 0) i)) w = Ret tt (upd w bk cur') /\
    length cur' = length cur /\
    forall t, cur' !! t =
      if decide (N.to_nat i <= t < N.to_nat i + k)%nat
      then Dead <$> (cur !! t ≫= payload) else cur !! t.
Proof.
  induction k as [|k IH]; intros i w cur Hb Hp.
  - exists cur. simpl. rewrite upd_id by done. split; [done|]. split; [done|].
    intros t. by rewrite decide_False by lia.
  - destruct (Hp (N.to_nat i)) as [x Hx]; [lia|].
    destruct (cur !! N.to_nat i) as [s|] eqn:Hs; [|done]. simpl in Hx.
    set (cur1 := <[N.to_nat i := Dead x]> cur).
    destruct (IH (N.succ i) (upd w bk cur1) cur1) as (cur' & Hrun & Hlen & Hpt).
    { eauto using block_at_upd_eq. }
    { intros t Ht. unfold cur1. rewrite list_lookup_insert_ne by lia. apply Hp. lia. }
    exists cur'. split.
    { cbn [for_up]. unfold mbind at 1, M_bind at 1. rewrite ptr_add_base.
      rewrite (destroy_at_At _ _ _ _ _ _ Hb Hs Hx). fold cur1. rewrite Hrun.
      by rewrite upd_upd. }
    split. { rewrite Hlen. apply length_insert. }
    intros t. rewrite Hpt. unfold cur1. rewrite list_lookup_insert.
    apply lookup_lt_Some in Hs as Hlt.
    repeat case_decide; try lia; try done.
    destruct_and!. subst t. rewrite Hs. simpl. by rewrite Hx.
Qed.

Lemma destroy_all_0 p w : destroy_all p 0 w = Ret tt w.
Proof. reflexivity. Qed.

(** The loop of [copy_and_construct], when it completes. *)
Lemma copy_loop_Ret bd bs sblk (hd : N -> M T unit) k : forall i w w' dst,
  block_at (mem w) bd = Some dst -> block_at (mem w) bs = Some sblk -> bd ≠ bs ->
  try_for_up i k
    (fun i => v ← read (ptr_add (At bs 0) i); construct_at (ptr_add (At bd 0) i) v)
    (fun i e => hd i;; throw e) w = Ret tt w' ->
  exists dst', w' = upd w bd dst' /\ length dst' = length dst /\
    (k = 0%nat \/ N.to_nat i + k <= length dst)%nat /\
    forall t, dst' !! t =
      if decide (N.to_nat i <= t < N.to_nat i + k)%nat
      then Live <$> (sblk !! t ≫= payload) else dst !! t.
Proof.
  induction k as [|k IH]; intros i w w' dst Hd Hs Hne Hrun.
  - simpl in Hrun. injection Hrun as <-. exists dst. rewrite upd_id by done.
    repeat split; [by left|]. intros t. by rewrite decide_False by lia.
  - cbn [try_for_up] in Hrun. rewrite !ptr_add_base in Hrun.
    destruct ((read (At bs i) ≫= λ v, construct_at (At bd i) v) w) as [[] w1|e w1|] eqn:Hbody;
      [|by apply throw_not_Ret in Hrun|done].
    apply bind_Ret in Hbody as (x & w0 & Hr & Hc).
    rewrite (read_At _ _ _ _ Hs) in Hr.
    destruct (sblk !! N.to_nat i ≫= payload) as [x'|] eqn:Hx; [|done]. simplify_eq.
    destruct (decide (N.to_nat i < length dst)%nat) as [Hi|Hi];
      [|by rewrite (construct_at_oob _ _ _ _ _ Hd) in Hc by lia].
    rewrite (construct_at_At _ _ _ _ _ Hd Hi) in Hc.
    destruct (copy_throws x); [done|]. simplify_eq.
    set (dst1 := <[N.to_nat i := Live x]> dst) in *.
    apply (IH _ _ _ dst1) in Hrun as (dst' & -> & Hlen & Hk & Hpt);
      [|eauto using block_at_upd_eq|by rewrite block_at_upd_ne|done].
    assert (length dst1 = length dst) as Hl1 by apply length_insert.
    exists dst'. split; [by rewrite upd_upd|]. split; [congruence|].
    split; [right; lia|].
    intros t. rewrite Hpt. unfold dst1. rewrite list_lookup_insert.
    repeat case_decide; try lia; try done.
    destruct_and!. subst t. by rewrite Hx.
Qed.

Lemma view_At w b blk :
  data_ (self w) = At b 0 -> block_at (mem w) b = Some blk ->
  view w = take (N.to_nat (size_ (self w))) blk.
Proof. unfold view. intros -> ->. simpl. by rewrite drop_0. Qed.

Lemma view_Null w : data_ (self w) = Null -> view w = [].
Proof. unfold view. by intros ->. Qed.

Lemma operator_delete_At w b blk :
  block_at (mem w) b = Some blk ->
  operator_delete (At b 0) w = Ret tt (World (self w) (<[b := None]> (mem w))).
Proof. intros Hb. unfold operator_delete. by rewrite Hb. Qed.

(** Relocation, when it completes: the new block holds copies of the
    live elements in its first [size_] slots, its other slots are as they
    were, and the container has adopted it. *)
Lemma copy_to_ptr_Ret w w' cap bn nb :
  valid w = true -> block_at (mem w) bn = Some nb ->
  (forall i, data_ (self w) ≠ At bn i) ->
  copy_to_ptr cap (At bn 0) w = Ret tt w' ->
  exists nb',
    self w' = Vec (At bn 0) (size_ (self w)) cap /\
    block_at (mem w') bn = Some nb' /\
    length nb' = length nb /\
    (N.to_nat (size_ (self w)) <= length nb)%nat /\
    take (N.to_nat (size_ (self w))) nb' = view w /\
    drop (N.to_nat (size_ (self w))) nb' = drop (N.to_nat (size_ (self w))) nb /\
    length (mem w') = length (mem w).
Proof.
  intros Hv Hnb Hne Hrun. unfold copy_to_ptr in Hrun.
  apply bind_Ret in Hrun as ([] & w1 & Hcopy & Hrun).
  apply try_catch_Ret in Hcopy.
  2:{ intros e w2 Hh. mstep_in Hh.
      apply bind_Ret in Hh as (? & ? & _ & Hh).
      apply bind_Ret in Hh as (? & ? & _ & Hh). mstep_in Hh. done. }
  mstep_in Hcopy. mstep_in Hrun.
  apply valid_inv in Hv
    as [(Hd & Hn & Hc)|(bo & blk & xs & Hd & Hblk & Hc0 & HcM & HcS & Hlen & Hnc & Hxs)].
  - rewrite (view_Null _ Hd). rewrite Hd, Hn in Hcopy.
    change (Ret tt w = Ret tt w1) in Hcopy. injection Hcopy as <-.
    rewrite Hd, Hn in Hrun.
    change (Ret tt (World (Vec (At bn 0) 0 cap) (mem w)) = Ret tt w') in Hrun.
    injection Hrun as <-. simpl. exists nb. rewrite Hn. repeat split; try done. simpl; lia.
  - rewrite (view_At _ _ _ Hd Hblk). rewrite Hd in *.
    assert (bn ≠ bo) as Hbne by (intros ->; by eapply Hne).
    unfold copy_and_construct in Hcopy.
    eapply copy_loop_Ret in Hcopy as (nb' & -> & Hlen' & Hk & Hpt); [|done..].
    unfold upd in Hrun. cbn [self mem data_ size_ capacity_] in Hrun.
    apply bind_Ret in Hrun as ([] & w2 & Hdes & Hdel).
    set (w1 := World _ _) in Hdes.
    assert (block_at (mem w1) bo = Some blk) as Hblk1.
    { unfold w1. simpl. by rewrite block_at_insert_ne. }
    destruct (destroy_all_loop bo (N.to_nat (size_ (self w))) 0 w1 blk Hblk1) as (blk' & Hdes' & ? & _).
    { intros t Ht. assert (take (N.to_nat (size_ (self w))) blk !! t = blk !! t) as <-
        by (apply lookup_take_lt; lia).
      rewrite Hxs, list_lookup_fmap.
      destruct (xs !! t) eqn:Hxt; [by eexists|].
      apply lookup_ge_None in Hxt.
      assert (length (take (N.to_nat (size_ (self w))) blk) = length xs) as Hl
        by (by rewrite Hxs, length_fmap).
      rewrite length_take in Hl. lia. }
    unfold destroy_all in Hdes. rewrite Hd in Hdes, Hdel. rewrite Hdes' in Hdes. simplify_eq.
    erewrite operator_delete_At in Hdel by (by eapply block_at_upd_eq).
    simplify_eq. simpl.
    exists nb'. split; [done|].
    split. { rewrite !block_at_insert_ne by done. apply block_at_insert_eq. eauto using block_at_lt. }
    split; [done|]. split; [lia|].
    split.
    { apply list_eq. intros t. rewrite !lookup_take. case_decide; [|done].
      rewrite Hpt, decide_True by lia.
      assert (take (N.to_nat (size_ (self w))) blk !! t = blk !! t) as Ht
        by (apply lookup_take_lt; lia).
      rewrite Hxs, list_lookup_fmap in Ht. rewrite <-Ht.
      by destruct (xs !! t). }
    split.
    { apply list_eq. intros t. rewrite !lookup_drop, Hpt.
      by rewrite decide_False by lia. }
    by rewrite !length_insert.
Qed.

End Reloc.

(** ** [move_element] *)

Section Move.
Context {T : Type} `{!Element T}.
Implicit Types (w : world T) (p q : ptr) (v : T) (blk cur : list (slot T)).

(** A prefix of live slots, slot by slot. *)
Lemma take_live_lookup cur n (ys : list T) t :
  take n cur = Live <$> ys -> (t < length ys)%nat ->
  cur !! t = Live <$> ys !! t.
Proof.
  intros Hys Ht. rewrite <-list_lookup_fmap, <-Hys.
  symmetry. apply lookup_take_lt.
  assert (length (take n cur) = length ys) as Hl by (by rewrite Hys, length_fmap).
  rewrite length_take in Hl. lia.
Qed.

(** The loop of [move_element]: [k] slots above [to] each receive their
    left neighbour. *)
Lemma shift_loop_Ret bk (to : nat) k : forall i w w' cur,
  block_at (mem w) bk = Some cur -> N.to_nat i = (to + k)%nat ->
  (forall t, (to <= t <= to + k)%nat -> exists x, cur !! t = Some (Live x)) ->
  for_down i k
    (fun i => x ← read (ptr_add (At bk 0) (i - 1)); assign_at (ptr_add (At bk 0) i) x) w
    = Ret tt w' ->
  exists cur', w' = upd w bk cur' /\ length cur' = length cur /\
    forall t, cur' !! t =
      if decide (to < t <= to + k)%nat then cur !! (t - 1)%nat else cur !! t.
Proof.
  induction k as [|k IH]; intros i w w' cur Hb Hi Hlive Hrun.
  - cbn [for_down] in Hrun. injection Hrun as <-. exists cur. rewrite upd_id by done.
    repeat split. intros t. by rewrite decide_False by lia.
  - cbn [for_down] in Hrun. rewrite !ptr_add_base in Hrun.
    apply bind_Ret in Hrun as ([] & w1 & Hbody & Hrun).
    apply bind_Ret in Hbody as (x & w0 & Hr & Ha).
    rewrite (read_At _ _ _ _ Hb) in Hr.
    destruct (Hlive (to + k)%nat) as [x' Hx]; [lia|].
    replace (N.to_nat (i - 1)) with (to + k)%nat in Hr by lia.
    rewrite Hx in Hr. simpl in Hr. injection Hr as <- <-.
    destruct (Hlive (to + S k)%nat) as [y Hy]; [lia|]. rewrite <-Hi in Hy.
    rewrite (assign_at_At _ _ _ _ _ _ Hb Hy) in Ha.
    destruct (assign_throws x'); [done|]. simpl in Ha. injection Ha as <-.
    set (cur1 := <[N.to_nat i := Live x']> cur) in *.
    apply (IH _ _ _ cur1) in Hrun as (cur' & -> & Hlen & Hpt);
      [|eauto using block_at_upd_eq|lia|].
    2:{ intros t Ht. unfold cur1. rewrite list_lookup_insert_ne by lia. apply Hlive. lia. }
    exists cur'. split; [by rewrite upd_upd|].
    split. { rewrite Hlen. apply length_insert. }
    intros t. rewrite Hpt. unfold cur1. rewrite !list_lookup_insert.
    apply lookup_lt_Some in Hy.
    repeat case_decide; try lia; try done.
    destruct_and!. subst t. rewrite <-Hx. f_equal. lia.
Qed.

(** [move_element(size_ - 1, to)] after a value [e] has been placed
    behind the elements [xs]: [e] ends at index [to], the elements from
    [to] on move up by one. *)
Lemma move_element_Ret w w' bk cur (from to : N) xs e :
  data_ (self w) = At bk 0 -> block_at (mem w) bk = Some cur ->
  N.to_nat from = length xs ->
  take (S (length xs)) cur = Live <$> (xs ++ [e]) ->
  move_element from to w = Ret tt w' ->
  to <= from /\
  exists cur', w' = upd w bk cur' /\ length cur' = length cur /\
    take (S (length xs)) cur' =
      Live <$> (take (N.to_nat to) xs ++ e :: drop (N.to_nat to) xs) /\
    drop (S (length xs)) cur' = drop (S (length xs)) cur.
Proof.
  intros Hd Hb Hfrom Hys Hrun. unfold move_element in Hrun.
  mstep_in Hrun. case_bool_decide as Hle; [|done]. split; [done|].
  assert (forall t, (t <= length xs)%nat -> cur !! t = Live <$> (xs ++ [e]) !! t) as Hcur.
  { intros t Ht. eapply take_live_lookup; [done|]. rewrite length_app. simpl. lia. }
  destruct (decide (from ≠ to)) as [Hne|Heq].
  - mstep_in Hrun. rewrite Hd in Hrun. rewrite !ptr_add_base in Hrun.
    apply bind_Ret in Hrun as (c & w0 & Hr & Hrun).
    rewrite (read_At _ _ _ _ Hb) in Hr.
    rewrite Hcur in Hr by lia. rewrite Hfrom in Hr.
    rewrite lookup_app_r, Nat.sub_diag in Hr by lia. simpl in Hr. injection Hr as <- <-.
    apply bind_Ret in Hrun as ([] & w0 & Hc & Hrun).
    destruct (copy_throws e); [done|]. injection Hc as <-.
    apply bind_Ret in Hrun as ([] & w1 & Hloop & Hrun).
    apply (shift_loop_Ret bk (N.to_nat to) _ _ _ _ cur) in Hloop
      as (cur1 & -> & Hlen1 & Hpt); [|done|lia|].
    2:{ intros t Ht. rewrite Hcur by lia.
        destruct ((xs ++ [e]) !! t) eqn:Hx; [by eexists|].
        apply lookup_ge_None in Hx. rewrite length_app in Hx. simpl in Hx. lia. }
    assert (exists s, cur1 !! N.to_nat to = Some s /\ is_live s = true) as (s & Hs & Hsl).
    { rewrite Hpt, decide_False by lia. rewrite Hcur by lia.
      destruct ((xs ++ [e]) !! N.to_nat to) eqn:Hx; [by eexists|].
      apply lookup_ge_None in Hx. rewrite length_app in Hx. simpl in Hx. lia. }
    erewrite assign_at_At in Hrun; [|by eapply block_at_upd_eq|done].
    destruct (assign_throws e); [done|]. injection Hrun as <-. rewrite Hsl.
    eexists. split; [by rewrite upd_upd|].
    split. { by rewrite length_insert. }
    split.
    + apply list_eq. intros t. rewrite lookup_take, list_lookup_insert, Hlen1, Hpt.
      rewrite list_lookup_fmap.
      apply lookup_lt_Some in Hs. rewrite Hlen1 in Hs.
      destruct (decide (t < N.to_nat to)%nat).
      * rewrite lookup_app_l by (rewrite length_take; lia).
        rewrite lookup_take_lt by lia.
        repeat case_decide; try lia. rewrite Hcur by lia.
        by rewrite lookup_app_l by lia.
      * rewrite lookup_app_r by (rewrite length_take; lia).
        rewrite length_take.
        replace (N.to_nat to `min` length xs)%nat with (N.to_nat to) by lia.
        destruct (decide (t = N.to_nat to)) as [->|].
        { rewrite Nat.sub_diag. simpl. repeat case_decide; try lia; done. }
        replace (t - N.to_nat to)%nat with (S (t - N.to_nat to - 1)) by lia.
        simpl. rewrite lookup_drop.
        repeat case_decide; try lia.
        -- rewrite Hcur by lia. rewrite lookup_app_l by lia.
           do 2 f_equal. lia.
        -- symmetry. apply fmap_None. apply lookup_ge_None. lia.
    + apply list_eq. intros t. rewrite !lookup_drop, list_lookup_insert_ne by lia.
      rewrite Hpt. by rewrite decide_False by lia.
  - apply dec_stable in Heq. subst to. injection Hrun as <-.
    exists cur. rewrite upd_id by done. repeat split.
    rewrite Hys. f_equal. rewrite Hfrom.
    by rewrite take_ge, drop_ge by lia.
Qed.

End Move.

(** ** Block sizes *)

Lemma wrap_lt n : wrap n < size_modulus.
Proof. unfold wrap. apply N.mod_lt. done. Qed.

Lemma wrap_le n : wrap n <= n.
Proof. unfold wrap. apply N.Div0.mod_le. Qed.

(** A block that has room for more than [c] objects after growth from
    capacity [c] has exactly the requested number of slots: the byte count
    did not wrap. *)
Lemma grown_block_exact (c S : N) :
  0 < S -> S < size_modulus ->
  c < wrap (N.max 1 (wrap (c * 2)) * S) / S ->
  N.max 1 (wrap (c * 2)) * S < size_modulus /\
  wrap (N.max 1 (wrap (c * 2)) * S) / S = N.max 1 (wrap (c * 2)).
Proof.
  intros HS HSM Hc. set (nc := N.max 1 (wrap (c * 2))) in *.
  destruct (decide (nc * S < size_modulus)) as [Hy|Hy].
  - split; [done|]. rewrite wrap_small by done. apply N.div_mul. lia.
  - exfalso.
    assert (nc <= N.max 1 (c * 2)) as Hnc.
    { unfold nc. pose proof (wrap_le (c * 2)). lia. }
    assert (wrap (nc * S) / S <= nc).
    { pose proof (wrap_le (nc * S)).
      etrans; [apply N.Div0.div_le_mono; eassumption|]. rewrite N.div_mul; lia. }
    assert (1 <= c) as Hc1.
    { destruct (decide (c = 0)) as [->|]; [|lia].
      unfold nc in Hy. change (wrap (0 * 2)) with 0 in Hy. simpl in Hy. lia. }
    assert (nc * S <= 2 * c * S) by nia.
    assert (wrap (nc * S) + size_modulus <= nc * S) as Hw.
    { unfold wrap. pose proof (N.Div0.div_mod (nc * S) size_modulus) as Hdm.
      assert (1 <= nc * S / size_modulus).
      { apply N.div_le_lower_bound; [done|lia]. }
      nia. }
    pose proof (wrap_lt (nc * S)).
    assert (wrap (nc * S) / S < c); [|lia].
    apply N.Div0.div_lt_upper_bound. nia.
Qed.

(** A block that has room for [n] objects when [n] were requested has
    exactly [n] slots. *)
Lemma requested_block_exact (n S : N) :
  0 < S -> n <= wrap (n * S) / S ->
  n * S < size_modulus /\ wrap (n * S) / S = n.
Proof.
  intros HS Hn. pose proof (wrap_le (n * S)). pose proof (wrap_lt (n * S)).
  assert (wrap (n * S) / S <= n).
  { etrans; [apply N.Div0.div_le_mono; eassumption|]. rewrite N.div_mul; lia. }
  split; [|lia].
  assert (n * S <= wrap (n * S)); [|lia].
  etrans; [|apply (N.Div0.mul_div_le _ S)]. nia.
Qed.

(** ** [insert] *)

Section Insert.
Context {T : Type} `{!Element T}.
Variable alloc_fails : N -> bool.
Implicit Types (w : world T) (p q : ptr) (v : T) (blk cur : list (slot T)).

Lemma valid_intro w b blk xs :
  data_ (self w) = At b 0 -> block_at (mem w) b = Some blk ->
  0 < capacity_ (self w) -> capacity_ (self w) * sizeof < size_modulus ->
  N.of_nat (length blk) = capacity_ (self w) ->
  size_ (self w) <= capacity_ (self w) ->
  take (N.to_nat (size_ (self w))) blk = Live <$> xs ->
  valid w = true.
Proof.
  intros Hd Hb ? ? ? ? Hxs. unfold valid. rewrite Hd, Hb.
  rewrite !andb_true_iff, !bool_decide_eq_true. repeat split; try done.
  rewrite Hxs. clear. induction xs; simpl; [done|]. done.
Qed.

Lemma valid_view w : valid w = true ->
  exists xs, view w = Live <$> xs /\ N.of_nat (length xs) = size_ (self w).
Proof.
  intros Hv. apply valid_inv in Hv
    as [(Hd & Hn & Hc)|(bo & blk & xs & Hd & Hblk & Hc0 & HcM & HcS & Hlen & Hnc & Hxs)].
  - exists []. rewrite (view_Null _ Hd). split; [done|]. simpl. lia.
  - exists xs. rewrite (view_At _ _ _ Hd Hblk). split; [done|].
    assert (length (take (N.to_nat (size_ (self w))) blk) = length xs) as Hl
      by (by rewrite Hxs, length_fmap).
    rewrite length_take in Hl. lia.
Qed.

(** Storage that the container does not own may change. *)
Lemma valid_ext w w1 :
  valid w = true -> self w1 = self w ->
  (forall b i blk, data_ (self w) = At b i -> block_at (mem w) b = Some blk ->
                   block_at (mem w1) b = Some blk) ->
  valid w1 = true /\ view w1 = view w.
Proof.
  intros Hv Hs Hm. unfold valid, view in *. rewrite Hs.
  destruct (data_ (self w)) as [|b i]; [done|].
  destruct (block_at (mem w) b) as [blk|] eqn:Hb; [|done].
  by rewrite (Hm _ _ _ eq_refl Hb).
Qed.

Lemma block_at_app_l h b (blk : list (slot T)) o :
  block_at h b = Some blk -> block_at (h ++ [o]) b = Some blk.
Proof.
  intros Hb. unfold block_at in *. rewrite lookup_app_l; [done|].
  apply lookup_lt_is_Some. destruct (h !! b); [by eexists|done].
Qed.

Lemma block_at_app_new (h : heap T) o : block_at (h ++ [o]) (length h) = o.
Proof.
  unfold block_at. rewrite lookup_app_r by lia. by rewrite Nat.sub_diag.
Qed.

Lemma operator_new_Ret bytes w p w' :
  operator_new alloc_fails bytes w = Ret p w' ->
  p = At (length (mem w)) 0 /\
  w' = World (self w) (mem w ++ [Some (replicate (N.to_nat (bytes / sizeof)) Raw)]).
Proof. unfold operator_new. destruct (alloc_fails bytes); [done|]. by intros [= <- <-]. Qed.

Lemma ptr_diff_begin w (k : N) :
  valid w = true -> k <= size_ (self w) ->
  ptr_diff (ptr_add (begin_ w) k) (begin_ w) = Some (Z.of_N k) /\ k < size_modulus.
Proof.
  intros Hv Hp. unfold begin_. apply valid_inv in Hv
    as [(Hd & Hn & Hc)|(bo & blk & xs & Hd & Hblk & Hc0 & HcM & HcS & Hlen & Hnc & Hxs)];
    rewrite Hd; simpl.
  - assert (k = 0) as -> by lia. done.
  - rewrite decide_True by done. split; [f_equal; lia|lia].
Qed.

Lemma take_S_snoc {A} (l : list A) n ys x :
  take n l = ys -> length ys = n -> l !! n = Some x -> take (S n) l = ys ++ [x].
Proof. intros <- _ Hx. by apply take_S_r. Qed.

Lemma insert_Ret w (k : N) e r w' xs :
  valid w = true -> view w = Live <$> xs -> k <= size_ (self w) ->
  insert alloc_fails (ptr_add (begin_ w) k) e w = Ret r w' ->
  valid w' = true /\
  size_ (self w') = size_ (self w) + 1 /\
  view w' = Live <$> (take (N.to_nat k) xs ++ e :: drop (N.to_nat k) xs) /\
  r = ptr_add (begin_ w') k.
Proof.
  intros Hv Hview Hk Hrun. unfold insert in Hrun.
  destruct (ptr_diff_begin _ _ Hv Hk) as [Hpd HkM]. rewrite Hpd in Hrun.
  rewrite to_size_t_of_N in Hrun by done.
  apply bind_Ret in Hrun as ([] & w1 & Hmain & Hret).
  mstep_in Hret. injection Hret as <- <-. mstep_in Hmain.
  destruct (valid_view _ Hv) as (xs' & Hview' & Hlxs).
  rewrite Hview in Hview'. apply (f_equal length) in Hview'.
  rewrite !length_fmap in Hview'.
  assert (N.to_nat (size_ (self w)) = length xs) as Hnx by lia.
  clear xs' Hview' Hlxs.
  destruct (decide (size_ (self w) = capacity_ (self w))) as [Hfull|Hroom].
  - unfold resize_and_insert in Hmain.
    apply bind_Ret in Hmain as (ptr & wa & Hnew & Hmain).
    apply operator_new_Ret in Hnew as [-> ->]. mstep_in Hmain.
    set (bn := length (mem w)) in *. set (nc := N.max 1 _) in *.
    set (nb := replicate _ _ : list (slot T)) in *.
    set (wa := World _ _) in *.
    assert (block_at (mem wa) bn = Some nb) as Hnb by apply block_at_app_new.
    apply bind_Ret in Hmain as ([] & wc & Hcons & Hmain).
    rewrite ptr_add_base in Hcons.
    destruct (decide (N.to_nat (size_ (self w)) < length nb)%nat) as [Hn|Hn];
      [|by rewrite (construct_at_oob _ _ _ _ _ Hnb) in Hcons by lia].
    rewrite (construct_at_At _ _ _ _ _ Hnb Hn) in Hcons.
    destruct (copy_throws e); [done|]. injection Hcons as <-.
    set (cur1 := <[_ := _]> nb) in *.
    apply bind_Ret in Hmain as ([] & w2 & Hreloc & Hmain).
    apply try_catch_Ret in Hreloc; [|intros; apply throw_not_Ret].
    assert (forall b (i : N) blk, data_ (self w) = At b i -> block_at (mem w) b = Some blk ->
              block_at (mem (upd wa bn cur1)) b = Some blk) as Hpres.
    { intros b i blk _ Hb. pose proof (block_at_lt _ _ _ Hb).
      rewrite block_at_upd_ne by (unfold bn; lia). by apply block_at_app_l. }
    destruct (valid_ext w (upd wa bn cur1) Hv eq_refl Hpres) as [Hv1 Hview1].
    apply (copy_to_ptr_Ret _ _ _ _ cur1) in Hreloc
      as (nb' & Hself2 & Hnb' & Hlen' & _ & Htake & Hdrop & _);
      [|done|by eapply block_at_upd_eq|].
    2:{ intros i Hi. apply valid_inv in Hv as [(Hd & _)|(bo & blk & _ & Hd & Hblk & _)];
          simpl in Hi; rewrite Hd in Hi; [done|].
        injection Hi as Hbo _. apply block_at_lt in Hblk. unfold bn in Hbo. lia. }
    change (size_ (self (upd wa bn cur1))) with (size_ (self w)) in *.
    mstep_in Hmain. rewrite Hself2 in Hmain. simpl in Hmain.
    assert (nc * sizeof < size_modulus /\ length nb = N.to_nat nc) as [HncS Hlnb].
    { unfold nb. rewrite length_replicate.
      destruct (grown_block_exact (capacity_ (self w)) sizeof) as [H1 H2];
        [apply sizeof_pos|apply sizeof_fits| |].
      - unfold nb in Hn. rewrite length_replicate in Hn. unfold nc in Hn. lia.
      - split; [done|]. f_equal. done. }
    assert (nc < size_modulus) as HncM.
    { unfold nc. pose proof (wrap_lt (capacity_ (self w) * 2)). unfold size_modulus in *. lia. }
    rewrite wrap_small in Hmain by lia.
    rewrite sz_sub_small in Hmain by lia.
    replace (size_ (self w) + 1 - 1) with (size_ (self w)) in Hmain by lia.
    simpl in Hview1. rewrite Hview1, Hview in Htake.
    eapply (move_element_Ret _ _ bn nb' _ _ xs e) in Hmain
      as (_ & cur' & -> & Hlc & Htk & _); [|done|done|done|].
    2:{ rewrite <-Hnx, fmap_app. apply take_S_snoc; [done|by rewrite length_fmap|].
        rewrite <-(Nat.add_0_r (N.to_nat _)), <-lookup_drop, Hdrop, lookup_drop, Nat.add_0_r.
        unfold cur1. by rewrite list_lookup_insert_eq. }
    split.
    { eapply (valid_intro _ bn cur'); simpl; rewrite ?Hself2; simpl;
        [done|by eapply block_at_upd_eq| | | | |]; try done; try lia.
      { unfold cur1 in Hlen'. rewrite length_insert in Hlen'. lia. }
      replace (N.to_nat (size_ (self w) + 1)) with (S (length xs)) by lia. done. }
    split; [done|]. unfold begin_. simpl.
    split; [|done].
    erewrite view_At; [|done|by eapply block_at_upd_eq].
    simpl.
    replace (N.to_nat (size_ (self w) + 1)) with (S (length xs)) by lia. done.
  - apply valid_inv in Hv as Hv'.
    destruct Hv' as [(Hd & Hn & Hc)|(bo & blk & xs' & Hd & Hblk & Hc0 & HcM & HcS & Hlen & Hnc & Hxs)];
      [congruence|].
    rewrite (view_At _ _ _ Hd Hblk) in Hview.
    mstep_in Hmain. rewrite Hd in Hmain. rewrite ptr_add_base in Hmain.
    apply bind_Ret in Hmain as ([] & wc & Hcons & Hmain).
    rewrite (construct_at_At _ _ _ _ _ Hblk) in Hcons by lia.
    destruct (copy_throws e); [done|]. injection Hcons as <-.
    set (cur1 := <[_ := _]> blk) in *.
    mstep_in Hmain. unfold upd in Hmain. mstep_in Hmain.
    rewrite wrap_small in Hmain by lia.
    rewrite sz_sub_small in Hmain by lia.
    replace (size_ (self w) + 1 - 1) with (size_ (self w)) in Hmain by lia.
    eapply (move_element_Ret _ _ bo cur1 _ _ xs e) in Hmain
      as (_ & cur' & -> & Hlc & Htk & _); [|by simpl; rewrite Hd| |done|].
    2:{ simpl. apply block_at_insert_eq. eauto using block_at_lt. }
    2:{ rewrite <-Hnx, fmap_app. apply take_S_snoc; [|by rewrite length_fmap|].
        - unfold cur1. by rewrite take_insert_ge by lia.
        - unfold cur1. rewrite list_lookup_insert_eq; [done|lia]. }
    assert (length cur1 = length blk) as Hl1 by apply length_insert.
    split.
    { eapply (valid_intro _ bo cur'); simpl;
        [by rewrite Hd| |lia|done|lia|lia|].
      - rewrite list_insert_insert_eq. apply block_at_insert_eq. eauto using block_at_lt.
      - replace (N.to_nat (size_ (self w) + 1)) with (S (length xs)) by lia. done. }
    split; [done|]. unfold begin_. simpl. split; [|done].
    erewrite view_At; [|by simpl; rewrite Hd|].
    2:{ simpl. rewrite list_insert_insert_eq. apply block_at_insert_eq. eauto using block_at_lt. }
    simpl. replace (N.to_nat (size_ (self w) + 1)) with (S (length xs)) by lia. done.
Qed.

End Insert.

(** ** [reserve] *)

Section Reserve.
Context {T : Type} `{!Element T}.
Variable alloc_fails : N -> bool.
Implicit Types (w : world T) (p q : ptr) (v : T) (blk cur : list (slot T)).

Lemma data_below_fresh w b i :
  valid w = true -> data_ (self w) = At b i -> (b < length (mem w))%nat.
Proof.
  intros Hv Hd. apply valid_inv in Hv as [(Hd' & _)|(bo & blk & _ & Hd' & Hblk & _)];
    rewrite Hd in Hd'; [done|]. injection Hd' as -> _. eauto using block_at_lt.
Qed.

Lemma reserve_Ret w n w' :
  valid w = true -> capacity_ (self w) < n ->
  reserve alloc_fails n w = Ret tt w' ->
  capacity_ (self w') = n /\ size_ (self w') = size_ (self w) /\ view w' = view w.
Proof.
  intros Hv Hn Hrun. unfold reserve in Hrun. mstep_in Hrun.
  rewrite decide_True in Hrun by done. unfold resize in Hrun.
  rewrite decide_False in Hrun by lia.
  apply bind_Ret in Hrun as (ptr & wa & Hnew & Hrun).
  apply operator_new_Ret in Hnew as [-> ->].
  set (nb := replicate _ _ : list (slot T)) in *. set (wa := World _ _) in *.
  destruct (valid_ext w wa Hv eq_refl) as [Hva Hviewa].
  { intros b i blk _ Hb. by apply block_at_app_l. }
  apply (copy_to_ptr_Ret _ _ _ _ nb) in Hrun
    as (nb' & Hself & Hnb' & _ & _ & Htake & _); [|done|apply block_at_app_new|].
  2:{ intros i Hi. apply (data_below_fresh w) in Hi; [lia|done]. }
  rewrite Hself. simpl. repeat split.
  erewrite view_At; [|by rewrite Hself|done].
  rewrite Hself. simpl. change (size_ (self wa)) with (size_ (self w)) in Htake.
  by rewrite Htake.
Qed.

Lemma reserve_small w n :
  n <= capacity_ (self w) -> reserve alloc_fails n w = Ret tt w.
Proof.
  intros Hn. unfold reserve. rewrite bind_gets. by rewrite decide_False by lia.
Qed.

End Reserve.

(** ** Copy construction, destruction, assignment *)

Section Copy.
Context {T : Type} `{!Element T}.
Variable alloc_fails : N -> bool.
Implicit Types (w : world T) (p q : ptr) (v : T) (blk cur : list (slot T)).

(** The copy constructor, when it completes: the new object is valid,
    holds the elements of [v] in a block of its own of exactly [size_ v]
    slots, and no existing block has changed. *)
Lemma vector_copy_Ret (o : vec) w w' :
  valid (World o (mem w)) = true ->
  vector_copy alloc_fails o w = Ret tt w' ->
  valid w' = true /\
  view w' = view (World o (mem w)) /\
  size_ (self w') = size_ o /\
  (forall b i, data_ (self w') = At b i -> b = length (mem w)) /\
  (forall b blk, block_at (mem w) b = Some blk -> block_at (mem w') b = Some blk).
Proof.
  intros Hv Hrun. unfold vector_copy in Hrun.
  apply bind_Ret in Hrun as ([] & w0 & Hinit & Hrun). injection Hinit as <-.
  apply try_catch_Ret in Hrun; [|intros; apply throw_not_Ret].
  destruct (decide (size_ o ≠ 0)) as [Hn|Hn].
  - apply bind_Ret in Hrun as (ptr & wa & Hnew & Hrun).
    apply operator_new_Ret in Hnew as [-> ->]. simpl in Hrun.
    set (nb := replicate _ _ : list (slot T)) in *.
    apply bind_Ret in Hrun as ([] & w1 & Hcopy & Hrun).
    mstep_in Hrun. injection Hrun as <-.
    apply valid_inv in Hv as Hv'. simpl in Hv'.
    destruct Hv' as [(Hd & Hn' & Hc)|(bo & blk & xs & Hd & Hblk & Hc0 & HcM & HcS & Hlen & Hnc & Hxs)];
      [done|].
    rewrite Hd in Hcopy. unfold copy_and_construct in Hcopy.
    pose proof (block_at_lt _ _ _ Hblk) as Hbo.
    eapply (copy_loop_Ret (length (mem w)) bo blk) in Hcopy as (nb' & -> & Hlen' & Hk & Hpt);
      [|apply block_at_app_new|by apply block_at_app_l|lia].
    assert (N.to_nat (size_ o) <= length nb)%nat as Hfit by lia.
    assert (size_ o * sizeof < size_modulus /\ length nb = N.to_nat (size_ o))
      as [HnS Hlnb].
    { unfold nb in *. rewrite length_replicate in *.
      destruct (requested_block_exact (size_ o) sizeof) as [H1 H2];
        [apply sizeof_pos|lia|].
      split; [done|]. by f_equal. }
    assert (take (N.to_nat (size_ o)) nb' = Live <$> xs) as Htake.
    { rewrite <-Hxs. apply list_eq. intros t. rewrite !lookup_take. case_decide; [|done].
      rewrite Hpt, decide_True by lia.
      rewrite (take_live_lookup _ _ _ _ Hxs); [by destruct (xs !! t)|].
      apply (f_equal length) in Hxs. rewrite length_take, length_fmap in Hxs. lia. }
    assert (block_at (<[length (mem w) := Some nb']> (mem w ++ [Some nb])) (length (mem w))
            = Some nb') as Hnb'.
    { apply block_at_insert_eq. rewrite length_app. simpl. lia. }
    simpl. split.
    { eapply (valid_intro _ _ nb'); simpl; try done; lia. }
    split.
    { rewrite (view_At _ (length (mem w)) nb') by done.
      rewrite (view_At (World o (mem w)) bo blk) by done. simpl. by rewrite Htake, Hxs. }
    split; [done|]. split; [by intros b i [= <- _]|].
    intros b blk' Hb. pose proof (block_at_lt _ _ _ Hb).
    rewrite block_at_insert_ne by lia. by apply block_at_app_l.
  - apply dec_stable in Hn. injection Hrun as <-. simpl.
    split; [done|]. split.
    { unfold view. simpl. destruct (data_ o); [done|]. by rewrite Hn. }
    split; [done|]. split; [done|]. done.
Qed.

(** The destructor of a valid object completes; it touches the block of
    the object only. *)
Lemma vector_dtor_valid w :
  valid w = true ->
  exists w', vector_dtor w = Ret tt w' /\ self w' = self w /\
    forall b, (forall i, data_ (self w) ≠ At b i) ->
              block_at (mem w') b = block_at (mem w) b.
Proof.
  intros Hv. unfold vector_dtor.
  apply valid_inv in Hv
    as [(Hd & Hn & Hc)|(bo & blk & xs & Hd & Hblk & Hc0 & HcM & HcS & Hlen & Hnc & Hxs)].
  - exists w. rewrite !bind_gets, Hd, Hn. done.
  - destruct (destroy_all_loop bo (N.to_nat (size_ (self w))) 0 w blk Hblk)
      as (blk' & Hdes & _ & _).
    { intros t Ht. rewrite (take_live_lookup _ _ _ _ Hxs).
      - destruct (xs !! t) eqn:Hx; [by eexists|].
        apply lookup_ge_None in Hx.
        apply (f_equal length) in Hxs. rewrite length_take, length_fmap in Hxs. lia.
      - apply (f_equal length) in Hxs. rewrite length_take, length_fmap in Hxs. lia. }
    eexists. rewrite !bind_gets, Hd. unfold destroy_all.
    unfold mbind at 1, M_bind at 1. rewrite Hdes.
    erewrite operator_delete_At by (by eapply block_at_upd_eq).
    split; [done|]. split; [done|]. intros b Hb. simpl.
    assert (bo ≠ b) by (intros <-; by eapply Hb).
    by rewrite !block_at_insert_ne.
Qed.

(** [v = other] for a valid [other], when it completes. *)
Lemma operator_assign_Ret (o : vec) w w' :
  valid w = true -> valid (World o (mem w)) = true ->
  operator_assign alloc_fails o w = Ret tt w' ->
  valid w' = true /\
  view w' = view (World o (mem w)) /\
  size_ (self w') = size_ o.
Proof.
  intros Hv Hvo Hrun. unfold operator_assign in Hrun.
  apply bind_Ret in Hrun as ([[] copy] & w1 & Hcopy & Hrun).
  unfold on_object in Hcopy.
  destruct (vector_copy alloc_fails o _) as [[] wc| |] eqn:Hvc; [|done..].
  injection Hcopy as <- <-.
  apply (vector_copy_Ret o) in Hvc as (Hvalid & Hview & Hsize & Hfresh & Hpres); [|done].
  simpl in *.
  apply bind_Ret in Hrun as (old & w2 & Hswap & Hrun). injection Hswap as <- <-.
  apply bind_Ret in Hrun as (? & w3 & Hdtor & Hrun). injection Hrun as <-.
  unfold on_object in Hdtor. simpl in Hdtor.
  destruct (valid_ext w (World (self w) (mem wc)) Hv eq_refl) as [Hvold _].
  { intros b i blk _ Hb. eauto. }
  destruct (vector_dtor_valid _ Hvold) as (wd & Hd & _ & Hother).
  rewrite Hd in Hdtor. injection Hdtor as _ <-.
  destruct (valid_ext wc (World (self wc) (mem wd)) Hvalid eq_refl) as [Hv' Hview'].
  { intros b i blk Hdat Hb. simpl. rewrite Hother; [done|].
    intros j Hj. simpl in Hj.
    apply Hfresh in Hdat as ->.
    apply (data_below_fresh w) in Hj; [lia|done]. }
  split; [done|]. split; [congruence|done].
Qed.

End Copy.

(** ** What an operation may touch *)

Section Frame.
Context {T : Type} `{!Element T}.
Variable alloc_fails : N -> bool.
Implicit Types (w : world T) (v : T) (blk cur : list (slot T)).

Lemma only_block_refl bd w : only_block bd w w.
Proof. by repeat split. Qed.

Lemma only_block_trans bd w1 w2 w3 :
  only_block bd w1 w2 -> only_block bd w2 w3 -> only_block bd w1 w3.
Proof.
  intros (Hs1 & Hl1 & Ho1 & Hb1) (Hs2 & Hl2 & Ho2 & Hb2). repeat split; try congruence.
  - intros b Hb. rewrite Ho2, Ho1; done.
  - auto.
Qed.

Lemma store_only_block w bd i (s : slot T) h' :
  store (mem w) (At bd i) s = Some h' -> only_block bd w (World (self w) h').
Proof.
  unfold store. destruct (block_at (mem w) bd) as [blk|] eqn:Hb; [|done]. simpl.
  case_decide; [|done]. intros [= <-]. repeat split; simpl.
  - apply length_insert.
  - intros b Hne. by apply block_at_insert_ne.
  - intros _. rewrite block_at_insert_eq by eauto using block_at_lt. by eexists.
Qed.

Lemma construct_at_outcome bd i v w :
  match construct_at (At bd i) v w with
  | Ret _ w' => only_block bd w w'
  | Throw e w' => e = copy_failure /\ w' = w
  | Undef => True
  end.
Proof.
  unfold construct_at. destruct (store _ _ _) as [h'|] eqn:Hst; [|done].
  destruct (copy_throws v); [done|]. by eapply store_only_block.
Qed.

Lemma destroy_at_outcome bd i w :
  match destroy_at (At bd i) w with
  | Ret _ w' => only_block bd w w'
  | Throw _ _ => False
  | Undef => True
  end.
Proof.
  unfold destroy_at. destruct (load _ _ ≫= payload) as [v|]; [|done].
  destruct (store _ _ _) as [h'|] eqn:Hst; [|done]. by eapply store_only_block.
Qed.

Lemma destroy_all_outcome bd j n w :
  match destroy_all (At bd j) n w with
  | Ret _ w' => only_block bd w w'
  | Throw _ _ => False
  | Undef => True
  end.
Proof.
  unfold destroy_all. generalize 0 as i. revert w.
  induction (N.to_nat n) as [|k IH]; intros w i.
  - apply only_block_refl.
  - cbn [for_up]. unfold mbind at 1, M_bind at 1. cbn [ptr_add].
    pose proof (destroy_at_outcome bd (j + i) w) as H1.
    destruct (destroy_at _ w) as [[] w1| |]; [|done..].
    specialize (IH w1 (N.succ i)).
    destruct (for_up _ _ _ w1) as [[] w2| |]; [|done..].
    by eapply only_block_trans.
Qed.

Lemma destroy_all_Null n w :
  match destroy_all Null n w with
  | Ret _ w' => w' = w
  | Throw _ _ => False
  | Undef => True
  end.
Proof. unfold destroy_all. destruct (N.to_nat n); [done|]. done. Qed.

Lemma operator_delete_outcome p w :
  match operator_delete p w with
  | Ret _ w' => self w' = self w /\ length (mem w') = length (mem w)
  | Throw _ _ => False
  | Undef => True
  end.
Proof.
  unfold operator_delete. destruct p as [|b i]; [done|].
  destruct (block_at _ _); [|done]. case_decide; [|done]. simpl.
  by rewrite length_insert.
Qed.

(** [copy_and_construct] writes to the destination block only, and raises
    nothing but the error of an element copy. *)
Lemma copy_and_construct_outcome bd j src n w :
  match copy_and_construct (At bd j) src n w with
  | Ret _ w' => only_block bd w w'
  | Throw e w' => e = copy_failure /\ only_block bd w w'
  | Undef => True
  end.
Proof.
  unfold copy_and_construct. generalize 0 as i. revert w.
  induction (N.to_nat n) as [|k IH]; intros w i.
  - apply only_block_refl.
  - cbn [try_for_up]. unfold mbind at 1, M_bind at 1.
    unfold read at 1. destruct (load _ _ ≫= payload) as [v|]; [|done]. cbn [ptr_add].
    pose proof (construct_at_outcome bd (j + i) v w) as H1.
    destruct (construct_at _ v w) as [[] w1|e w1|].
    + specialize (IH w1 (N.succ i)).
      destruct (try_for_up _ _ _ _ w1) as [[] w2|e w2|]; [|destruct IH|done];
        eauto using only_block_trans.
    + destruct H1 as [-> ->]. unfold mbind, M_bind.
      pose proof (destroy_all_outcome bd j i w) as H2.
      destruct (destroy_all _ _ w) as [[] w2| |]; done.
    + done.
Qed.

End Frame.

(** ** Operations that raise *)

Section Failure.
Context {T : Type} `{!Element T}.
Variable alloc_fails : N -> bool.
Implicit Types (w : world T) (v : T) (blk cur : list (slot T)).

Lemma bind_Throw {A B} (m : M T A) (f : A -> M T B) w e w' :
  (m ≫= f) w = Throw e w' ->
  m w = Throw e w' \/ exists a w1, m w = Ret a w1 /\ f a w1 = Throw e w'.
Proof.
  unfold mbind, M_bind. destruct (m w) as [a w1|e1 w1|]; intros Hf.
  - right. eauto.
  - injection Hf as -> ->. by left.
  - done.
Qed.

Lemma try_catch_Throw {A} (m : M T A) h w e w' :
  try_catch m h w = Throw e w' -> exists e0 w1, m w = Throw e0 w1 /\ h e0 w1 = Throw e w'.
Proof. unfold try_catch. destruct (m w) as [a w1|e1 w1|]; [done| |done]. eauto. Qed.

Lemma destroy_all_self p n w :
  match destroy_all p n w with
  | Ret _ w' => self w' = self w
  | Throw _ _ => False
  | Undef => True
  end.
Proof.
  destruct p as [|b j].
  - pose proof (destroy_all_Null n w). destruct (destroy_all _ _ _); [by subst|done..].
  - pose proof (destroy_all_outcome b j n w) as H1.
    destruct (destroy_all _ _ _); [apply H1|done..].
Qed.

(** The destructor raises nothing. *)
Lemma vector_dtor_no_throw w e w' : vector_dtor w ≠ Throw e w'.
Proof.
  unfold vector_dtor. rewrite !bind_gets. intros Hrun.
  apply bind_Throw in Hrun as [Hrun|([] & w1 & Hdes & Hrun)].
  - pose proof (destroy_all_self (data_ (self w)) (size_ (self w)) w) as H1.
    by rewrite Hrun in H1.
  - pose proof (operator_delete_outcome (data_ (self w)) w1) as H1. by rewrite Hrun in H1.
Qed.

(** What a relocation that raises leaves behind: the error is that of an
    element copy, and the container is empty, on the new block, with the
    requested capacity. *)
Lemma copy_to_ptr_Throw cap bn w e w' :
  copy_to_ptr cap (At bn 0) w = Throw e w' ->
  e = copy_failure /\ self w' = Vec (At bn 0) 0 cap.
Proof.
  intros Hrun. unfold copy_to_ptr in Hrun.
  apply bind_Throw in Hrun as [Hrun|([] & w1 & _ & Hrun)].
  - apply try_catch_Throw in Hrun as (e0 & w1 & Hcopy & Hh).
    mstep_in Hcopy. mstep_in Hh.
    pose proof (copy_and_construct_outcome bn 0 (data_ (self w)) (size_ (self w)) w) as H1.
    rewrite Hcopy in H1. destruct H1 as [-> _].
    apply bind_Throw in Hh as [Hh|([] & w2 & Hdes & Hh)].
    { pose proof (destroy_all_self (data_ (self w1)) (size_ (self w1))
                    (World (Vec (At bn 0) (size_ (self w1)) cap) (mem w1))) as H1.
      by rewrite Hh in H1. }
    pose proof (destroy_all_self (data_ (self w1)) (size_ (self w1))
                  (World (Vec (At bn 0) (size_ (self w1)) cap) (mem w1))) as H1.
    rewrite Hdes in H1. simpl in H1.
    apply bind_Throw in Hh as [Hh|([] & w3 & Hdel & Hh)].
    { pose proof (operator_delete_outcome (data_ (self w1)) w2) as H2. by rewrite Hh in H2. }
    pose proof (operator_delete_outcome (data_ (self w1)) w2) as H2.
    rewrite Hdel in H2. destruct H2 as [H2 _].
    mstep_in Hh. injection Hh as <- <-. simpl. split; [done|].
    by rewrite H2, H1.
  - exfalso. mstep_in Hrun.
    apply bind_Throw in Hrun as [Hrun|([] & w2 & Hdes & Hrun)].
    + pose proof (destroy_all_self (data_ (self w1)) (size_ (self w1))
                    (World (Vec (At bn 0) (size_ (self w1)) cap) (mem w1))) as H1.
      by rewrite Hrun in H1.
    + pose proof (operator_delete_outcome (data_ (self w1)) w2) as H2. by rewrite Hrun in H2.
Qed.

Lemma operator_new_Throw bytes w e w' :
  operator_new alloc_fails bytes w = Throw e w' -> e = bad_alloc /\ w' = w.
Proof. unfold operator_new. destruct (alloc_fails bytes); [|done]. by intros [= <- <-]. Qed.

(** [reserve] that raises: the allocator refused and nothing has changed,
    or an element copy raised and the container is left empty on a new
    block of the requested capacity. *)
Lemma reserve_Throw w n e w' :
  capacity_ (self w) < n ->
  reserve alloc_fails n w = Throw e w' ->
  (e = bad_alloc /\ w' = w) \/
  (e = copy_failure /\ self w' = Vec (At (length (mem w)) 0) 0 n).
Proof.
  intros Hn Hrun. unfold reserve in Hrun. mstep_in Hrun.
  rewrite decide_True in Hrun by done. unfold resize in Hrun.
  rewrite decide_False in Hrun by lia.
  apply bind_Throw in Hrun as [Hrun|(p & w1 & Hnew & Hrun)].
  - left. by apply operator_new_Throw in Hrun.
  - right. apply operator_new_Ret in Hnew as [-> ->].
    by apply copy_to_ptr_Throw in Hrun.
Qed.

(** [shrink_to_fit] that raises, likewise. *)
Lemma shrink_to_fit_Throw w e w' :
  size_ (self w) ≠ 0 ->
  shrink_to_fit alloc_fails w = Throw e w' ->
  (e = bad_alloc /\ w' = w) \/
  (e = copy_failure /\ self w' = Vec (At (length (mem w)) 0) 0 (size_ (self w))).
Proof.
  intros Hn Hrun. unfold shrink_to_fit in Hrun. mstep_in Hrun.
  case_decide; [|done]. unfold resize in Hrun.
  rewrite decide_False in Hrun by done.
  apply bind_Throw in Hrun as [Hrun|(p & w1 & Hnew & Hrun)].
  - left. by apply operator_new_Throw in Hrun.
  - right. apply operator_new_Ret in Hnew as [-> ->].
    by apply copy_to_ptr_Throw in Hrun.
Qed.

(** Copy construction that raises: no object, every block that existed is
    as it was; when an element copy raised, the block obtained for the new
    object is still allocated. *)
Lemma vector_copy_Throw (o : vec) w e w' :
  vector_copy alloc_fails o w = Throw e w' ->
  self w' = vector_default /\
  (forall b blk, block_at (mem w) b = Some blk -> block_at (mem w') b = Some blk) /\
  ((e = bad_alloc /\ mem w' = mem w) \/
   (e = copy_failure /\ is_Some (block_at (mem w') (length (mem w))))).
Proof.
  intros Hrun. unfold vector_copy in Hrun.
  apply bind_Throw in Hrun as [Hrun|([] & w0 & Hinit & Hrun)]; [done|].
  injection Hinit as <-.
  apply try_catch_Throw in Hrun as (e0 & w1 & Hbody & Hh).
  assert (self w1 = vector_default /\
    (forall b blk, block_at (mem w) b = Some blk -> block_at (mem w1) b = Some blk) /\
    ((e0 = bad_alloc /\ mem w1 = mem w) \/
     (e0 = copy_failure /\ is_Some (block_at (mem w1) (length (mem w)))))) as (Hs & Hpres & He).
  { destruct (decide (size_ o ≠ 0)); [|done].
    apply bind_Throw in Hbody as [Hbody|(p & wa & Hnew & Hbody)].
    { apply operator_new_Throw in Hbody as [-> ->]. split; [done|]. split; [done|]. by left. }
    apply operator_new_Ret in Hnew as [-> ->]. simpl in Hbody.
    apply bind_Throw in Hbody as [Hbody|([] & w2 & _ & Hbody)]; [|by mstep_in Hbody].
    pose proof (copy_and_construct_outcome (length (mem w)) 0 (data_ o) (size_ o)
                  (World vector_default (mem w ++ [Some (replicate
                     (N.to_nat (wrap (size_ o * sizeof) / sizeof)) Raw)]))) as H1.
    rewrite Hbody in H1. destruct H1 as (-> & Hs & _ & Ho & Hb). simpl in *.
    split; [done|]. split.
    - intros b blk Hblk. pose proof (block_at_lt _ _ _ Hblk).
      rewrite Ho by lia. by apply block_at_app_l.
    - right. split; [done|]. apply Hb. rewrite block_at_app_new. by eexists. }
  apply bind_Throw in Hh as [Hh|([] & w2 & Hd & Hh)]; [by apply vector_dtor_no_throw in Hh|].
  injection Hh as <- <-.
  unfold vector_dtor in Hd. rewrite !bind_gets, Hs in Hd. simpl in Hd.
  injection Hd as <-. done.
Qed.

(** Assignment that raises leaves [*this] and every block that existed
    untouched. *)
Lemma operator_assign_Throw (o : vec) w e w' :
  operator_assign alloc_fails o w = Throw e w' ->
  self w' = self w /\
  (forall b blk, block_at (mem w) b = Some blk -> block_at (mem w') b = Some blk).
Proof.
  intros Hrun. unfold operator_assign in Hrun.
  apply bind_Throw in Hrun as [Hrun|([[] copy] & w1 & Hcopy & Hrun)].
  - unfold on_object in Hrun.
    destruct (vector_copy alloc_fails o _) as [[] wc|e1 wc|] eqn:Hvc; [done| |done].
    injection Hrun as <- <-. simpl.
    apply vector_copy_Throw in Hvc as (_ & Hpres & _). done.
  - exfalso. apply bind_Throw in Hrun as [Hrun|(old & w2 & Hswap & Hrun)]; [done|].
    injection Hswap as <- <-.
    apply bind_Throw in Hrun as [Hrun|(? & w3 & _ & Hrun)]; [|done].
    unfold on_object in Hrun.
    destruct (vector_dtor _) as [[] wd|e1 wd|] eqn:Hd; [done| |done].
    by apply vector_dtor_no_throw in Hd.
Qed.

End Failure.

(** ** Operations that cannot get stuck *)

Section Defined.
Context {T : Type} `{!Element T}.
Variable alloc_fails : N -> bool.
Implicit Types (w : world T) (v : T) (blk cur : list (slot T)).

(** The loop of [copy_and_construct] from slots that hold values into a
    block that has room for them returns or raises. *)
Lemma copy_loop_defined bd bs sblk k : forall i w dst,
  block_at (mem w) bd = Some dst -> block_at (mem w) bs = Some sblk -> bd ≠ bs ->
  (forall t, (t < N.to_nat i)%nat -> is_Some (dst !! t ≫= payload)) ->
  (forall t, (N.to_nat i <= t < N.to_nat i + k)%nat -> is_Some (sblk !! t ≫= payload)) ->
  (N.to_nat i + k <= length dst)%nat ->
  try_for_up i k
    (fun i => v ← read (ptr_add (At bs 0) i); construct_at (ptr_add (At bd 0) i) v)
    (fun i e => destroy_all (At bd 0) i;; throw e) w ≠ Undef.
Proof.
  induction k as [|k IH]; intros i w dst Hd Hs Hne Hdst Hsrc Hlen; [done|].
  cbn [try_for_up]. rewrite !ptr_add_base.
  unfold mbind at 1, M_bind at 1. rewrite (read_At _ _ _ _ Hs).
  destruct (Hsrc (N.to_nat i)) as [x Hx]; [lia|]. rewrite Hx.
  rewrite (construct_at_At _ _ _ _ _ Hd) by lia.
  destruct (copy_throws x).
  - destruct (destroy_all_loop bd (N.to_nat i) 0 w dst Hd) as (dst' & Hdes & _).
    { intros t Ht. apply Hdst. lia. }
    unfold mbind, M_bind, destroy_all. by rewrite Hdes.
  - apply (IH _ _ (<[N.to_nat i := Live x]> dst)).
    + by eapply block_at_upd_eq.
    + by rewrite block_at_upd_ne.
    + done.
    + intros t Ht. destruct (decide (t = N.to_nat i)) as [->|].
      * rewrite list_lookup_insert_eq by lia. by eexists.
      * rewrite list_lookup_insert_ne by done. apply Hdst. lia.
    + intros t Ht. apply Hsrc. lia.
    + rewrite length_insert. lia.
Qed.

Lemma live_prefix_payload blk n (xs : list T) t :
  take n blk = Live <$> xs -> (t < n)%nat -> (n <= length blk)%nat ->
  is_Some (blk !! t ≫= payload).
Proof.
  intros Hxs Ht Hn.
  assert (length xs = n) as Hl.
  { apply (f_equal length) in Hxs. rewrite length_take, length_fmap in Hxs. lia. }
  rewrite (take_live_lookup _ _ _ _ Hxs) by lia.
  destruct (xs !! t) eqn:Hx; [by eexists|]. apply lookup_ge_None in Hx. lia.
Qed.

(** Copy construction from a valid container returns or raises. *)
Lemma vector_copy_defined (o : vec) w :
  valid (World o (mem w)) = true -> vector_copy alloc_fails o w ≠ Undef.
Proof.
  intros Hv. unfold vector_copy.
  unfold mbind at 1, M_bind at 1. unfold try_catch.
  set (w0 := World vector_default (mem w)).
  destruct (decide (size_ o ≠ 0)) as [Hn|Hn]; [|done].
  apply valid_inv in Hv as Hv'. simpl in Hv'.
  destruct Hv' as [(Hd & Hn' & Hc)|(bo & blk & xs & Hd & Hblk & Hc0 & HcM & HcS & Hlen & Hnc & Hxs)];
    [done|].
  unfold mbind at 1, M_bind at 1, operator_new.
  destruct (alloc_fails _).
  { by vm_compute. }
  simpl. set (nb := replicate _ _ : list (slot T)).
  set (wa := World _ _).
  assert (length nb = N.to_nat (size_ o)) as Hlnb.
  { unfold nb. rewrite length_replicate. f_equal.
    rewrite wrap_small by (pose proof sizeof_pos; nia).
    apply N.div_mul. pose proof sizeof_pos. lia. }
  pose proof (block_at_lt _ _ _ Hblk) as Hbo.
  pose proof (copy_loop_defined (length (mem w)) bo blk (N.to_nat (size_ o)) 0 wa nb) as Hdef.
  pose proof (copy_and_construct_outcome (length (mem w)) 0 (data_ o) (size_ o) wa) as Hout.
  rewrite Hd in *. unfold copy_and_construct in *.
  unfold mbind at 1, M_bind at 1.
  destruct (try_for_up _ _ _ _ wa) as [[] w1|e w1|].
  - done.
  - destruct Hout as (-> & Hs & _). destruct w1 as [s1 h1]. simpl in Hs. subst s1.
    by vm_compute.
  - exfalso. apply Hdef; try done.
    + apply block_at_app_new.
    + by apply block_at_app_l.
    + lia.
    + simpl. lia.
    + intros t Ht. eapply live_prefix_payload; [done|lia..].
    + simpl. lia.
Qed.

(** Assignment from a valid container to a valid container returns or
    raises. *)
Lemma operator_assign_defined (o : vec) w :
  valid w = true -> valid (World o (mem w)) = true ->
  operator_assign alloc_fails o w ≠ Undef.
Proof.
  intros Hv Hvo. unfold operator_assign.
  unfold mbind at 1, M_bind at 1. unfold on_object at 1.
  pose proof (vector_copy_defined o (World vector_default (mem w)) Hvo) as Hdef.
  destruct (vector_copy alloc_fails o _) as [[] wc|e wc|] eqn:Hvc; [|done..].
  apply (vector_copy_Ret _ o) in Hvc as (_ & _ & _ & _ & Hpres); [|done].
  simpl in Hpres.
  unfold mbind at 1, M_bind at 1, swap. simpl.
  unfold mbind at 1, M_bind at 1, on_object. simpl.
  destruct (valid_ext w (World (self w) (mem wc)) Hv eq_refl) as [Hvold _].
  { intros b i blk _ Hb. eauto. }
  destruct (vector_dtor_valid _ Hvold) as (wd & Hd & _). by rewrite Hd.
Qed.

End Defined.

(** ** Reading back, sequences of [push_back] *)

Section Facts.
Context {T : Type} `{!Element T}.
Variable alloc_fails : N -> bool.
Implicit Types (w : world T) (v : T).

Lemma ptr_add_add p a b : ptr_add (ptr_add p a) b = ptr_add p (a + b).
Proof. destruct p; [done|]. simpl. by rewrite N.add_assoc. Qed.

(** [contents] is what reading through [operator[]] gives. *)
Lemma index_reads_contents w i :
  (operator_index i ≫= read) w =
    match contents w !! N.to_nat i with
    | Some (Some x) => Ret x w
    | _ => Undef
    end.
Proof.
  unfold operator_index, contents, view.
  rewrite bind_assoc, bind_gets, bind_assoc, bind_assert.
  case_bool_decide as Hi.
  - rewrite bind_assoc, bind_gets, bind_mret. unfold read, load.
    destruct (data_ (self w)) as [|b j]; [done|]. simpl.
    rewrite list_lookup_fmap, lookup_take_lt, lookup_drop by lia.
    replace (N.to_nat (j + i)) with (N.to_nat j + N.to_nat i)%nat by lia.
    destruct (block_at (mem w) b) as [blk|]; simpl; [|done].
    by destruct (blk !! _) as [[]|].
  - rewrite lookup_ge_None_2; [done|].
    rewrite length_fmap. destruct (data_ (self w)); simpl; [lia|].
    rewrite length_take. lia.
Qed.


Lemma push_all_Ret xs : forall w w' ys,
  valid w = true -> view w = Live <$> ys ->
  push_all alloc_fails xs w = Ret tt w' ->
  valid w' = true /\ view w' = Live <$> (ys ++ xs) /\
  size_ (self w') = size_ (self w) + N.of_nat (length xs).
Proof.
  induction xs as [|x xs IH]; intros w w' ys Hv Hview Hrun.
  - injection Hrun as <-. rewrite app_nil_r. simpl. repeat split; [done..|lia].
  - cbn [push_all] in Hrun. apply bind_Ret in Hrun as ([] & w1 & Hpush & Hrun).
    unfold push_back in Hpush. apply bind_Ret in Hpush as (r & w1' & Hins & Hret).
    injection Hret as <-.
    destruct (valid_view _ Hv) as (ys' & Hview' & Hlen).
    rewrite Hview in Hview'. apply (f_equal length) in Hview'. rewrite !length_fmap in Hview'.
    apply (insert_Ret _ _ _ _ _ _ ys) in Hins as (Hv1 & Hsz1 & Hview1 & _);
      [|done|done|unfold end_, begin_; lia].
    rewrite take_ge, drop_ge in Hview1 by lia.
    apply (IH _ _ _ Hv1 Hview1) in Hrun as (Hv' & Hview'' & Hsz').
    split; [done|]. split; [by rewrite <-app_assoc in Hview''|].
    rewrite Hsz', Hsz1. simpl. lia.
Qed.

End Facts.

(** ** The claims *)

Section Claims.
Context {T : Type} `{!Element T}.
Variable alloc_fails : N -> bool.
Implicit Types (w : world T) (v : T).

(** C6.  Starting from a valid empty container, a completed sequence of
    [push_back] calls leaves [size()] equal to the number of calls and the
    pushed values, as live elements, at the indices [0 .. n-1] in the order
    of the calls; and [push_back(v)] is [insert(end(), v)] with the
    returned iterator dropped. *)
Theorem push_back_sequence xs w w' :
  valid w = true -> size w = 0 ->
  push_all alloc_fails xs w = Ret tt w' ->
  size w' = N.of_nat (length xs) /\
  view w' = Live <$> xs /\
  contents w' = Some <$> xs /\
  forall v w0,
    push_back alloc_fails v w0 =
      match insert alloc_fails (end_ w0) v w0 with
      | Ret _ w1 => Ret tt w1
      | Throw e w1 => Throw e w1
      | Undef => Undef
      end.
Proof.
  intros Hv Hsz Hrun. unfold size in *.
  destruct (valid_view _ Hv) as (ys & Hview & Hlen).
  assert (ys = []) as -> by (destruct ys; [done|simpl in Hlen; lia]).
  apply (push_all_Ret _ _ _ _ [] Hv Hview) in Hrun as (_ & Hview' & Hsz').
  simpl in Hview'. split; [lia|]. split; [done|]. split.
  - unfold contents. rewrite Hview', <-list_fmap_compose. done.
  - intros v w0. unfold push_back, mbind, M_bind. by destruct (insert _ _ _ _).
Qed.

(** C7.  On a valid container, [reserve(n)] with [n <= capacity()] returns
    with nothing changed; with [n > capacity()], when it completes,
    [capacity() >= n], [size()] is unchanged and the elements are the same
    live values in the same order. *)
Theorem reserve_spec w n :
  valid w = true ->
  (n <= capacity w -> reserve alloc_fails n w = Ret tt w) /\
  (capacity w < n -> forall w',
     reserve alloc_fails n w = Ret tt w' ->
     n <= capacity w' /\ size w' = size w /\ view w' = view w /\
     contents w' = contents w).
Proof.
  intros Hv. split.
  - apply reserve_small.
  - intros Hn w' Hrun. unfold capacity, size, contents in *.
    apply reserve_Ret in Hrun as (Hc & Hs & Hview); [|done..].
    rewrite Hc, Hs, Hview. repeat split. lia.
Qed.

(** C8.  Self-assignment [v = v] of a valid container either returns,
    leaving a valid container of the same size whose elements are the same
    live values in the same order, or re-raises the error of the allocator
    or of an element copy with [*this] and its elements untouched. *)
Theorem self_assignment w :
  valid w = true ->
  match operator_assign alloc_fails (self w) w with
  | Ret _ w' =>
      valid w' = true /\ size w' = size w /\ view w' = view w /\
      contents w' = contents w
  | Throw _ w' =>
      valid w' = true /\ self w' = self w /\ view w' = view w /\
      contents w' = contents w
  | Undef => False
  end.
Proof.
  intros Hv.
  assert (World (self w) (mem w) = w) as Hw by (by destruct w).
  destruct (operator_assign alloc_fails (self w) w) as [[] w'|e w'|] eqn:Hrun.
  - apply operator_assign_Ret in Hrun as (Hv' & Hview & Hs); [|done|by rewrite Hw].
    rewrite Hw in Hview. unfold size, contents. by rewrite Hview.
  - apply operator_assign_Throw in Hrun as (Hs & Hpres).
    destruct (valid_ext w w' Hv Hs) as [Hv' Hview]; [by eauto|].
    unfold contents. by rewrite Hview.
  - apply operator_assign_defined in Hrun; [done..|by rewrite Hw].
Qed.


End Claims.

(** ** The claims on the test containers *)

#[local] Existing Instance plain.

(** 10, 20, 30 pushed on the empty vector. *)
Lemma push_back_sequence_witness :
  valid (fresh_world (T := N)) = true /\ size (fresh_world (T := N)) = 0 /\
  push_all roomy [10; 20; 30] fresh_world =
    Ret tt (World (Vec (At 2 0) 3 4) [None; None; Some [Live 10; Live 20; Live 30; Raw]]) /\
  size (World (Vec (At 2 0) 3 4) [None; None; Some [Live 10; Live 20; Live 30; Raw]])
    = N.of_nat (length [10; 20; 30]) /\
  view (World (Vec (At 2 0) 3 4) [None; None; Some [Live 10; Live 20; Live 30; Raw]])
    = Live <$> [10; 20; 30].
Proof.
  assert (H1 : valid (fresh_world (T := N)) = true) by reflexivity.
  assert (H2 : size (fresh_world (T := N)) = 0) by reflexivity.
  assert (H3 : push_all roomy [10; 20; 30] fresh_world =
    Ret tt (World (Vec (At 2 0) 3 4) [None; None; Some [Live 10; Live 20; Live 30; Raw]]))
    by (vm_compute; reflexivity).
  pose proof (push_back_sequence roomy [10; 20; 30] _ _ H1 H2 H3) as (H4 & H5 & _).
  repeat split; assumption.
Defined.

(** [reserve(2)] and [reserve(10)] on [10, 20, 30, 40]. *)
Lemma reserve_spec_witness :
  valid four = true /\
  reserve roomy 2 four = Ret tt four /\
  capacity four < 10 /\
  reserve roomy 10 four =
    Ret tt (World (Vec (At 1 0) 4 10)
              [None; Some [Live 10; Live 20; Live 30; Live 40; Raw; Raw; Raw; Raw; Raw; Raw]]) /\
  size (World (Vec (At 1 0) 4 10)
          [None; Some [Live 10; Live 20; Live 30; Live 40; Raw; Raw; Raw; Raw; Raw; Raw]])
    = size four /\
  view (World (Vec (At 1 0) 4 10)
          [None; Some [Live 10; Live 20; Live 30; Live 40; Raw; Raw; Raw; Raw; Raw; Raw]])
    = view four.
Proof.
  assert (H1 : valid four = true) by reflexivity.
  assert (H2 : 2 <= capacity four) by (vm_compute; discriminate).
  assert (H3 : capacity four < 10) by reflexivity.
  assert (H4 : reserve roomy 10 four =
    Ret tt (World (Vec (At 1 0) 4 10)
              [None; Some [Live 10; Live 20; Live 30; Live 40; Raw; Raw; Raw; Raw; Raw; Raw]]))
    by (vm_compute; reflexivity).
  pose proof (proj1 (reserve_spec roomy four 2 H1) H2) as H5.
  pose proof (proj2 (reserve_spec roomy four 10 H1) H3 _ H4) as (_ & H6 & H7 & _).
  repeat split; assumption.
Defined.

(** [v = v] for [10, 20, 30] with capacity 4. *)
Lemma self_assignment_witness :
  valid three_of_four = true /\
  operator_assign roomy (self three_of_four) three_of_four =
    Ret tt (World (Vec (At 1 0) 3 3) [None; Some [Live 10; Live 20; Live 30]]) /\
  valid (World (Vec (At 1 0) 3 3) [None; Some [Live 10; Live 20; Live 30]]) = true /\
  size (World (Vec (At 1 0) 3 3) [None; Some [Live 10; Live 20; Live 30]])
    = size three_of_four /\
  view (World (Vec (At 1 0) 3 3) [None; Some [Live 10; Live 20; Live 30]])
    = view three_of_four.
Proof.
  assert (H1 : valid three_of_four = true) by reflexivity.
  assert (H2 : operator_assign roomy (self three_of_four) three_of_four =
    Ret tt (World (Vec (At 1 0) 3 3) [None; Some [Live 10; Live 20; Live 30]]))
    by (vm_compute; reflexivity).
  pose proof (self_assignment roomy three_of_four H1) as Hc.
  rewrite H2 in Hc. destruct Hc as (H3 & H4 & H5 & _).
  repeat split; assumption.
Defined.


(** C1.  A copy that raises during relocation does not leave the container
    as it was.  On the full vector [10, 13] whose element 13 cannot be
    copied, [reserve(4)], and likewise [shrink_to_fit()] on the same vector
    with spare capacity and [push_back(20)], re-raise the error with the
    container empty: [data_] is the new block, which is not freed and in
    which the copy of 10 has been destructed, [capacity_] is the requested
    capacity, and the original block, elements destructed, is freed. *)
Theorem relocation_failure_empties_container :
  @valid N fragile two = true /\ @valid N fragile two_of_four = true /\
  @reserve N fragile roomy 4 two =
    Throw copy_failure (World (Vec (At 1 0) 0 4) [None; Some [Dead 10; Raw; Raw; Raw]]) /\
  @shrink_to_fit N fragile roomy two_of_four =
    Throw copy_failure (World (Vec (At 1 0) 0 2) [None; Some [Dead 10; Raw]]) /\
  @push_back N fragile roomy 20 two =
    Throw copy_failure (World (Vec (At 1 0) 0 4) [None; Some [Dead 10; Raw; Dead 20; Raw]]).
Proof. repeat split; vm_compute; reflexivity. Qed.

(** C2.  Copy construction from the vector [10, 13] whose element 13 cannot
    be copied raises the error with the source untouched and the copy of 10
    destructed, but the storage allocated for the new container (block 1)
    is still allocated afterwards, owned by no container. *)
Theorem copy_construction_failure_leaks_storage :
  @valid N fragile two = true /\
  @vector_copy N fragile roomy (self two) (World vector_default (mem two)) =
    Throw copy_failure
      (World vector_default [Some [Live 10; Live 13]; Some [Dead 10; Raw]]) /\
  block_at [Some [Live 10; Live 13]; Some [Dead 10; Raw]] 1 = Some [Dead 10; Raw].
Proof. repeat split; vm_compute; reflexivity. Qed.

(** C3.  [erase] does not keep the invariant.  On the valid vector
    [10, 20, 30, 40], [erase(begin(), begin() + 1)] returns with
    [size() = 3] and the slots 1 and 2, inside [0, size()), destructed:
    each was destructed and then assigned into.  [erase(begin() + 1,
    begin() + 3)] returns with [size() = 2] and a live object left in slot
    2, outside [0, size()), which no later operation destructs. *)
Theorem erase_breaks_slot_invariant :
  valid four = true /\
  erase (ptr_add (begin_ four) 0) (ptr_add (begin_ four) 1) four =
    Ret (At 0 0) (World (Vec (At 0 0) 3 4) [Some [Live 20; Dead 30; Dead 40; Dead 40]]) /\
  view (World (Vec (At 0 0) 3 4) [Some [Live 20; Dead 30; Dead 40; Dead 40]])
    = [Live 20; Dead 30; Dead 40] /\
  valid (World (Vec (At 0 0) 3 4) [Some [Live 20; Dead 30; Dead 40; Dead 40]]) = false /\
  erase (ptr_add (begin_ four) 1) (ptr_add (begin_ four) 3) four =
    Ret (At 0 1) (World (Vec (At 0 0) 2 4) [Some [Live 10; Live 40; Live 30; Dead 40]]) /\
  load [Some [Live 10; Live 40; Live 30; Dead 40]] (At 0 2) = Some (Live 30).
Proof. repeat split; vm_compute; reflexivity. Qed.

(** C4.  [erase] does not keep the elements outside the removed range.
    On the valid vector [10, 20, 30, 40], [erase(begin() + 1, begin() + 2)]
    returns with [size()] reduced by one, but of the elements 30 and 40
    that follow the range only 30 is still there: the loop destroys
    [data_[2]] once it has moved 30 out of it and then assigns 40 to that
    destroyed slot.  Index 2 holds no object, and reading it has no
    result; the elements are not [10, 30, 40]. *)
Theorem erase_range_destroys_kept_element :
  valid four = true /\ 1 <= 2 /\ 2 <= size four /\
  view four = Live <$> [10; 20; 30; 40] /\
  erase (ptr_add (begin_ four) 1) (ptr_add (begin_ four) 2) four =
    Ret (At 0 1) (World (Vec (At 0 0) 3 4) [Some [Live 10; Live 30; Dead 40; Dead 40]]) /\
  size (World (Vec (At 0 0) 3 4) [Some [Live 10; Live 30; Dead 40; Dead 40]])
    = size four - (2 - 1) /\
  view (World (Vec (At 0 0) 3 4) [Some [Live 10; Live 30; Dead 40; Dead 40]])
    = [Live 10; Live 30; Dead 40] /\
  view (World (Vec (At 0 0) 3 4) [Some [Live 10; Live 30; Dead 40; Dead 40]])
    ≠ Live <$> (take 1 [10; 20; 30; 40] ++ drop 2 [10; 20; 30; 40]) /\
  contents (World (Vec (At 0 0) 3 4) [Some [Live 10; Live 30; Dead 40; Dead 40]])
    = [Some 10; Some 30; None] /\
  (operator_index 2 ≫= read)
    (World (Vec (At 0 0) 3 4) [Some [Live 10; Live 30; Dead 40; Dead 40]]) = Undef.
Proof. repeat split; try (vm_compute; reflexivity); vm_compute; discriminate. Qed.

(** C5.  [insert(pos, v)] followed by [erase(pos)] does not give back the
    original elements.  On the valid vector [10, 20, 30] with capacity 4,
    [insert(begin() + 1, 99)] gives [10, 99, 20, 30]; [erase(begin() + 1)]
    then returns with [size()] 3, but the loop has destroyed [data_[2]]
    before it assigns 30 to it: index 2 holds no object where the
    original had the element 30. *)
Theorem insert_erase_leaves_destroyed_element :
  valid three_of_four = true /\ 1 <= size three_of_four /\
  view three_of_four = [Live 10; Live 20; Live 30] /\
  insert roomy (ptr_add (begin_ three_of_four) 1) 99 three_of_four =
    Ret (At 0 1) (World (Vec (At 0 0) 4 4) [Some [Live 10; Live 99; Live 20; Live 30]]) /\
  erase_pos
    (ptr_add (begin_ (World (Vec (At 0 0) 4 4) [Some [Live 10; Live 99; Live 20; Live 30]])) 1)
    (World (Vec (At 0 0) 4 4) [Some [Live 10; Live 99; Live 20; Live 30]]) =
    Ret (At 0 1) (World (Vec (At 0 0) 3 4) [Some [Live 10; Live 20; Dead 30; Dead 30]]) /\
  view (World (Vec (At 0 0) 3 4) [Some [Live 10; Live 20; Dead 30; Dead 30]])
    = [Live 10; Live 20; Dead 30] /\
  valid (World (Vec (At 0 0) 3 4) [Some [Live 10; Live 20; Dead 30; Dead 30]]) = false /\
  contents (World (Vec (At 0 0) 3 4) [Some [Live 10; Live 20; Dead 30; Dead 30]])
    = [Some 10; Some 20; None] /\
  (operator_index 2 ≫= read)
    (World (Vec (At 0 0) 3 4) [Some [Live 10; Live 20; Dead 30; Dead 30]]) = Undef.
Proof. repeat split; try (vm_compute; reflexivity); vm_compute; discriminate. Qed.

(** C9.  [erase(p, p)] with [p < size()] does not leave the container
    unchanged.  On the valid vector [10, 20, 30, 40],
    [erase(begin() + 1, begin() + 1)] returns with [size() = 4] and the
    values in place, but the elements at the indices 1, 2 and 3 have been
    destructed. *)
Theorem erase_empty_range_destroys_tail :
  valid four = true /\ 1 <= size four /\
  erase (ptr_add (begin_ four) 1) (ptr_add (begin_ four) 1) four =
    Ret (At 0 1) (World (Vec (At 0 0) 4 4) [Some [Live 10; Dead 20; Dead 30; Dead 40]]) /\
  view (World (Vec (At 0 0) 4 4) [Some [Live 10; Dead 20; Dead 30; Dead 40]])
    = [Live 10; Dead 20; Dead 30; Dead 40] /\
  view four = [Live 10; Live 20; Live 30; Live 40].
Proof. repeat split; try (vm_compute; reflexivity). vm_compute; discriminate. Qed.

(** * Further properties of the member functions *)

(** Step through the field reads and writes at the head of the run in the
    goal. *)
Ltac mstep :=
  repeat (first [ rewrite bind_gets | rewrite bind_mret
                | rewrite bind_set_data | rewrite bind_set_size
                | rewrite bind_set_capacity | rewrite bind_assert
                | rewrite bind_assoc ];
          cbn beta iota delta [self mem data_ size_ capacity_]).

(** ** Removal at the end, [clear], [shrink_to_fit] *)

Section Shrinking.
Context {T : Type} `{!Element T}.
Variable alloc_fails : N -> bool.
Implicit Types (w : world T) (v : T) (blk cur : list (slot T)).

Lemma live_prefix_length blk n (xs : list T) :
  take n blk = Live <$> xs -> (n <= length blk)%nat -> length xs = n.
Proof.
  intros Hxs Hn. apply (f_equal length) in Hxs.
  rewrite length_take, length_fmap in Hxs. lia.
Qed.

Lemma live_fmap_inj (xs ys : list T) : Live <$> xs = Live <$> ys -> xs = ys.
Proof.
  intros Heq. apply (f_equal (fmap payload)) in Heq.
  rewrite <-!list_fmap_compose in Heq. by apply (inj (fmap Some)).
Qed.

(** [pop_back] on a valid container: the assertion fails on the empty
    one; otherwise the call returns with the last element destructed in
    place and [size_] one less. *)
Lemma pop_back_valid w :
  valid w = true ->
  (size_ (self w) = 0 /\ pop_back w = Undef) \/
  (exists bk blk xs x,
     data_ (self w) = At bk 0 /\ block_at (mem w) bk = Some blk /\
     view w = Live <$> (xs ++ [x]) /\
     size_ (self w) = N.of_nat (length xs) + 1 /\
     pop_back w =
       Ret tt (World (Vec (At bk 0) (N.of_nat (length xs)) (capacity_ (self w)))
                     (<[bk := Some (<[length xs := Dead x]> blk)]> (mem w))) /\
     valid (World (Vec (At bk 0) (N.of_nat (length xs)) (capacity_ (self w)))
                  (<[bk := Some (<[length xs := Dead x]> blk)]> (mem w))) = true /\
     view (World (Vec (At bk 0) (N.of_nat (length xs)) (capacity_ (self w)))
                 (<[bk := Some (<[length xs := Dead x]> blk)]> (mem w))) = Live <$> xs).
Proof.
  intros Hv. apply valid_inv in Hv as Hv'.
  destruct Hv' as [(Hd & Hn & Hc)|(bk & blk & ys & Hd & Hblk & Hc0 & HcM & HcS & Hlen & Hnc & Hys)].
  - left. split; [done|]. unfold pop_back. rewrite bind_gets, Hn. done.
  - destruct (decide (size_ (self w) = 0)) as [Hn|Hn].
    { left. split; [done|]. unfold pop_back. rewrite bind_gets, Hn. done. }
    right. pose proof (live_prefix_length _ _ _ Hys ltac:(lia)) as Hl.
    destruct (exists_last (l := ys)) as (xs & x & ->).
    { intros ->. simpl in Hl. lia. }
    rewrite length_app in Hl. simpl in Hl.
    exists bk, blk, xs, x. split; [done|]. split; [done|].
    split. { by rewrite (view_At _ _ _ Hd Hblk). }
    split; [lia|].
    assert (blk !! length xs = Some (Live x)) as Hx.
    { rewrite (take_live_lookup _ _ _ _ Hys) by (rewrite length_app; simpl; lia).
      by rewrite lookup_app_r, Nat.sub_diag by lia. }
    assert (take (length xs) (<[length xs := Dead x]> blk) = Live <$> xs) as Htk.
    { rewrite take_insert_ge by lia.
      replace (take (length xs) blk)
        with (take (length xs) (take (N.to_nat (size_ (self w))) blk))
        by (rewrite take_take; f_equal; lia).
      rewrite Hys, fmap_app, take_app_length'; [done|by rewrite length_fmap]. }
    assert (block_at (<[bk := Some (<[length xs := Dead x]> blk)]> (mem w)) bk
            = Some (<[length xs := Dead x]> blk)) as Hblk'.
    { apply block_at_insert_eq. eauto using block_at_lt. }
    split; [|split].
    2:{ eapply (valid_intro _ bk); simpl; try done.
        - rewrite length_insert. done.
        - lia.
        - by rewrite Nat2N.id. }
    2:{ erewrite view_At; simpl; [|done..]. by rewrite Nat2N.id. }
    unfold pop_back, back. mstep. rewrite bool_decide_true by lia. mstep.
    rewrite Hd, sz_sub_small by lia. rewrite ptr_add_base.
    unfold mbind at 1, M_bind at 1.
    erewrite (destroy_at_At w bk (size_ (self w) - 1) blk (Live x) x); [|done| |done].
    2:{ by replace (N.to_nat (size_ (self w) - 1)) with (length xs) by lia. }
    replace (N.to_nat (size_ (self w) - 1)) with (length xs) by lia.
    unfold upd. mstep. unfold set_size. simpl. rewrite Hd, sz_sub_small by lia.
    do 3 f_equal. lia.
Qed.

(** X1.  [pop_back()] on a valid container: the assertion fails on the
    empty one and the call raises nothing; otherwise it returns with the
    invariant kept, [size()] one less, storage and capacity as they were,
    the elements before the last unchanged and the last element
    destructed in its slot, now [end()]. *)
Theorem pop_back_spec w :
  valid w = true ->
  match pop_back w with
  | Ret _ w' =>
      0 < size w /\ valid w' = true /\ size w' = size w - 1 /\
      capacity w' = capacity w /\ begin_ w' = begin_ w /\
      view w' = take (N.to_nat (size w - 1)) (view w) /\
      exists x, view w !! N.to_nat (size w - 1) = Some (Live x) /\
                load (mem w') (end_ w') = Some (Dead x)
  | Throw _ _ => False
  | Undef => size w = 0
  end.
Proof.
  intros Hv.
  destruct (pop_back_valid w Hv)
    as [(Hn & ->)|(bk & blk & xs & x & Hd & Hblk & Hview & Hn & -> & Hv' & Hview')];
    [done|].
  unfold size, capacity, begin_, end_. simpl. rewrite Hn, Hview, Hview'.
  replace (N.to_nat (N.of_nat (length xs) + 1 - 1)) with (length xs) by lia.
  repeat split; try done; try lia.
  - rewrite fmap_app, take_app_length'; [done|by rewrite length_fmap].
  - exists x. split.
    + rewrite list_lookup_fmap, lookup_app_r, Nat.sub_diag by lia. done.
    + rewrite N.add_0_l. rewrite block_at_insert_eq by eauto using block_at_lt.
      simpl. rewrite Nat2N.id. apply list_lookup_insert_eq.
      assert (length (view w) <= length blk)%nat.
      { rewrite (view_At _ _ _ Hd Hblk), length_take. lia. }
      rewrite Hview, length_fmap, length_app in H. simpl in H. lia.
Qed.

(** X2.  On a valid container, a completed [push_back(v)] followed by
    [pop_back()]: the second call returns, and the container is valid
    again with the size and the elements it had before the two calls. *)
Theorem push_back_pop_back w v w1 :
  valid w = true ->
  push_back alloc_fails v w = Ret tt w1 ->
  exists w2, pop_back w1 = Ret tt w2 /\
    valid w2 = true /\ size w2 = size w /\ view w2 = view w.
Proof.
  intros Hv Hpush. unfold push_back in Hpush.
  apply bind_Ret in Hpush as (r & w1' & Hins & Hret). injection Hret as ->.
  destruct (valid_view _ Hv) as (ys & Hview & Hlen).
  destruct (insert_Ret alloc_fails w (size_ (self w)) v r w1 ys Hv Hview
              ltac:(lia) Hins) as (Hv1 & Hsz1 & Hview1 & _).
  rewrite take_ge, drop_ge in Hview1 by lia.
  destruct (pop_back_valid w1 Hv1)
    as [(Hn & _)|(bk & blk & xs & x & Hd & Hblk & Hview2 & Hn & -> & Hv' & Hview')];
    [lia|].
  eexists. split; [done|]. split; [done|].
  rewrite Hview2 in Hview1. apply live_fmap_inj in Hview1.
  apply app_inj_tail in Hview1 as [-> ->].
  unfold size. simpl. rewrite Hview', Hview. split; [lia|done].
Qed.

(** X3.  [clear()] on a valid container returns: every element has been
    destructed in its slot, [size()] is 0, and the storage and the capacity
    are kept. *)
Theorem clear_spec w xs :
  valid w = true -> view w = Live <$> xs ->
  exists w', clear w = Ret tt w' /\
    valid w' = true /\ size w' = 0 /\ capacity w' = capacity w /\
    begin_ w' = begin_ w /\
    view (World (self w) (mem w')) = Dead <$> xs.
Proof.
  intros Hv Hview. apply valid_inv in Hv as Hv'.
  destruct Hv' as [(Hd & Hn & Hc)|(bk & blk & ys & Hd & Hblk & Hc0 & HcM & HcS & Hlen & Hnc & Hys)].
  - rewrite (view_Null _ Hd) in Hview. destruct xs; [|done].
    destruct w as [[d n c] h]. simpl in *. subst.
    exists (World (Vec Null 0 0) h). done.
  - rewrite (view_At _ _ _ Hd Hblk), Hys in Hview.
    apply live_fmap_inj in Hview as ->.
    pose proof (live_prefix_length _ _ _ Hys ltac:(lia)) as Hl.
    destruct (destroy_all_loop bk (N.to_nat (size_ (self w))) 0 w blk Hblk)
      as (blk' & Hdes & Hlen' & Hpt).
    { intros t Ht. eapply live_prefix_payload; [done|lia..]. }
    exists (World (Vec (At bk 0) 0 (capacity_ (self w))) (<[bk := Some blk']> (mem w))).
    assert (block_at (<[bk := Some blk']> (mem w)) bk = Some blk') as Hblk'
      by (apply block_at_insert_eq; eauto using block_at_lt).
    split.
    { unfold clear. mstep. rewrite Hd. unfold destroy_all, mbind at 1, M_bind at 1.
      rewrite Hdes. unfold upd. mstep. unfold set_size. simpl. by rewrite Hd. }
    split. { eapply (valid_intro _ bk blk' []); simpl; try done; lia. }
    unfold size, capacity, begin_. simpl. repeat split; [done|].
    erewrite view_At; [|done..]. simpl. apply list_eq. intros t.
    rewrite lookup_take, list_lookup_fmap. case_decide.
    + rewrite Hpt, decide_True by lia.
      rewrite (take_live_lookup _ _ _ _ Hys) by lia. by destruct (xs !! t).
    + symmetry. apply fmap_None, lookup_ge_None. lia.
Qed.

(** X4.  [shrink_to_fit()] on a valid container: with
    [capacity() = size()] it returns with nothing changed; whenever it
    returns, the invariant holds, [capacity() = size()], and the size and
    the elements are those before the call. *)
Theorem shrink_to_fit_spec w :
  valid w = true ->
  (capacity w = size w -> shrink_to_fit alloc_fails w = Ret tt w) /\
  (forall w', shrink_to_fit alloc_fails w = Ret tt w' ->
     valid w' = true /\ capacity w' = size w' /\ size w' = size w /\
     view w' = view w).
Proof.
  intros Hv. unfold capacity, size. split.
  { intros Hc. unfold shrink_to_fit. mstep. by rewrite decide_False by (intros Hx; by apply Hx). }
  intros w' Hrun. unfold shrink_to_fit in Hrun. mstep_in Hrun.
  destruct (decide (capacity_ (self w) ≠ size_ (self w))) as [Hne|Heq].
  2:{ injection Hrun as <-. apply dec_stable in Heq. done. }
  unfold resize in Hrun.
  destruct (decide (size_ (self w) = 0)) as [Hn|Hn].
  - mstep_in Hrun. apply valid_inv in Hv as Hv'.
    destruct Hv' as [(Hd & Hn' & Hc)|(bk & blk & ys & Hd & Hblk & Hc0 & HcM & HcS & Hlen & Hnc & Hys)];
      [congruence|].
    apply bind_Ret in Hrun as ([] & w1 & Hdel & Hrun).
    rewrite Hd, (operator_delete_At _ _ _ Hblk) in Hdel. injection Hdel as <-.
    mstep_in Hrun. injection Hrun as <-. simpl. rewrite Hn.
    repeat split. rewrite (view_At _ _ _ Hd Hblk), Hn. done.
  - apply bind_Ret in Hrun as (ptr & wa & Hnew & Hrun).
    apply operator_new_Ret in Hnew as [-> ->].
    set (nb := replicate _ _ : list (slot T)) in *. set (wa := World _ _) in *.
    destruct (valid_ext w wa Hv eq_refl) as [Hva Hviewa].
    { intros b i blk _ Hb. by apply block_at_app_l. }
    apply (copy_to_ptr_Ret _ _ _ _ nb) in Hrun
      as (nb' & Hself & Hnb' & Hlen' & Hfit & Htake & _); [|done|apply block_at_app_new|].
    2:{ intros i Hi. apply (data_below_fresh w) in Hi; [lia|done]. }
    change (size_ (self wa)) with (size_ (self w)) in *.
    destruct (valid_view _ Hv) as (xs & Hview & Hlxs).
    destruct (requested_block_exact (size_ (self w)) sizeof) as [HnS HL];
      [apply sizeof_pos| |].
    { unfold nb in Hfit. rewrite length_replicate in Hfit. lia. }
    rewrite Hself. simpl. split.
    + eapply (valid_intro _ _ nb' xs); rewrite ?Hself; simpl; try done; try lia.
      * rewrite Hlen'. unfold nb. rewrite length_replicate. lia.
      * by rewrite Htake, Hviewa.
    + repeat split. erewrite view_At; [|by rewrite Hself|done].
      rewrite Hself. simpl. by rewrite Htake.
Qed.

End Shrinking.

(** ** Copies, destruction, element access *)

Section Copies.
Context {T : Type} `{!Element T}.
Variable alloc_fails : N -> bool.
Implicit Types (w : world T) (v : T) (blk cur : list (slot T)).

(** The destructor of a valid object frees its block. *)
Lemma vector_dtor_frees w :
  valid w = true ->
  exists w', vector_dtor w = Ret tt w' /\ self w' = self w /\
    length (mem w') = length (mem w) /\
    (forall b i, data_ (self w) = At b i -> block_at (mem w') b = None) /\
    (forall b, (forall i, data_ (self w) ≠ At b i) ->
               block_at (mem w') b = block_at (mem w) b).
Proof.
  intros Hv. unfold vector_dtor. apply valid_inv in Hv as Hv'.
  destruct Hv' as [(Hd & Hn & Hc)|(bo & blk & xs & Hd & Hblk & Hc0 & HcM & HcS & Hlen & Hnc & Hxs)].
  - exists w. rewrite !bind_gets, Hd, Hn.
    split; [by destruct w|]. split; [done|]. split; [done|]. split; [|done].
    by intros b i.
  - destruct (destroy_all_loop bo (N.to_nat (size_ (self w))) 0 w blk Hblk)
      as (blk' & Hdes & _ & _).
    { intros t Ht. eapply live_prefix_payload; [done|lia..]. }
    eexists. rewrite !bind_gets, Hd. unfold destroy_all.
    unfold mbind at 1, M_bind at 1. rewrite Hdes.
    erewrite operator_delete_At by (by eapply block_at_upd_eq).
    split; [done|]. split; [done|]. simpl. split; [by rewrite !length_insert|].
    split.
    + intros b i [= <- _]. apply block_at_insert_eq. rewrite length_insert.
      eauto using block_at_lt.
    + intros b Hb. assert (bo ≠ b) by (intros <-; by eapply Hb).
      by rewrite !block_at_insert_ne.
Qed.

Lemma vector_copy_fields (o : vec) w w' :
  vector_copy alloc_fails o w = Ret tt w' ->
  size_ (self w') = size_ o /\ capacity_ (self w') = size_ o.
Proof.
  intros Hrun. unfold vector_copy in Hrun.
  apply bind_Ret in Hrun as ([] & w0 & Hinit & Hrun). injection Hinit as <-.
  apply try_catch_Ret in Hrun; [|intros; apply throw_not_Ret].
  destruct (decide (size_ o ≠ 0)) as [Hn|Hn].
  - apply bind_Ret in Hrun as (ptr & wa & _ & Hrun).
    apply bind_Ret in Hrun as ([] & w1 & _ & Hrun).
    mstep_in Hrun. by injection Hrun as <-.
  - apply dec_stable in Hn. injection Hrun as <-. by rewrite Hn.
Qed.

(** X5.  A completed copy construction from a valid container gives a
    valid container with the same elements, [capacity() = size()], in
    storage of its own; the source and its elements are as they were. *)
Theorem copy_construct_spec (o : vec) w w' :
  valid (World o (mem w)) = true ->
  vector_copy alloc_fails o w = Ret tt w' ->
  valid w' = true /\
  view w' = view (World o (mem w)) /\
  size w' = size_ o /\ capacity w' = size_ o /\
  (forall b i j, begin_ w' = At b i -> data_ o ≠ At b j) /\
  valid (World o (mem w')) = true /\
  view (World o (mem w')) = view (World o (mem w)).
Proof.
  intros Hv Hrun. pose proof (vector_copy_fields _ _ _ Hrun) as [Hs Hc].
  apply (vector_copy_Ret _ o) in Hrun as (Hv' & Hview & _ & Hfresh & Hpres); [|done].
  split; [done|]. split; [done|]. split; [done|]. split; [done|]. split.
  - intros b i j Hb Ho. apply Hfresh in Hb as ->.
    apply (data_below_fresh (World o (mem w))) in Ho; [simpl in Ho; lia|done].
  - apply (valid_ext (World o (mem w)) (World o (mem w'))); [done..|].
    intros b i blk _ Hb. by apply Hpres.
Qed.

(** What a completed assignment leaves of the blocks that existed: all but
    the old block of [*this] are as they were, and that one is freed. *)
Lemma operator_assign_blocks (o : vec) w w' :
  valid w = true -> valid (World o (mem w)) = true ->
  operator_assign alloc_fails o w = Ret tt w' ->
  (forall b i, data_ (self w) = At b i -> block_at (mem w') b = None) /\
  (forall b blk, block_at (mem w) b = Some blk ->
     (forall i, data_ (self w) ≠ At b i) -> block_at (mem w') b = Some blk) /\
  capacity_ (self w') = size_ o.
Proof.
  intros Hv Hvo Hrun. unfold operator_assign in Hrun.
  apply bind_Ret in Hrun as ([[] copy] & w1 & Hcopy & Hrun).
  unfold on_object in Hcopy.
  destruct (vector_copy alloc_fails o _) as [[] wc| |] eqn:Hvc; [|done..].
  injection Hcopy as <- <-.
  pose proof (vector_copy_fields _ _ _ Hvc) as [_ Hcap].
  apply (vector_copy_Ret _ o) in Hvc as (_ & _ & _ & _ & Hpres); [|done].
  simpl in *.
  apply bind_Ret in Hrun as (old & w2 & Hswap & Hrun). injection Hswap as <- <-.
  apply bind_Ret in Hrun as (? & w3 & Hdtor & Hrun). injection Hrun as <-.
  unfold on_object in Hdtor. simpl in Hdtor.
  destruct (valid_ext w (World (self w) (mem wc)) Hv eq_refl) as [Hvold _].
  { intros b i blk _ Hb. eauto. }
  destruct (vector_dtor_frees _ Hvold) as (wd & Hd & _ & _ & Hfreed & Hother).
  rewrite Hd in Hdtor. injection Hdtor as _ <-. simpl in *.
  split; [done|]. split; [|done].
  intros b blk Hb Hne. rewrite Hother by done. by apply Hpres.
Qed.

(** X6.  A completed assignment [*this = other] between two valid
    containers with storage of their own: [*this] is valid with the
    elements of [other] and [capacity() = other.size()], its old storage is
    freed, and [other] and its elements are as they were. *)
Theorem copy_assign_spec (o : vec) w w' :
  valid w = true -> valid (World o (mem w)) = true ->
  (forall b i j, data_ (self w) = At b i -> data_ o ≠ At b j) ->
  operator_assign alloc_fails o w = Ret tt w' ->
  valid w' = true /\
  view w' = view (World o (mem w)) /\
  size w' = size_ o /\ capacity w' = size_ o /\
  (forall b i, begin_ w = At b i -> block_at (mem w') b = None) /\
  valid (World o (mem w')) = true /\
  view (World o (mem w')) = view (World o (mem w)).
Proof.
  intros Hv Hvo Hdis Hrun.
  pose proof (operator_assign_blocks _ _ _ Hv Hvo Hrun) as (Hfreed & Hkept & Hcap).
  apply operator_assign_Ret in Hrun as (Hv' & Hview & Hs); [|done..].
  split; [done|]. split; [done|]. split; [done|]. split; [done|]. split; [done|].
  apply (valid_ext (World o (mem w)) (World o (mem w'))); [done..|].
  intros b i blk Hdo Hb. simpl in *. apply Hkept; [done|].
  intros j Hj. by eapply Hdis.
Qed.

(** X7.  The destructor of a valid container returns: its block is freed,
    no other block is touched. *)
Theorem destructor_spec w :
  valid w = true ->
  exists w', vector_dtor w = Ret tt w' /\
    (forall b i, begin_ w = At b i -> block_at (mem w') b = None) /\
    (forall b, (forall i, begin_ w ≠ At b i) ->
               block_at (mem w') b = block_at (mem w) b) /\
    length (mem w') = length (mem w).
Proof.
  intros Hv. destruct (vector_dtor_frees w Hv) as (w' & Hrun & _ & Hl & Hf & Ho).
  exists w'. done.
Qed.

(** X8.  On a valid container with the elements [xs], reading through
    [operator[](i)] gives [xs[i]] and fails its assertion from [size()]
    on; reading through [front()] and [back()] gives the first and the
    last element and fails the assertion on the empty container.  The
    container is not changed. *)
Theorem element_access w xs i :
  valid w = true -> view w = Live <$> xs ->
  (operator_index i ≫= read) w =
    match xs !! N.to_nat i with Some x => Ret x w | None => Undef end /\
  (front ≫= read) w =
    match head xs with Some x => Ret x w | None => Undef end /\
  (back ≫= read) w =
    match last xs with Some x => Ret x w | None => Undef end.
Proof.
  intros Hv Hview.
  destruct (valid_view _ Hv) as (xs' & Hview' & Hlen).
  rewrite Hview in Hview'. apply live_fmap_inj in Hview' as <-.
  assert (forall j, (operator_index j ≫= read) w =
            match xs !! N.to_nat j with Some x => Ret x w | None => Undef end) as Hidx.
  { intros j. rewrite index_reads_contents. unfold contents.
    rewrite Hview, <-list_fmap_compose, list_lookup_fmap. by destruct (xs !! _). }
  split; [apply Hidx|].
  assert (forall j, j < size_ (self w) ->
     (operator_index j ≫= read) w =
     read (ptr_add (data_ (self w)) j) w) as Hrd.
  { intros j Hj. unfold operator_index. mstep. by rewrite bool_decide_true by done. }
  split.
  - unfold front. mstep. case_bool_decide as Hn.
    + mstep. rewrite <-(Hrd 0 Hn), Hidx. simpl. by rewrite head_lookup.
    + destruct xs; [done|simpl in Hlen; lia].
  - unfold back. mstep. case_bool_decide as Hn.
    + mstep. rewrite sz_sub_small.
      * rewrite <-Hrd, Hidx by lia. rewrite last_lookup.
        by replace (N.to_nat (size_ (self w) - 1)) with (pred (length xs)) by lia.
      * lia.
      * apply valid_inv in Hv as [(_ & ? & _)|(_ & _ & _ & _ & _ & _ & ? & _ & _ & ? & _)];
          [pose proof (wrap_lt 0)|]; lia.
    + destruct xs using rev_ind; [done|]. rewrite length_app in Hlen. simpl in Hlen. lia.
Qed.

End Copies.

(** ** Insertion and removal: what is left when a call raises or has
    nothing to move *)

Section Edges.
Context {T : Type} `{!Element T}.
Variable alloc_fails : N -> bool.
Implicit Types (w : world T) (v : T) (blk cur : list (slot T)).

Lemma read_outcome p w :
  match read p w with
  | Ret _ w' => w' = w
  | Throw _ _ => False
  | Undef => True
  end.
Proof. unfold read. by destruct (load _ _ ≫= payload). Qed.

(** Constructor, destructor and assignment calls change no block's
    length. *)
Lemma store_lengths (h : heap T) p (s : slot T) h' :
  store h p s = Some h' ->
  forall b, length <$> block_at h' b = length <$> block_at h b.
Proof.
  destruct p as [|bd i]; [done|]. unfold store.
  destruct (block_at h bd) as [cur|] eqn:Hb; [|done]. simpl.
  case_decide; [|done]. intros [= <-] b.
  destruct (decide (b = bd)) as [->|].
  - rewrite block_at_insert_eq by eauto using block_at_lt.
    rewrite Hb. simpl. by rewrite length_insert.
  - by rewrite block_at_insert_ne.
Qed.

Lemma destroy_at_lengths p w :
  match destroy_at p w with
  | Ret _ w' => forall b, length <$> block_at (mem w') b = length <$> block_at (mem w) b
  | Throw _ _ => False
  | Undef => True
  end.
Proof.
  unfold destroy_at. destruct (load _ _ ≫= payload) as [v|]; [|done].
  destruct (store _ _ _) as [h'|] eqn:Hst; [|done]. simpl.
  by eapply store_lengths.
Qed.

Lemma assign_at_lengths p v w :
  match assign_at p v w with
  | Ret _ w' | Throw _ w' =>
      forall b, length <$> block_at (mem w') b = length <$> block_at (mem w) b
  | Undef => True
  end.
Proof.
  unfold assign_at. destruct (load _ _) as [s|]; [|done].
  destruct (store _ _ _) as [h'|] eqn:Hst; [|done].
  destruct (assign_throws v); simpl; by eapply store_lengths.
Qed.

(** An assignment writes to the slot assigned to, whether it completes or
    raises. *)
Lemma assign_at_outcome bd i v w :
  match assign_at (At bd i) v w with
  | Ret _ w' => only_block bd w w'
  | Throw e w' => e = assign_failure /\ only_block bd w w'
  | Undef => True
  end.
Proof.
  unfold assign_at. destruct (load _ _) as [s|]; [|done].
  destruct (store _ _ _) as [h'|] eqn:Hst; [|done].
  destruct (assign_throws v); [split; [done|]|]; by eapply store_only_block.
Qed.

(** X11.  [insert] of a value whose copy raises never completes; when it
    raises, the fields of [*this] and every block are as they were.  With
    room left nothing at all has changed; on the growing path the block
    obtained for the larger storage stays allocated. *)
Theorem insert_value_copy_raises pos e w :
  copy_throws e = true ->
  match insert alloc_fails pos e w with
  | Ret _ _ => False
  | Throw ex w' =>
      self w' = self w /\
      (size w ≠ capacity w -> ex = copy_failure /\ w' = w) /\
      (size w = capacity w ->
         (ex = bad_alloc /\ w' = w) \/
         (ex = copy_failure /\
          exists blk, mem w' = mem w ++ [Some blk] /\ Forall (fun s => s = Raw) blk))
  | Undef => True
  end.
Proof.
  intros He. unfold insert, size, capacity.
  destruct (ptr_diff pos (begin_ w)) as [d|]; [|done].
  rewrite bind_assoc. mstep.
  destruct (decide (size_ (self w) = capacity_ (self w))) as [Hfull|Hroom].
  - unfold resize_and_insert. rewrite !bind_assoc.
    unfold mbind at 1, M_bind at 1, operator_new at 1.
    destruct (alloc_fails _); [by split; [|split; [|left]]|].
    mstep. rewrite ptr_add_base.
    unfold mbind at 1, M_bind at 1, construct_at at 1.
    destruct (store _ _ _) as [h'|]; [|done]. rewrite He. simpl.
    split; [done|]. split; [done|]. intros _. right. split; [done|].
    eexists. split; [done|]. apply Forall_forall. intros s Hs.
    by apply elem_of_replicate in Hs as [-> _].
  - mstep. unfold mbind at 1, M_bind at 1, construct_at at 1.
    destruct (store _ _ _) as [h'|]; [|done]. rewrite He.
    split; [done|]. split; [done|]. done.
Qed.

Lemma erase_body_outcome bk j a b i w :
  match erase_body (At bk j) a b i w with
  | Ret _ w' => only_block bk w w'
  | Throw e w' => e = assign_failure /\ only_block bk w w'
  | Undef => True
  end.
Proof.
  unfold erase_body. unfold mbind at 1, M_bind at 1.
  pose proof (read_outcome (ptr_add (At bk j) i) w) as Hr.
  destruct (read _ w) as [x w0| |]; [subst w0|done..].
  unfold mbind at 1, M_bind at 1. cbn [ptr_add].
  pose proof (assign_at_outcome bk (j + sz_sub (wrap (a + i)) b) x w) as Ha.
  destruct (assign_at _ x w) as [[] w1|e w1|]; [|done..].
  pose proof (destroy_at_outcome bk (j + i) w1) as Hd.
  destruct (destroy_at _ w1) as [[] w2| |]; [|done..].
  by eapply only_block_trans.
Qed.

Lemma erase_body_lengths dat a b i w :
  match erase_body dat a b i w with
  | Ret _ w' | Throw _ w' =>
      forall c, length <$> block_at (mem w') c = length <$> block_at (mem w) c
  | Undef => True
  end.
Proof.
  unfold erase_body. unfold mbind at 1, M_bind at 1.
  pose proof (read_outcome (ptr_add dat i) w) as Hr.
  destruct (read _ w) as [x w0| |]; [subst w0|done..].
  unfold mbind at 1, M_bind at 1.
  pose proof (assign_at_lengths (ptr_add dat (sz_sub (wrap (a + i)) b)) x w) as Ha.
  destruct (assign_at _ x w) as [[] w1|e w1|]; [|done..].
  pose proof (destroy_at_lengths (ptr_add dat i) w1) as Hd.
  destruct (destroy_at _ w1) as [[] w2| |]; [|done..].
  intros c. by rewrite Hd, Ha.
Qed.

Lemma erase_loop_outcome bk j a b k : forall i w,
  match for_up i k (erase_body (At bk j) a b) w with
  | Ret _ w' => only_block bk w w'
  | Throw e w' => e = assign_failure /\ only_block bk w w'
  | Undef => True
  end.
Proof.
  induction k as [|k IH]; intros i w.
  - apply only_block_refl.
  - cbn [for_up]. unfold mbind at 1, M_bind at 1.
    pose proof (erase_body_outcome bk j a b i w) as Hb.
    destruct (erase_body _ _ _ _ w) as [[] w1|e w1|]; [|done..].
    specialize (IH (N.succ i) w1).
    destruct (for_up _ _ _ w1) as [[] w2|e w2|]; [|destruct IH|done];
      eauto using only_block_trans.
Qed.

Lemma erase_loop_lengths dat a b k : forall i w,
  match for_up i k (erase_body dat a b) w with
  | Ret _ w' | Throw _ w' =>
      forall c, length <$> block_at (mem w') c = length <$> block_at (mem w) c
  | Undef => True
  end.
Proof.
  induction k as [|k IH]; intros i w; [done|].
  cbn [for_up]. unfold mbind at 1, M_bind at 1.
  pose proof (erase_body_lengths dat a b i w) as Hb.
  destruct (erase_body _ _ _ _ w) as [[] w1|e w1|]; [|done..].
  specialize (IH (N.succ i) w1).
  destruct (for_up _ _ _ w1) as [[] w2|e w2|]; [| |done];
    intros c; by rewrite IH, Hb.
Qed.

(** X12.  [erase] allocates and frees nothing and writes to no block but
    the container's own: every block, the container's own included, is
    still there with the length it had, none is added, the blocks of
    other owners are as they were, and [capacity()] and [begin()] are as
    before the call.  When it raises, it has raised the error of an
    element assignment, and [size()] too is as before the call. *)
Theorem erase_footprint first last w :
  match erase first last w with
  | Ret _ w' =>
      capacity w' = capacity w /\ begin_ w' = begin_ w /\
      length (mem w') = length (mem w) /\
      (forall b, length <$> block_at (mem w') b = length <$> block_at (mem w) b) /\
      forall b, (forall i, begin_ w ≠ At b i) -> block_at (mem w') b = block_at (mem w) b
  | Throw e w' =>
      e = assign_failure /\ size w' = size w /\
      capacity w' = capacity w /\ begin_ w' = begin_ w /\
      length (mem w') = length (mem w) /\
      (forall b, length <$> block_at (mem w') b = length <$> block_at (mem w) b) /\
      forall b, (forall i, begin_ w ≠ At b i) -> block_at (mem w') b = block_at (mem w) b
  | Undef => True
  end.
Proof.
  unfold erase, size, capacity, begin_.
  destruct (ptr_diff last _) as [dl|]; [|done].
  destruct (ptr_diff first _) as [df|]; [|done].
  destruct (ptr_diff last first) as [d|]; [|done].
  mstep. unfold mbind at 1, M_bind at 1.
  pose proof (erase_loop_lengths (data_ (self w)) (to_size_t df) (to_size_t dl)
                (N.to_nat (size_ (self w) - to_size_t dl)) (to_size_t dl) w) as Hlen.
  assert (match for_up (to_size_t dl) (N.to_nat (size_ (self w) - to_size_t dl))
                  (erase_body (data_ (self w)) (to_size_t df) (to_size_t dl)) w with
          | Ret _ w' | Throw _ w' =>
              self w' = self w /\ length (mem w') = length (mem w) /\
              forall b, (forall i, data_ (self w) ≠ At b i) ->
                        block_at (mem w') b = block_at (mem w) b
          | Undef => True
          end /\
          forall e w', for_up (to_size_t dl) (N.to_nat (size_ (self w) - to_size_t dl))
                  (erase_body (data_ (self w)) (to_size_t df) (to_size_t dl)) w = Throw e w' ->
                  e = assign_failure) as [Hloop He].
  { destruct (data_ (self w)) as [|bk j] eqn:Hd.
    - destruct (N.to_nat _); [done|]. split; [|intros e w']; by vm_compute.
    - pose proof (erase_loop_outcome bk j (to_size_t df) (to_size_t dl)
                    (N.to_nat (size_ (self w) - to_size_t dl)) (to_size_t dl) w) as Ho.
      split.
      + destruct (for_up _ _ _ w) as [[] w1|e w1|]; [|destruct Ho as [_ Ho]|done];
          destruct Ho as (? & ? & Ho & _); (split; [done|]); (split; [done|]);
          intros b Hb; apply Ho; intros ->; by eapply Hb.
      + intros e w' Hrun. rewrite Hrun in Ho. by destruct Ho. }
  destruct (for_up _ _ _ w) as [[] w1|e w1|]; [| |done].
  - mstep. destruct Hloop as (-> & ? & ?). done.
  - destruct Hloop as (-> & ? & ?). by rewrite (He e w1).
Qed.

Lemma ptr_diff_add p (a b : N) :
  ptr_diff (ptr_add p b) (ptr_add p a) =
    match p with Null => Some 0%Z | At _ i => Some (Z.of_N (i + b) - Z.of_N (i + a))%Z end.
Proof. destruct p as [|bk i]; [done|]. simpl. by rewrite decide_True. Qed.

(** X13.  On a valid container [erase(begin() + a, end())] runs no
    assignment and no destructor: it returns [begin() + a] with [size()]
    set to [a] and the storage exactly as it was, the objects from [a] on
    included. *)
Theorem erase_tail w a :
  valid w = true -> a <= size w ->
  erase (ptr_add (begin_ w) a) (end_ w) w =
    Ret (ptr_add (begin_ w) a)
        (World (Vec (data_ (self w)) a (capacity_ (self w))) (mem w)).
Proof.
  unfold size, end_. intros Hv Ha.
  destruct (ptr_diff_begin w a Hv Ha) as [Hpa HaM].
  destruct (ptr_diff_begin w (size_ (self w)) Hv ltac:(lia)) as [Hpn HnM].
  unfold erase. unfold begin_ in *. rewrite Hpa, Hpn, ptr_diff_add.
  rewrite !to_size_t_of_N by done.
  assert (exists d : Z, match data_ (self w) with
                        | Null => Some 0%Z
                        | At _ i => Some (Z.of_N (i + size_ (self w)) - Z.of_N (i + a))%Z
                        end = Some d /\
            to_size_t (Z.of_N (size_ (self w)) - d) = a) as (d & -> & Hd).
  { apply valid_inv in Hv as [(-> & Hn & _)|(bk & blk & xs & -> & _)].
    - eexists. split; [done|]. rewrite Z.sub_0_r, to_size_t_of_N by done. lia.
    - eexists. split; [done|]. rewrite to_size_t_small by lia. lia. }
  mstep. rewrite N.sub_diag. change (N.to_nat 0) with 0%nat. cbn [for_up].
  mstep. by rewrite Hd.
Qed.

(** X20.  The queries of a valid container with the elements [xs]:
    [size()] is their number, [empty()] tells whether there is none,
    [size() <= capacity()], [end() - begin()] is [size()], and [begin()]
    and [end()] coincide exactly on the empty container. *)
Theorem queries_spec w xs :
  valid w = true -> view w = Live <$> xs ->
  size w = N.of_nat (length xs) /\
  empty w = bool_decide (xs = []) /\
  size w <= capacity w /\
  ptr_diff (end_ w) (begin_ w) = Some (Z.of_N (size w)) /\
  (begin_ w = end_ w <-> xs = []).
Proof.
  intros Hv Hview. unfold size, empty, capacity, end_.
  destruct (valid_view _ Hv) as (xs' & Hview' & Hlen).
  rewrite Hview in Hview'. apply live_fmap_inj in Hview' as <-.
  destruct (ptr_diff_begin w (size_ (self w)) Hv ltac:(lia)) as [Hpn HnM].
  assert (size_ (self w) = 0 <-> xs = []) as Hnil.
  { destruct xs; simpl in Hlen; split; intros; (done || lia). }
  split; [done|]. split; [by apply bool_decide_ext|]. split.
  { apply valid_inv in Hv as [(_ & -> & ->)|(? & ? & ? & _ & _ & _ & _ & _ & _ & ? & _)]; lia. }
  split; [done|]. rewrite <-Hnil. unfold begin_.
  apply valid_inv in Hv as [(-> & -> & _)|(bk & blk & ? & -> & _)]; simpl; [done|].
  split; [intros [= Hx]; lia|intros ->; done].
Qed.

(** X19.  An assignment [*this = other] between valid containers that
    raises has raised the error of the allocator or of an element copy;
    both containers and their elements are as before the call.  After the
    error of an element copy the block obtained for the copy is still
    allocated. *)
Theorem copy_assign_failure (o : vec) w e w' :
  valid w = true -> valid (World o (mem w)) = true ->
  operator_assign alloc_fails o w = Throw e w' ->
  self w' = self w /\ valid w' = true /\ view w' = view w /\
  valid (World o (mem w')) = true /\ view (World o (mem w')) = view (World o (mem w)) /\
  ((e = bad_alloc /\ mem w' = mem w) \/
   (e = copy_failure /\ is_Some (block_at (mem w') (length (mem w))))).
Proof.
  intros Hv Hvo Hrun.
  pose proof (operator_assign_Throw _ _ _ _ _ Hrun) as (Hs & Hpres).
  destruct (valid_ext w w' Hv Hs) as [Hv' Hview]; [by eauto|].
  destruct (valid_ext (World o (mem w)) (World o (mem w')) Hvo eq_refl) as [Hvo' Hviewo];
    [by eauto|].
  do 5 (split; [done|]).
  unfold operator_assign in Hrun.
  apply bind_Throw in Hrun as [Hrun|([[] copy] & w1 & Hcopy & Hrun)].
  - unfold on_object in Hrun.
    destruct (vector_copy alloc_fails o _) as [[] wc|ex wc|] eqn:Hvc; [done| |done].
    injection Hrun as -> <-. simpl.
    apply vector_copy_Throw in Hvc as (_ & _ & Hcase). done.
  - exfalso. unfold on_object in Hcopy.
    destruct (vector_copy alloc_fails o _) as [[] wc|ex wc|] eqn:Hvc; [|done..].
    injection Hcopy as <- <-.
    apply bind_Throw in Hrun as [Hrun|(old & w2 & Hswap & Hrun)]; [done|].
    injection Hswap as <- <-.
    apply bind_Throw in Hrun as [Hrun|(? & w3 & _ & Hrun)]; [|done].
    unfold on_object in Hrun. simpl in Hrun.
    destruct (vector_dtor _) as [[] wd|ex wd|] eqn:Hd; [done| |done].
    by apply vector_dtor_no_throw in Hd.
Qed.

End Edges.

(** ** Where the storage is after a call *)

Lemma double_no_wrap c :
  c < size_modulus -> c < N.max 1 (wrap (c * 2)) -> wrap (c * 2) = c * 2.
Proof.
  intros HcM Hc. destruct (decide (c * 2 < size_modulus)) as [|Hbig];
    [by apply wrap_small|].
  exfalso. assert (wrap (c * 2) = c * 2 - size_modulus) as Hw.
  { unfold wrap. symmetry. apply (N.mod_unique _ _ 1); lia. }
  unfold size_modulus in *. lia.
Qed.

Section Storage.
Context {T : Type} `{!Element T}.
Variable alloc_fails : N -> bool.
Implicit Types (w : world T) (v : T) (blk cur : list (slot T)).

Lemma block_at_app_old (h : heap T) o b :
  (b < length h)%nat -> block_at (h ++ [o]) b = block_at h b.
Proof. intros Hb. unfold block_at. by rewrite lookup_app_l. Qed.

Lemma operator_delete_Ret p w w' :
  operator_delete p w = Ret tt w' ->
  self w' = self w /\ length (mem w') = length (mem w) /\
  (forall b i, p = At b i -> block_at (mem w') b = None) /\
  (forall b, (forall i, p ≠ At b i) -> block_at (mem w') b = block_at (mem w) b).
Proof.
  unfold operator_delete. destruct p as [|bo i].
  - intros [= <-]. done.
  - destruct (block_at (mem w) bo) as [cur|] eqn:Hb; [|done].
    case_decide; [|done]. intros [= <-]. simpl.
    split; [done|]. split; [apply length_insert|]. split.
    + intros b j [= <- _]. apply block_at_insert_eq. eauto using block_at_lt.
    + intros b Hne. apply block_at_insert_ne. intros ->. by eapply Hne.
Qed.

(** A completed [copy_to_ptr] has freed the old block and touched no block
    but the old and the new one. *)
Lemma copy_to_ptr_blocks cap bn j w w' :
  copy_to_ptr cap (At bn j) w = Ret tt w' ->
  self w' = Vec (At bn j) (size_ (self w)) cap /\
  length (mem w') = length (mem w) /\
  (forall b i, data_ (self w) = At b i -> block_at (mem w') b = None) /\
  (forall b, b ≠ bn -> (forall i, data_ (self w) ≠ At b i) ->
             block_at (mem w') b = block_at (mem w) b).
Proof.
  intros Hrun. unfold copy_to_ptr in Hrun.
  apply bind_Ret in Hrun as ([] & w1 & Hcopy & Hrun).
  apply try_catch_Ret in Hcopy.
  2:{ intros e w2 Hh. mstep_in Hh.
      apply bind_Ret in Hh as (? & ? & _ & Hh).
      apply bind_Ret in Hh as (? & ? & _ & Hh). mstep_in Hh. done. }
  mstep_in Hcopy. mstep_in Hrun.
  pose proof (copy_and_construct_outcome bn j (data_ (self w)) (size_ (self w)) w) as Hc.
  rewrite Hcopy in Hc. destruct Hc as (Hs1 & Hl1 & Ho1 & _).
  rewrite Hs1 in Hrun.
  apply bind_Ret in Hrun as ([] & w2 & Hdes & Hdel).
  apply operator_delete_Ret in Hdel as (Hs3 & Hl3 & Hfree & Ho3).
  assert (self w2 = Vec (At bn j) (size_ (self w)) cap /\
          length (mem w2) = length (mem w1) /\
          forall b, (forall i, data_ (self w) ≠ At b i) ->
                    block_at (mem w2) b = block_at (mem w1) b) as (Hs2 & Hl2 & Ho2).
  { destruct (data_ (self w)) as [|bo i] eqn:Hd.
    - pose proof (destroy_all_Null (size_ (self w))
                    (World (Vec (At bn j) (size_ (self w)) cap) (mem w1))) as Ho.
      rewrite Hdes in Ho. by subst w2.
    - pose proof (destroy_all_outcome bo i (size_ (self w))
                    (World (Vec (At bn j) (size_ (self w)) cap) (mem w1))) as Ho.
      rewrite Hdes in Ho. destruct Ho as (? & ? & Ho & _).
      split; [done|]. split; [done|]. intros b Hb. apply Ho. intros ->. by eapply Hb. }
  split; [congruence|]. split; [congruence|]. split; [done|].
  intros b Hbn Hb. rewrite Ho3, Ho2, Ho1 by done. done.
Qed.

Lemma shift_loop_frame bk j k : forall i w,
  match for_down i k
          (fun i => x ← read (ptr_add (At bk j) (i - 1)); assign_at (ptr_add (At bk j) i) x) w with
  | Ret _ w' => only_block bk w w'
  | Throw e w' => e = assign_failure /\ only_block bk w w'
  | Undef => True
  end.
Proof.
  induction k as [|k IH]; intros i w.
  - apply only_block_refl.
  - cbn [for_down]. unfold mbind at 1, M_bind at 1. unfold mbind at 1, M_bind at 1.
    pose proof (read_outcome (ptr_add (At bk j) (i - 1)) w) as Hr.
    destruct (read _ w) as [x w0| |]; [subst w0|done..]. cbn [ptr_add].
    pose proof (assign_at_outcome bk (j + i) x w) as Ha.
    destruct (assign_at _ x w) as [[] w1|e w1|].
    + specialize (IH (N.pred i) w1).
      destruct (for_down _ _ _ w1) as [[] w2|e w2|]; [|destruct IH|done];
        eauto using only_block_trans.
    + done.
    + done.
Qed.

(** [move_element] writes to the container's own block only. *)
Lemma move_element_frame from to w :
  match move_element from to w with
  | Ret _ w' | Throw _ w' =>
      self w' = self w /\ length (mem w') = length (mem w) /\
      forall b, (forall i, data_ (self w) ≠ At b i) ->
                block_at (mem w') b = block_at (mem w) b
  | Undef => True
  end.
Proof.
  unfold move_element. rewrite bind_assert. destruct (bool_decide _); [|done].
  case_decide; [|done]. mstep.
  destruct (data_ (self w)) as [|bk j] eqn:Hd; [done|].
  unfold mbind at 1, M_bind at 1.
  pose proof (read_outcome (ptr_add (At bk j) from) w) as Hr.
  destruct (read _ w) as [x w0| |]; [subst w0|done..].
  destruct (copy_throws x); [done|]. mstep.
  unfold mbind at 1, M_bind at 1.
  pose proof (shift_loop_frame bk j (N.to_nat (from - to)) from w) as Hl.
  assert (forall w1, only_block bk w w1 ->
            self w1 = self w /\ length (mem w1) = length (mem w) /\
            forall b, (forall i, At bk j ≠ At b i) -> block_at (mem w1) b = block_at (mem w) b)
    as Hob.
  { intros w1 (? & ? & Ho & _). split; [done|]. split; [done|].
    intros b Hb. apply Ho. intros ->. by eapply Hb. }
  destruct (for_down _ _ _ w) as [[] w1|e w1|]; [|destruct Hl; auto|done].
  cbn [ptr_add].
  pose proof (assign_at_outcome bk (j + to) x w1) as Ha.
  destruct (assign_at _ x w1) as [[] w2|e w2|]; [|destruct Ha as [_ Ha]|done];
    eauto using only_block_trans.
Qed.

(** Where a completed [insert] leaves the storage. *)
Lemma insert_storage w k e r w' :
  valid w = true -> k <= size_ (self w) ->
  insert alloc_fails (ptr_add (begin_ w) k) e w = Ret r w' ->
  (forall b, (b < length (mem w))%nat -> (forall i, data_ (self w) ≠ At b i) ->
             block_at (mem w') b = block_at (mem w) b) /\
  (size_ (self w) ≠ capacity_ (self w) ->
     data_ (self w') = data_ (self w) /\ capacity_ (self w') = capacity_ (self w) /\
     length (mem w') = length (mem w)) /\
  (size_ (self w) = capacity_ (self w) ->
     data_ (self w') = At (length (mem w)) 0 /\
     capacity_ (self w') = N.max 1 (2 * capacity_ (self w)) /\
     length (mem w') = S (length (mem w)) /\
     forall b i, data_ (self w) = At b i -> block_at (mem w') b = None).
Proof.
  intros Hv Hk Hrun. unfold insert in Hrun.
  destruct (ptr_diff_begin _ _ Hv Hk) as [Hpd HkM]. rewrite Hpd in Hrun.
  rewrite to_size_t_of_N in Hrun by done.
  apply bind_Ret in Hrun as ([] & w1 & Hmain & Hret).
  mstep_in Hret. injection Hret as <- <-. mstep_in Hmain.
  destruct (decide (size_ (self w) = capacity_ (self w))) as [Hfull|Hroom].
  - unfold resize_and_insert in Hmain.
    apply bind_Ret in Hmain as (ptr & wa & Hnew & Hmain).
    apply operator_new_Ret in Hnew as [-> ->]. mstep_in Hmain.
    set (bn := length (mem w)) in *. set (nc := N.max 1 _) in *.
    set (nb := replicate _ _ : list (slot T)) in *.
    set (wa := World _ _) in *.
    assert (block_at (mem wa) bn = Some nb) as Hnb by apply block_at_app_new.
    apply bind_Ret in Hmain as ([] & wc & Hcons & Hmain).
    rewrite ptr_add_base in Hcons.
    destruct (decide (N.to_nat (size_ (self w)) < length nb)%nat) as [Hn|Hn];
      [|by rewrite (construct_at_oob _ _ _ _ _ Hnb) in Hcons by lia].
    pose proof (construct_at_outcome bn (size_ (self w)) e wa) as Hc.
    rewrite Hcons in Hc. destruct Hc as (Hsc & Hlc & Hoc & _).
    apply bind_Ret in Hmain as ([] & w2 & Hreloc & Hmain).
    apply try_catch_Ret in Hreloc; [|intros; apply throw_not_Ret].
    apply copy_to_ptr_blocks in Hreloc as (Hs2 & Hl2 & Hfree & Ho2).
    rewrite Hsc in Hs2, Hfree, Ho2. simpl in Hs2, Hfree, Ho2.
    mstep_in Hmain. rewrite Hs2 in Hmain. simpl in Hmain.
    match type of Hmain with move_element ?f ?t ?w0 = _ =>
      pose proof (move_element_frame f t w0) as Hm end.
    rewrite Hmain in Hm. simpl in Hm. destruct Hm as (Hs3 & Hl3 & Ho3).
    assert (length (mem w1) = S (length (mem w))) as Hlen.
    { rewrite Hl3, Hl2, Hlc. unfold wa. simpl. rewrite length_app. simpl. lia. }
    assert (forall b, (b < bn)%nat -> block_at (mem w1) b = block_at (mem w2) b) as Hto2.
    { intros b Hb. apply Ho3. intros i [= Hx _]. lia. }
    split; [|split; [done|intros _]].
    + intros b Hb Hown. rewrite Hto2, Ho2, Hoc by (done || lia).
      by apply block_at_app_old.
    + rewrite Hs3. simpl. split; [done|]. split.
      * assert (capacity_ (self w) < size_modulus) as HcM.
        { apply valid_inv in Hv as [(_ & _ & ->)|(_ & _ & _ & _ & _ & _ & ? & _)]; done. }
        unfold nb in Hn. rewrite length_replicate in Hn. unfold nc in Hn.
        destruct (grown_block_exact (capacity_ (self w)) sizeof) as [_ H2];
          [apply sizeof_pos|apply sizeof_fits|lia|].
        rewrite H2 in Hn. unfold nc.
        rewrite double_no_wrap; [f_equal; lia|done|lia].
      * split; [done|]. intros b i Hd.
        pose proof (data_below_fresh w b i Hv Hd).
        rewrite Hto2 by done. by eapply Hfree.
  - apply valid_inv in Hv as Hv'.
    destruct Hv' as [(Hd & Hn & Hc)|(bo & blk & xs' & Hd & Hblk & _)]; [congruence|].
    mstep_in Hmain. rewrite Hd in Hmain. rewrite ptr_add_base in Hmain.
    apply bind_Ret in Hmain as ([] & wc & Hcons & Hmain).
    pose proof (construct_at_outcome bo (size_ (self w)) e w) as Hc.
    rewrite Hcons in Hc. destruct Hc as (Hsc & Hlc & Hoc & _).
    mstep_in Hmain.
    match type of Hmain with move_element ?f ?t ?w0 = _ =>
      pose proof (move_element_frame f t w0) as Hm end.
    rewrite Hmain in Hm. simpl in Hm. rewrite Hsc, Hd in Hm. destruct Hm as (Hs3 & Hl3 & Ho3).
    split; [|split; [intros _|done]].
    + intros b Hb Hown. rewrite Hd in Hown. rewrite Ho3 by done.
      apply Hoc. intros ->. by eapply Hown.
    + rewrite Hs3. simpl. split; [done|]. split; [done|]. congruence.
Qed.

(** X9.  The growth policy of [insert]: with room left the storage stays
    where it is and [capacity()] is unchanged; on a full container the
    elements move to a new block, [capacity()] becomes
    [max(1, 2 * capacity())] and the old block is freed.  In both cases no
    block of another owner is touched. *)
Theorem insert_capacity w k e r w' :
  valid w = true -> k <= size w ->
  insert alloc_fails (ptr_add (begin_ w) k) e w = Ret r w' ->
  (size w < capacity w ->
     begin_ w' = begin_ w /\ capacity w' = capacity w) /\
  (size w = capacity w ->
     begin_ w' = At (length (mem w)) 0 /\
     capacity w' = N.max 1 (2 * capacity w) /\
     forall b i, begin_ w = At b i -> block_at (mem w') b = None) /\
  (forall b, (b < length (mem w))%nat -> (forall i, begin_ w ≠ At b i) ->
             block_at (mem w') b = block_at (mem w) b).
Proof.
  unfold size, capacity, begin_. intros Hv Hk Hrun.
  destruct (insert_storage w k e r w' Hv Hk Hrun) as (Hframe & Hroom & Hfull).
  split; [|split; [|done]].
  - intros Hlt. destruct Hroom as (? & ? & _); [lia|done].
  - intros Heq. destruct (Hfull Heq) as (? & ? & _ & ?). done.
Qed.

End Storage.

Section Growth.
Context {T : Type} `{!Element T}.
Variable alloc_fails : N -> bool.
Implicit Types (w : world T) (v : T) (blk cur : list (slot T)).

(** What a completed growing [reserve] has built, whatever the byte count
    of the request. *)
Lemma reserve_grown w n w' :
  valid w = true -> capacity_ (self w) < n ->
  reserve alloc_fails n w = Ret tt w' ->
  exists nb',
    self w' = Vec (At (length (mem w)) 0) (size_ (self w)) n /\
    block_at (mem w') (length (mem w)) = Some nb' /\
    N.of_nat (length nb') = wrap (n * sizeof) / sizeof /\
    take (N.to_nat (size_ (self w))) nb' = view w /\
    (forall b i, data_ (self w) = At b i -> block_at (mem w') b = None) /\
    (forall b, (b < length (mem w))%nat -> (forall i, data_ (self w) ≠ At b i) ->
               block_at (mem w') b = block_at (mem w) b).
Proof.
  intros Hv Hn Hrun. unfold reserve in Hrun. mstep_in Hrun.
  rewrite decide_True in Hrun by done. unfold resize in Hrun.
  rewrite decide_False in Hrun by lia.
  apply bind_Ret in Hrun as (ptr & wa & Hnew & Hrun).
  apply operator_new_Ret in Hnew as [-> ->].
  set (nb := replicate _ _ : list (slot T)) in *. set (wa := World _ _) in *.
  destruct (valid_ext w wa Hv eq_refl) as [Hva Hviewa].
  { intros b i blk _ Hb. by apply block_at_app_l. }
  pose proof (copy_to_ptr_blocks _ _ _ _ _ Hrun) as (_ & _ & Hfree & Hkept).
  apply (copy_to_ptr_Ret _ _ _ _ nb) in Hrun
    as (nb' & Hself & Hnb' & Hlen' & _ & Htake & _); [|done|apply block_at_app_new|].
  2:{ intros i Hi. apply (data_below_fresh w) in Hi; [lia|done]. }
  change (size_ (self wa)) with (size_ (self w)) in *.
  exists nb'. split; [done|]. split; [done|]. split.
  { rewrite Hlen'. unfold nb. rewrite length_replicate. lia. }
  split; [by rewrite Htake|]. split; [done|].
  intros b Hb Hown. rewrite Hkept by (done || lia). by apply block_at_app_old.
Qed.

(** X14.  A completed [reserve(n)] beyond the capacity, for a request
    whose byte count [n * sizeof(T)] is a [size_t]: the container is valid,
    in a new block; its old block is freed and no other block is
    touched. *)
Theorem reserve_valid w n w' :
  valid w = true -> capacity w < n -> n * sizeof < size_modulus ->
  reserve alloc_fails n w = Ret tt w' ->
  valid w' = true /\ begin_ w' = At (length (mem w)) 0 /\
  (forall b i, begin_ w = At b i -> block_at (mem w') b = None) /\
  (forall b, (b < length (mem w))%nat -> (forall i, begin_ w ≠ At b i) ->
             block_at (mem w') b = block_at (mem w) b).
Proof.
  unfold capacity, begin_. intros Hv Hn HnS Hrun.
  destruct (reserve_grown w n w' Hv Hn Hrun)
    as (nb' & Hself & Hnb' & Hlen & Htake & Hfree & Hkept).
  rewrite Hself. simpl. split; [|done].
  destruct (valid_view _ Hv) as (xs & Hview & Hlxs).
  eapply (valid_intro _ _ nb' xs); rewrite ?Hself; simpl; try done; try lia.
  - rewrite Hlen, wrap_small by done. apply N.div_mul. pose proof sizeof_pos. lia.
  - apply valid_inv in Hv as [(_ & ? & ?)|(_ & _ & _ & _ & _ & _ & _ & _ & _ & ? & _)]; lia.
  - by rewrite Htake.
Qed.

(** X15.  [reserve(n)] does not check the byte count [n * sizeof(T)]: when
    it exceeds [size_t], a completed call reports [capacity() = n] over a
    block of fewer than [n] slots, and the container is no longer
    valid. *)
Theorem reserve_overflow w n w' :
  valid w = true -> capacity w < n -> n < size_modulus ->
  size_modulus <= n * sizeof ->
  reserve alloc_fails n w = Ret tt w' ->
  capacity w' = n /\ size w' = size w /\ view w' = view w /\
  valid w' = false /\
  exists b blk, begin_ w' = At b 0 /\ block_at (mem w') b = Some blk /\
    N.of_nat (length blk) = wrap (n * sizeof) / sizeof /\
    N.of_nat (length blk) < n.
Proof.
  unfold capacity, size, begin_. intros Hv Hn HnM HnS Hrun.
  destruct (reserve_grown w n w' Hv Hn Hrun)
    as (nb' & Hself & Hnb' & Hlen & Htake & _).
  assert (wrap (n * sizeof) / sizeof < n) as Hshort.
  { pose proof sizeof_pos. apply N.Div0.div_lt_upper_bound.
    assert (wrap (n * sizeof) + size_modulus <= n * sizeof); [|lia].
    unfold wrap. pose proof (N.Div0.div_mod (n * sizeof) size_modulus) as Hdm.
    assert (1 <= n * sizeof / size_modulus); [|nia].
    apply N.div_le_lower_bound; [done|lia]. }
  rewrite Hself. simpl. split; [done|]. split; [done|]. split.
  { erewrite view_At; [|by rewrite Hself|done]. by rewrite Hself. }
  split.
  - destruct (valid w') eqn:Hv'; [|done]. exfalso.
    apply valid_inv in Hv' as [(Hd & _)|(b & blk & _ & Hd & Hblk & _ & _ & _ & Hl & _)];
      rewrite Hself in *; simpl in *; [done|].
    injection Hd as <-. rewrite Hnb' in Hblk. injection Hblk as <-. lia.
  - exists (length (mem w)), nb'. split; [done|]. split; [done|]. split; [done|]. lia.
Qed.

(** The copy loop when it raises: the copies made so far are destroyed. *)
Lemma copy_loop_Throw bd bs sblk k : forall i w w' cur e,
  block_at (mem w) bd = Some cur -> block_at (mem w) bs = Some sblk -> bd ≠ bs ->
  (forall t, (t < N.to_nat i)%nat -> is_Some (cur !! t ≫= payload)) ->
  try_for_up i k
    (fun i => v ← read (ptr_add (At bs 0) i); construct_at (ptr_add (At bd 0) i) v)
    (fun i e => destroy_all (At bd 0) i;; throw e) w = Throw e w' ->
  e = copy_failure /\
  exists cur' (j : nat) x,
    w' = upd w bd cur' /\ length cur' = length cur /\
    (N.to_nat i <= j < N.to_nat i + k)%nat /\
    sblk !! j ≫= payload = Some x /\ copy_throws x = true /\
    forall t, cur' !! t =
      if decide (t < j)%nat
      then Dead <$> (if decide (t < N.to_nat i)%nat
                     then cur !! t ≫= payload else sblk !! t ≫= payload)
      else cur !! t.
Proof.
  induction k as [|k IH]; intros i w w' cur e Hcur Hsrc Hne Hpre Hrun; [done|].
  cbn [try_for_up] in Hrun. rewrite !ptr_add_base in Hrun.
  unfold mbind at 1, M_bind at 1 in Hrun.
  rewrite (read_At _ _ _ _ Hsrc) in Hrun.
  destruct (sblk !! N.to_nat i ≫= payload) as [x|] eqn:Hx; [|done].
  destruct (decide (N.to_nat i < length cur)%nat) as [Hi|Hi];
    [|by rewrite (construct_at_oob _ _ _ _ _ Hcur) in Hrun by lia].
  rewrite (construct_at_At _ _ _ _ _ Hcur Hi) in Hrun.
  destruct (copy_throws x) eqn:Hthrow.
  - destruct (destroy_all_loop bd (N.to_nat i) 0 w cur Hcur) as (cur' & Hdes & Hlen & Hpt).
    { intros t Ht. apply Hpre. lia. }
    unfold mbind, M_bind, destroy_all in Hrun. rewrite Hdes in Hrun.
    injection Hrun as <- <-. split; [done|].
    exists cur', (N.to_nat i), x. repeat split; [done|lia|lia|done|done|].
    intros t. rewrite Hpt. repeat case_decide; (done || lia).
  - set (cur1 := <[N.to_nat i := Live x]> cur) in *.
    apply (IH _ _ _ cur1) in Hrun
      as (-> & cur' & j & y & -> & Hlen & Hj & Hy & Hty & Hpt);
      [|by eapply block_at_upd_eq|by rewrite block_at_upd_ne|done|].
    2:{ intros t Ht. unfold cur1.
        destruct (decide (t = N.to_nat i)) as [->|].
        - rewrite list_lookup_insert_eq by done. by eexists.
        - rewrite list_lookup_insert_ne by done. apply Hpre. lia. }
    split; [done|]. exists cur', j, y. rewrite upd_upd.
    unfold cur1 in Hlen. rewrite length_insert in Hlen.
    repeat split; [done|lia|lia|done|done|].
    intros t. rewrite Hpt. unfold cur1.
    destruct (decide (t = N.to_nat i)) as [->|].
    + rewrite list_lookup_insert_eq by done. simpl.
      repeat case_decide; try lia. by rewrite Hx.
    + rewrite list_lookup_insert_ne by done.
      repeat case_decide; (done || lia).
Qed.

(** X16.  [copy_and_construct] between two blocks.  When it completes, the
    first [n] slots of the destination hold live copies of the source's
    values.  When it raises, it has raised the error of the first element
    copy that failed, at an index [j < n], and has destroyed the [j]
    copies made before: no live object is left in them.  The rest of the
    destination, and the source, are as they were. *)
Theorem copy_and_construct_spec bd bs dst sblk n w :
  block_at (mem w) bd = Some dst -> block_at (mem w) bs = Some sblk -> bd ≠ bs ->
  match copy_and_construct (At bd 0) (At bs 0) n w with
  | Ret _ w' =>
      exists dst', w' = upd w bd dst' /\ length dst' = length dst /\
        forall t, dst' !! t =
          if decide (t < N.to_nat n)%nat then Live <$> (sblk !! t ≫= payload)
          else dst !! t
  | Throw e w' =>
      e = copy_failure /\
      exists dst' (j : nat) x, w' = upd w bd dst' /\ length dst' = length dst /\
        (j < N.to_nat n)%nat /\
        sblk !! j ≫= payload = Some x /\ copy_throws x = true /\
        forall t, dst' !! t =
          if decide (t < j)%nat then Dead <$> (sblk !! t ≫= payload)
          else dst !! t
  | Undef => True
  end.
Proof.
  intros Hdst Hsrc Hne. unfold copy_and_construct.
  destruct (try_for_up _ _ _ _ w) as [[] w'|e w'|] eqn:Hrun; [| |done].
  - eapply copy_loop_Ret in Hrun as (dst' & -> & Hlen & _ & Hpt); [|done..].
    exists dst'. split; [done|]. split; [done|].
    intros t. rewrite Hpt. repeat case_decide; (done || lia).
  - eapply copy_loop_Throw in Hrun
      as (-> & dst' & j & x & -> & Hlen & Hj & Hx & Hthrow & Hpt); [|done..|].
    2:{ intros t Ht. change (N.to_nat 0) with 0%nat in Ht. lia. }
    split; [done|]. exists dst', j, x.
    change (N.to_nat 0) with 0%nat in *.
    repeat split; [done|lia|done|done|].
    intros t. rewrite Hpt. repeat case_decide; (done || lia).
Qed.

End Growth.

(** ** [insert] that raises *)

Section InsertFailure.
Context {T : Type} `{!Element T}.
Variable alloc_fails : N -> bool.
Implicit Types (w : world T) (v : T) (blk cur : list (slot T)).

Lemma destroy_all_lengths p n w :
  match destroy_all p n w with
  | Ret _ w' => forall b, length <$> block_at (mem w') b = length <$> block_at (mem w) b
  | Throw _ _ => False
  | Undef => True
  end.
Proof.
  unfold destroy_all. generalize 0 as i. revert w.
  induction (N.to_nat n) as [|k IH]; intros w i; [done|].
  cbn [for_up]. unfold mbind at 1, M_bind at 1.
  pose proof (destroy_at_lengths (ptr_add p i) w) as H1.
  destruct (destroy_at _ w) as [[] w1| |]; [|done..].
  specialize (IH w1 (N.succ i)).
  destruct (for_up _ _ _ w1) as [[] w2| |]; [|done..].
  intros b. by rewrite IH, H1.
Qed.

Lemma copy_and_construct_lengths dst src n w :
  match copy_and_construct dst src n w with
  | Ret _ w' | Throw _ w' =>
      forall b, length <$> block_at (mem w') b = length <$> block_at (mem w) b
  | Undef => True
  end.
Proof.
  unfold copy_and_construct. generalize 0 as i. revert w.
  induction (N.to_nat n) as [|k IH]; intros w i; [done|].
  cbn [try_for_up]. unfold mbind at 1, M_bind at 1.
  pose proof (read_outcome (ptr_add src i) w) as Hr.
  destruct (read _ w) as [x w0| |]; [subst w0|done..].
  unfold construct_at at 1.
  destruct (store _ _ _) as [h'|] eqn:Hst; [|done].
  destruct (copy_throws x).
  - unfold mbind, M_bind.
    pose proof (destroy_all_lengths dst i w) as H2.
    by destruct (destroy_all _ _ w) as [[] w2| |].
  - specialize (IH (World (self w) h') (N.succ i)).
    pose proof (store_lengths _ _ _ _ Hst) as H1.
    destruct (try_for_up _ _ _ _ _) as [[] w2|e w2|]; [| |done];
      intros b; by rewrite IH, <-H1.
Qed.

(** An assignment, completed or not, changes no slot from live to
    destroyed or back. *)
Lemma assign_at_live bk i v w cur :
  block_at (mem w) bk = Some cur ->
  match assign_at (At bk i) v w with
  | Ret _ w' => exists cur', w' = upd w bk cur' /\ is_live <$> cur' = is_live <$> cur
  | Throw e w' =>
      e = assign_failure /\
      exists cur', w' = upd w bk cur' /\ is_live <$> cur' = is_live <$> cur
  | Undef => True
  end.
Proof.
  intros Hb. destruct (cur !! N.to_nat i) as [s|] eqn:Hs.
  2:{ unfold assign_at, load. rewrite Hb. simpl. by rewrite Hs. }
  rewrite (assign_at_At w bk i cur s v Hb Hs).
  destruct (assign_throws v); [split; [done|]|];
    (eexists; split; [done|]; rewrite list_fmap_insert;
     apply list_insert_id; rewrite list_lookup_fmap, Hs; by destruct s).
Qed.

Lemma shift_loop_live bk j k : forall i w cur,
  block_at (mem w) bk = Some cur ->
  match for_down i k
          (fun i => x ← read (ptr_add (At bk j) (i - 1)); assign_at (ptr_add (At bk j) i) x) w with
  | Ret _ w' => exists cur', w' = upd w bk cur' /\ is_live <$> cur' = is_live <$> cur
  | Throw e w' =>
      e = assign_failure /\
      exists cur', w' = upd w bk cur' /\ is_live <$> cur' = is_live <$> cur
  | Undef => True
  end.
Proof.
  induction k as [|k IH]; intros i w cur Hb.
  - exists cur. by rewrite upd_id.
  - cbn [for_down]. unfold mbind at 1, M_bind at 1. unfold mbind at 1, M_bind at 1.
    pose proof (read_outcome (ptr_add (At bk j) (i - 1)) w) as Hr.
    destruct (read _ w) as [x w0| |]; [subst w0|done..]. cbn [ptr_add].
    pose proof (assign_at_live bk (j + i) x w cur Hb) as Ha.
    destruct (assign_at _ x w) as [[] w1|e w1|].
    + destruct Ha as (cur1 & -> & Hp1).
      specialize (IH (N.pred i) (upd w bk cur1) cur1 ltac:(by eapply block_at_upd_eq)).
      destruct (for_down _ _ _ _) as [[] w2|e w2|]; [| |done].
      * destruct IH as (cur2 & -> & Hp2). exists cur2. rewrite upd_upd. split; congruence.
      * destruct IH as (-> & cur2 & -> & Hp2). split; [done|].
        exists cur2. rewrite upd_upd. split; congruence.
    + destruct Ha as (-> & cur1 & -> & Hp1). split; [done|]. by exists cur1.
    + done.
Qed.

(** [move_element] assigns to the slots of the container's block and
    constructs or destroys nothing; it raises the errors of the element
    type only. *)
Lemma move_element_live bk j cur from to w :
  data_ (self w) = At bk j -> block_at (mem w) bk = Some cur ->
  match move_element from to w with
  | Ret _ w' => exists cur', w' = upd w bk cur' /\ is_live <$> cur' = is_live <$> cur
  | Throw e w' =>
      (e = copy_failure \/ e = assign_failure) /\
      exists cur', w' = upd w bk cur' /\ is_live <$> cur' = is_live <$> cur
  | Undef => True
  end.
Proof.
  intros Hd Hb. unfold move_element. rewrite bind_assert.
  destruct (bool_decide _); [|done].
  case_decide; [|exists cur; by rewrite upd_id]. mstep. rewrite Hd.
  unfold mbind at 1, M_bind at 1.
  pose proof (read_outcome (ptr_add (At bk j) from) w) as Hr.
  destruct (read _ w) as [x w0| |]; [subst w0|done..].
  destruct (copy_throws x).
  { split; [by left|]. exists cur. by rewrite upd_id. }
  mstep. unfold mbind at 1, M_bind at 1.
  pose proof (shift_loop_live bk j (N.to_nat (from - to)) from w cur Hb) as Hl.
  destruct (for_down _ _ _ w) as [[] w1|e w1|]; [| |done].
  - destruct Hl as (cur1 & -> & Hp1). cbn [ptr_add].
    pose proof (assign_at_live bk (j + to) x (upd w bk cur1) cur1
                  ltac:(by eapply block_at_upd_eq)) as Ha.
    destruct (assign_at _ x _) as [[] w2|e w2|]; [| |done].
    + destruct Ha as (cur2 & -> & Hp2). exists cur2. rewrite upd_upd. split; congruence.
    + destruct Ha as (-> & cur2 & -> & Hp2). split; [by right|].
      exists cur2. rewrite upd_upd. split; congruence.
  - destruct Hl as (-> & cur1 & -> & Hp1). split; [by right|]. by exists cur1.
Qed.

Lemma forallb_live_pattern (l l' : list (slot T)) : forall n,
  is_live <$> l = is_live <$> l' ->
  forallb is_live (take n l) = forallb is_live (take n l').
Proof.
  revert l'. induction l as [|s l IH]; intros [|s' l'] n Hp; try done.
  injection Hp as Hs Hp. destruct n as [|n]; [done|]. simpl.
  by rewrite Hs, (IH l' n Hp).
Qed.

(** The invariant depends on the block of the container through the
    length of the block and the liveness of its slots only. *)
Lemma valid_live_pattern w bk j cur cur' :
  data_ (self w) = At bk j -> block_at (mem w) bk = Some cur ->
  is_live <$> cur' = is_live <$> cur ->
  valid (upd w bk cur') = valid w.
Proof.
  intros Hd Hb Hp. unfold valid. simpl. rewrite Hd, Hb.
  rewrite block_at_insert_eq by eauto using block_at_lt.
  assert (length cur' = length cur) as ->.
  { apply (f_equal length) in Hp. by rewrite !length_fmap in Hp. }
  by rewrite (forallb_live_pattern cur' cur).
Qed.

(** What a [copy_to_ptr] that raises leaves of the blocks. *)
Lemma copy_to_ptr_Throw_blocks cap bn j w e w' :
  (forall i, data_ (self w) ≠ At bn i) ->
  copy_to_ptr cap (At bn j) w = Throw e w' ->
  length (mem w') = length (mem w) /\
  length <$> block_at (mem w') bn = length <$> block_at (mem w) bn /\
  (forall b, b ≠ bn -> (forall i, data_ (self w) ≠ At b i) ->
             block_at (mem w') b = block_at (mem w) b).
Proof.
  intros Hown Hrun. unfold copy_to_ptr in Hrun.
  apply bind_Throw in Hrun as [Hrun|([] & w1 & _ & Hrun)].
  2:{ exfalso. mstep_in Hrun.
      apply bind_Throw in Hrun as [Hrun|([] & w2 & _ & Hrun)].
      - match type of Hrun with destroy_all ?p ?n ?w0 = _ =>
          pose proof (destroy_all_self p n w0) as Ho end.
        by rewrite Hrun in Ho.
      - match type of Hrun with operator_delete ?p ?w0 = _ =>
          pose proof (operator_delete_outcome p w0) as Ho end.
        by rewrite Hrun in Ho. }
  apply try_catch_Throw in Hrun as (e0 & w1 & Hcopy & Hh).
  mstep_in Hcopy.
  pose proof (copy_and_construct_outcome bn j (data_ (self w)) (size_ (self w)) w) as Hc.
  pose proof (copy_and_construct_lengths (At bn j) (data_ (self w)) (size_ (self w)) w) as Hcl.
  rewrite Hcopy in Hc, Hcl. destruct Hc as (_ & Hs1 & Hl1 & Ho1 & _).
  mstep_in Hh. rewrite Hs1 in Hh.
  apply bind_Throw in Hh as [Hh|([] & w2 & Hdes & Hh)].
  { match type of Hh with destroy_all ?p ?n ?w0 = _ =>
      pose proof (destroy_all_self p n w0) as Ho end.
    by rewrite Hh in Ho. }
  apply bind_Throw in Hh as [Hh|([] & w3 & Hdel & Hh)].
  { match type of Hh with operator_delete ?p ?w0 = _ =>
      pose proof (operator_delete_outcome p w0) as Ho end.
    by rewrite Hh in Ho. }
  mstep_in Hh. injection Hh as _ <-. simpl.
  apply operator_delete_Ret in Hdel as (_ & Hl3 & _ & Ho3).
  assert (length (mem w2) = length (mem w1) /\
          forall b, (forall i, data_ (self w) ≠ At b i) ->
                    block_at (mem w2) b = block_at (mem w1) b) as (Hl2 & Ho2).
  { destruct (data_ (self w)) as [|bo i] eqn:Hd.
    - match type of Hdes with destroy_all Null ?n ?w0 = _ =>
        pose proof (destroy_all_Null n w0) as Ho end.
      rewrite Hdes in Ho. by subst w2.
    - match type of Hdes with destroy_all _ ?n ?w0 = _ =>
        pose proof (destroy_all_outcome bo i n w0) as Ho end.
      rewrite Hdes in Ho. destruct Ho as (? & ? & Ho & _).
      split; [done|]. intros b Hb. apply Ho. intros ->. by eapply Hb. }
  split; [congruence|]. split.
  - rewrite Ho3, Ho2, Hcl by done. done.
  - intros b Hbn Hb. rewrite Ho3, Ho2, Ho1 by done. done.
Qed.

(** An [insert] that raises. *)
Lemma insert_Throw w k e ex w' :
  valid w = true -> k <= size_ (self w) ->
  insert alloc_fails (ptr_add (begin_ w) k) e w = Throw ex w' ->
  valid w' = true /\
  (ex = bad_alloc -> w' = w) /\
  (size_ (self w') = size_ (self w) \/ size_ (self w') = 0 \/
   size_ (self w') = size_ (self w) + 1) /\
  (forall b, (b < length (mem w))%nat -> (forall i, data_ (self w) ≠ At b i) ->
             block_at (mem w') b = block_at (mem w) b).
Proof.
  intros Hv Hk Hrun. unfold insert in Hrun.
  destruct (ptr_diff_begin _ _ Hv Hk) as [Hpd HkM]. rewrite Hpd in Hrun.
  rewrite to_size_t_of_N in Hrun by done.
  apply bind_Throw in Hrun as [Hmain|(? & w1 & _ & Hret)]; [|by mstep_in Hret].
  mstep_in Hmain.
  destruct (valid_view _ Hv) as (xs & Hview & Hlxs).
  assert (N.to_nat (size_ (self w)) = length xs) as Hnx by lia.
  destruct (decide (size_ (self w) = capacity_ (self w))) as [Hfull|Hroom].
  - unfold resize_and_insert in Hmain.
    apply bind_Throw in Hmain as [Hnew|(ptr & wa & Hnew & Hmain)].
    { apply operator_new_Throw in Hnew as [-> ->]. split; [done|]. split; [done|].
      split; [by left|done]. }
    apply operator_new_Ret in Hnew as [-> ->]. mstep_in Hmain.
    set (bn := length (mem w)) in *. set (nc := N.max 1 _) in *.
    set (nb := replicate _ _ : list (slot T)) in *.
    set (wa := World _ _) in *.
    assert (block_at (mem wa) bn = Some nb) as Hnb by apply block_at_app_new.
    destruct (valid_ext w wa Hv eq_refl) as [Hva Hviewa].
    { intros b i blk _ Hb. by apply block_at_app_l. }
    assert (forall i, data_ (self w) ≠ At bn i) as Hown.
    { intros i Hi. apply (data_below_fresh w) in Hi; [unfold bn in Hi; lia|done]. }
    rewrite ptr_add_base in Hmain.
    apply bind_Throw in Hmain as [Hcons|([] & wc & Hcons & Hmain)].
    { pose proof (construct_at_outcome bn (size_ (self w)) e wa) as Hc.
      rewrite Hcons in Hc. destruct Hc as [-> ->].
      split; [done|]. split; [done|]. split; [by left|].
      intros b Hb _. by apply block_at_app_old. }
    destruct (decide (N.to_nat (size_ (self w)) < length nb)%nat) as [Hn|Hn];
      [|by rewrite (construct_at_oob _ _ _ _ _ Hnb) in Hcons by lia].
    rewrite (construct_at_At _ _ _ _ _ Hnb Hn) in Hcons.
    destruct (copy_throws e); [done|]. injection Hcons as <-.
    set (cur1 := <[_ := _]> nb) in *.
    assert (nc * sizeof < size_modulus /\ length nb = N.to_nat nc) as [HncS Hlnb].
    { unfold nb. rewrite length_replicate.
      destruct (grown_block_exact (capacity_ (self w)) sizeof) as [H1 H2];
        [apply sizeof_pos|apply sizeof_fits| |].
      - unfold nb in Hn. rewrite length_replicate in Hn. unfold nc in Hn. lia.
      - split; [done|]. f_equal. done. }
    assert (0 < nc) as Hnc0 by (unfold nc; lia).
    assert (block_at (mem (upd wa bn cur1)) bn = Some cur1) as Hcur1
      by (by eapply block_at_upd_eq).
    assert (forall b, (b < bn)%nat ->
              block_at (mem (upd wa bn cur1)) b = block_at (mem w) b) as Hold.
    { intros b Hb. rewrite block_at_upd_ne by lia. by apply block_at_app_old. }
    apply bind_Throw in Hmain as [Hreloc|([] & w2 & Hreloc & Hmain)].
    + apply try_catch_Throw in Hreloc as (e0 & w3 & Hreloc & Hh).
      pose proof (copy_to_ptr_Throw _ _ _ _ _ Hreloc) as [-> Hself3].
      apply copy_to_ptr_Throw_blocks in Hreloc as (Hl3 & Hlen3 & Ho3); [|done].
      apply bind_Throw in Hh as [Hh|([] & w4 & Hdes & Hh)].
      { pose proof (destroy_at_outcome bn (size_ (self w)) w3) as Ho.
        simpl in Hh. by rewrite Hh in Ho. }
      injection Hh as <- <-. simpl in Hdes.
      pose proof (destroy_at_outcome bn (size_ (self w)) w3) as Ho4.
      pose proof (destroy_at_lengths (At bn (size_ (self w))) w3) as Hlen4.
      rewrite Hdes in Ho4, Hlen4. destruct Ho4 as (Hs4 & Hl4 & Ho4 & _).
      specialize (Hlen4 bn). rewrite Hlen3, Hcur1 in Hlen4.
      destruct (block_at (mem w4) bn) as [blk4|] eqn:Hblk4; [|done].
      injection Hlen4 as Hlen4. unfold cur1 in Hlen4. rewrite length_insert in Hlen4.
      split.
      { eapply (valid_intro _ bn blk4 []); rewrite ?Hs4, ?Hself3; simpl;
          try done; lia. }
      split; [done|]. split; [right; left; by rewrite Hs4, Hself3|].
      intros b Hb Hbo. rewrite Ho4, Ho3 by (done || unfold bn; lia). by apply Hold.
    + apply try_catch_Ret in Hreloc; [|intros; apply throw_not_Ret].
      pose proof (copy_to_ptr_blocks _ _ _ _ _ Hreloc) as (_ & _ & _ & Ho2).
      assert (forall b i blk, data_ (self w) = At b i -> block_at (mem w) b = Some blk ->
                block_at (mem (upd wa bn cur1)) b = Some blk) as Hpres.
      { intros b i blk _ Hb. pose proof (block_at_lt _ _ _ Hb).
        rewrite block_at_upd_ne by (unfold bn; lia). by apply block_at_app_l. }
      destruct (valid_ext w (upd wa bn cur1) Hv eq_refl Hpres) as [Hv1 Hview1].
      apply (copy_to_ptr_Ret _ _ _ _ cur1) in Hreloc
        as (nb' & Hself2 & Hnb' & Hlen' & _ & Htake & Hdrop & _); [|done..].
      change (size_ (self (upd wa bn cur1))) with (size_ (self w)) in *.
      mstep_in Hmain. rewrite Hself2 in Hmain. simpl in Hmain.
      assert (nc < size_modulus) as HncM.
      { unfold nc. pose proof (wrap_lt (capacity_ (self w) * 2)).
        unfold size_modulus in *. lia. }
      rewrite wrap_small in Hmain by lia.
      rewrite sz_sub_small in Hmain by lia.
      simpl in Hview1. rewrite Hview1, Hview in Htake.
      set (w3 := World _ (mem w2)) in Hmain.
      assert (valid w3 = true) as Hv3.
      { eapply (valid_intro _ bn nb' (xs ++ [e])); unfold w3; simpl; try done.
        - unfold cur1 in Hlen'. rewrite length_insert in Hlen'. lia.
        - lia.
        - replace (N.to_nat (size_ (self w) + 1)) with (S (length xs)) by lia.
          rewrite fmap_app. apply take_S_snoc; [by rewrite <-Hnx|by rewrite length_fmap|].
          rewrite <-Hnx.
          rewrite <-(Nat.add_0_r (N.to_nat _)), <-lookup_drop, Hdrop, lookup_drop, Nat.add_0_r.
          unfold cur1. by rewrite list_lookup_insert_eq. }
      pose proof (move_element_live bn 0 nb' (size_ (self w) + 1 - 1) k w3 eq_refl Hnb') as Hm.
      rewrite Hmain in Hm. destruct Hm as (Hex & cur' & -> & Hpat).
      split; [by rewrite (valid_live_pattern w3 bn 0 nb')|].
      split; [by destruct Hex as [-> | ->]|]. split; [by right; right|].
      intros b Hb Hbo. rewrite block_at_upd_ne by (unfold bn in *; lia).
      unfold w3. simpl. rewrite Ho2 by (done || unfold bn in *; lia). by apply Hold.
  - apply valid_inv in Hv as Hv'.
    destruct Hv' as [(Hd & Hn & Hc)|(bo & blk & xs' & Hd & Hblk & Hc0 & HcM & HcS & Hlen & Hnc & Hxs)];
      [congruence|].
    rewrite (view_At _ _ _ Hd Hblk) in Hview.
    mstep_in Hmain. rewrite Hd in Hmain. rewrite ptr_add_base in Hmain.
    apply bind_Throw in Hmain as [Hcons|([] & wc & Hcons & Hmain)].
    { pose proof (construct_at_outcome bo (size_ (self w)) e w) as Hc.
      rewrite Hcons in Hc. destruct Hc as [-> ->].
      split; [done|]. split; [done|]. split; [by left|done]. }
    rewrite (construct_at_At _ _ _ _ _ Hblk) in Hcons by lia.
    destruct (copy_throws e); [done|]. injection Hcons as <-.
    set (cur1 := <[_ := _]> blk) in *.
    mstep_in Hmain. unfold upd in Hmain. mstep_in Hmain.
    rewrite wrap_small in Hmain by lia.
    rewrite sz_sub_small in Hmain by lia.
    set (w3 := World _ _) in Hmain.
    assert (block_at (mem w3) bo = Some cur1) as Hcur1.
    { unfold w3. simpl. apply block_at_insert_eq. eauto using block_at_lt. }
    assert (valid w3 = true) as Hv3.
    { eapply (valid_intro _ bo cur1 (xs ++ [e])); unfold w3; simpl; rewrite ?Hd; try done.
      - unfold cur1. rewrite length_insert. lia.
      - lia.
      - replace (N.to_nat (size_ (self w) + 1)) with (S (length xs)) by lia.
        rewrite fmap_app. apply take_S_snoc; [|by rewrite length_fmap|].
        + unfold cur1. rewrite take_insert_ge by lia. by rewrite <-Hnx.
        + unfold cur1. rewrite Hnx, list_lookup_insert_eq; [done|lia]. }
    pose proof (move_element_live bo 0 cur1 (size_ (self w) + 1 - 1) k w3
                  ltac:(by unfold w3; simpl; rewrite Hd) Hcur1) as Hm.
    rewrite Hmain in Hm. destruct Hm as (Hex & cur' & -> & Hpat).
    split.
    { rewrite (valid_live_pattern w3 bo 0 cur1); try done. }
    split; [by destruct Hex as [-> | ->]|]. split; [by right; right|].
    intros b Hb Hbo. rewrite block_at_upd_ne by (intros ->; by eapply Hbo).
    unfold w3. simpl. apply block_at_insert_ne. intros ->. by eapply Hbo.
Qed.

(** X10.  The guarantee of an [insert] that raises, on a valid container
    at a position in range: the container is valid afterwards, with the
    size before the call, that size plus one, or no element at all; no
    block of another owner has been touched; and after the error of the
    allocator nothing has changed. *)
Theorem insert_failure w k e ex w' :
  valid w = true -> k <= size w ->
  insert alloc_fails (ptr_add (begin_ w) k) e w = Throw ex w' ->
  valid w' = true /\
  (size w' = size w \/ size w' = 0 \/ size w' = size w + 1) /\
  (ex = bad_alloc -> w' = w) /\
  (forall b, (b < length (mem w))%nat -> (forall i, begin_ w ≠ At b i) ->
             block_at (mem w') b = block_at (mem w) b).
Proof.
  unfold size, begin_. intros Hv Hk Hrun.
  by destruct (insert_Throw w k e ex w' Hv Hk Hrun) as (? & ? & ? & ?).
Qed.

(** X18.  A copy is independent of its source: after a copy construction,
    an [insert] into the source, completed or not, leaves the copy valid
    with the elements it was given. *)
Theorem copy_independent w wc k e :
  valid w = true -> k <= size w ->
  vector_copy alloc_fails (self w) w = Ret tt wc ->
  match insert alloc_fails (ptr_add (begin_ w) k) e (World (self w) (mem wc)) with
  | Ret _ w2 | Throw _ w2 =>
      valid (World (self wc) (mem w2)) = true /\
      view (World (self wc) (mem w2)) = view w
  | Undef => True
  end.
Proof.
  unfold size. intros Hv Hk Hcopy.
  assert (World (self w) (mem w) = w) as Hw by (by destruct w).
  apply (vector_copy_Ret _ (self w)) in Hcopy as (Hvc & Hviewc & _ & Hfresh & Hpres);
    [|by rewrite Hw].
  rewrite Hw in Hviewc.
  destruct (valid_ext w (World (self w) (mem wc)) Hv eq_refl) as [Hvs _].
  { intros b i blk _ Hb. by apply Hpres. }
  assert (forall w2,
    (forall b, (b < length (mem wc))%nat -> (forall i, data_ (self w) ≠ At b i) ->
               block_at (mem w2) b = block_at (mem wc) b) ->
    valid (World (self wc) (mem w2)) = true /\
    view (World (self wc) (mem w2)) = view w) as Hkeep.
  { intros w2 Hframe. rewrite <-Hviewc.
    apply (valid_ext wc (World (self wc) (mem w2)) Hvc eq_refl).
    intros b i blk Hd Hb. simpl. rewrite Hframe; [done|eauto using block_at_lt|].
    intros j Hj. apply Hfresh in Hd as ->.
    apply (data_below_fresh w) in Hj; [lia|done]. }
  pose proof (insert_storage alloc_fails (World (self w) (mem wc)) k e) as HR.
  pose proof (insert_Throw (World (self w) (mem wc)) k e) as HT.
  unfold begin_ in *. simpl in *.
  destruct (insert _ _ _ _) as [r w2|ex w2|]; [| |done].
  - destruct (HR r w2 Hvs Hk eq_refl) as (Hframe & _). by apply Hkeep.
  - destruct (HT ex w2 Hvs Hk eq_refl) as (_ & _ & _ & Hframe). by apply Hkeep.
Qed.

(** From the capacities reached by doubling from nothing, [push_back]
    leads to such capacities only. *)
Lemma push_all_capacity xs : forall w w',
  valid w = true ->
  (size_ (self w) = 0 /\ capacity_ (self w) = 0 \/
   exists j : N, capacity_ (self w) = 2 ^ j /\ 2 ^ j < 2 * size_ (self w)) ->
  push_all alloc_fails xs w = Ret tt w' ->
  valid w' = true /\
  size_ (self w') = size_ (self w) + N.of_nat (length xs) /\
  (size_ (self w') = 0 /\ capacity_ (self w') = 0 \/
   exists j : N, capacity_ (self w') = 2 ^ j /\ 2 ^ j < 2 * size_ (self w')).
Proof.
  induction xs as [|x xs IH]; intros w w' Hv Hinv Hrun.
  - injection Hrun as <-. simpl. split; [done|]. split; [lia|done].
  - cbn [push_all] in Hrun. apply bind_Ret in Hrun as ([] & w1 & Hpush & Hrun).
    unfold push_back in Hpush. apply bind_Ret in Hpush as (r & w1' & Hins & Hret).
    injection Hret as ->. unfold end_ in Hins.
    destruct (valid_view _ Hv) as (ys & Hview & Hlen).
    pose proof (insert_storage alloc_fails w (size_ (self w)) x r w1 Hv ltac:(lia) Hins)
      as (_ & Hroom & Hfull).
    apply (insert_Ret _ _ _ _ _ _ ys) in Hins as (Hv1 & Hsz1 & _); [|done|done|lia].
    apply IH in Hrun as (Hv' & Hsz' & Hinv'); [|done|].
    + split; [done|]. split; [|done]. rewrite Hsz', Hsz1. simpl length. lia.
    + right. destruct (decide (size_ (self w) = capacity_ (self w))) as [Heq|Hne].
      * destruct (Hfull Heq) as (_ & -> & _). rewrite Hsz1.
        destruct Hinv as [[-> ->]|(j & Hc & Hj)].
        -- exists 0. simpl. split; [done|]. simpl. lia.
        -- exists (N.succ j). rewrite Hc, N.pow_succ_r'.
           assert (0 < 2 ^ j) by (apply N.neq_0_lt_0, N.pow_nonzero; lia).
           split; [lia|]. lia.
      * destruct (Hroom Hne) as (_ & -> & _). rewrite Hsz1.
        destruct Hinv as [[? ?]|(j & Hc & Hj)]; [congruence|].
        exists j. split; [done|]. lia.
Qed.

(** X17.  Geometric growth: after a completed sequence of [push_back]
    calls on an empty container without storage, [capacity()] is the
    smallest power of two that is at least [size()]. *)
Theorem push_back_growth xs w' :
  xs ≠ [] ->
  push_all alloc_fails xs fresh_world = Ret tt w' ->
  exists j : N,
    capacity w' = 2 ^ j /\
    size w' = N.of_nat (length xs) /\
    size w' <= 2 ^ j /\ 2 ^ j < 2 * size w'.
Proof.
  unfold capacity, size. intros Hne Hrun.
  apply push_all_capacity in Hrun as (Hv & Hsz & Hinv); [|done|by left].
  simpl in Hsz.
  destruct Hinv as [[Hz _]|(j & Hc & Hj)].
  { destruct xs; [done|]. simpl in Hsz. lia. }
  exists j. split; [done|]. split; [lia|]. split; [|done].
  rewrite <-Hc.
  apply valid_inv in Hv as [(_ & -> & ->)|(_ & _ & _ & _ & _ & _ & _ & _ & _ & ? & _)]; lia.
Qed.

End InsertFailure.

(** ** [insert] has a defined result *)

Section InsertDefined.
Context {T : Type} `{!Element T}.
Variable alloc_fails : N -> bool.
Implicit Types (w : world T) (v : T) (blk cur : list (slot T)).

Lemma live_at cur (t : nat) :
  (is_live <$> cur) !! t = Some true -> exists x, cur !! t = Some (Live x).
Proof.
  rewrite list_lookup_fmap. destruct (cur !! t) as [[|x|x]|]; try done. by exists x.
Qed.

Lemma shift_loop_defined bk k : forall i w cur,
  block_at (mem w) bk = Some cur -> (k <= N.to_nat i)%nat ->
  (forall t, (t <= N.to_nat i)%nat -> (is_live <$> cur) !! t = Some true) ->
  for_down i k
    (fun i => x ← read (ptr_add (At bk 0) (i - 1)); assign_at (ptr_add (At bk 0) i) x) w
    ≠ Undef.
Proof.
  induction k as [|k IH]; intros i w cur Hb Hk Hlive; [done|].
  cbn [for_down]. unfold mbind at 1, M_bind at 1. unfold mbind at 1, M_bind at 1.
  rewrite !ptr_add_base, (read_At _ _ _ _ Hb).
  destruct (live_at cur (N.to_nat (i - 1)) ltac:(apply Hlive; lia)) as (x & ->).
  destruct (live_at cur (N.to_nat i) ltac:(apply Hlive; lia)) as (y & Hy).
  simpl. rewrite (assign_at_At _ _ _ _ _ _ Hb Hy).
  destruct (assign_throws x); [done|]. simpl.
  apply (IH _ _ (<[N.to_nat i := Live x]> cur)); [by eapply block_at_upd_eq|lia|].
  intros t Ht. rewrite list_fmap_insert, list_insert_id; [apply Hlive; lia|].
  by rewrite list_lookup_fmap, Hy.
Qed.

Lemma move_element_defined bk cur from to w :
  data_ (self w) = At bk 0 -> block_at (mem w) bk = Some cur -> to <= from ->
  (forall t, (t <= N.to_nat from)%nat -> (is_live <$> cur) !! t = Some true) ->
  move_element from to w ≠ Undef.
Proof.
  intros Hd Hb Hle Hlive. unfold move_element. rewrite bind_assert.
  rewrite bool_decide_true by done. case_decide; [|done]. mstep. rewrite Hd.
  unfold mbind at 1, M_bind at 1. rewrite !ptr_add_base, (read_At _ _ _ _ Hb).
  destruct (live_at cur (N.to_nat from) ltac:(apply Hlive; lia)) as (x & ->). simpl.
  destruct (copy_throws x); [done|]. mstep. unfold mbind at 1, M_bind at 1.
  pose proof (shift_loop_defined bk (N.to_nat (from - to)) from w cur Hb ltac:(lia) Hlive) as Hdef.
  pose proof (shift_loop_live bk 0 (N.to_nat (from - to)) from w cur Hb) as Hl.
  destruct (for_down _ _ _ w) as [[] w1|e w1|]; [|done..].
  destruct Hl as (cur1 & -> & Hp1).
  destruct (live_at cur1 (N.to_nat to)) as (y & Hy); [rewrite Hp1; apply Hlive; lia|].
  rewrite (assign_at_At _ _ _ cur1 _ _ ltac:(by eapply block_at_upd_eq) Hy).
  by destruct (assign_throws x).
Qed.

Lemma valid_live w bk cur :
  valid w = true -> data_ (self w) = At bk 0 -> block_at (mem w) bk = Some cur ->
  forall t, (t < N.to_nat (size_ (self w)))%nat -> (is_live <$> cur) !! t = Some true.
Proof.
  intros Hv Hd Hb t Ht.
  apply valid_inv in Hv as [(Hd' & _)|(bo & blk & xs & Hd' & Hblk & _ & _ & _ & Hlen & Hnc & Hxs)];
    [congruence|].
  rewrite Hd in Hd'. injection Hd' as <-. rewrite Hb in Hblk. injection Hblk as <-.
  assert (length xs = N.to_nat (size_ (self w))) as Hlx.
  { apply (f_equal length) in Hxs. rewrite length_take, length_fmap in Hxs. lia. }
  rewrite list_lookup_fmap, (take_live_lookup _ _ _ _ Hxs) by lia.
  destruct (xs !! t) eqn:Hx; [done|]. apply lookup_ge_None in Hx. lia.
Qed.

(** [copy_to_ptr] into a block with room for the elements: it completes or
    raises, and when it raises the slots of the new block past the
    elements are as they were. *)
Lemma copy_to_ptr_outcome cap bn nb w :
  valid w = true -> block_at (mem w) bn = Some nb ->
  (forall i, data_ (self w) ≠ At bn i) ->
  (N.to_nat (size_ (self w)) <= length nb)%nat ->
  match copy_to_ptr cap (At bn 0) w with
  | Ret _ _ => True
  | Throw _ w' =>
      exists nb', block_at (mem w') bn = Some nb' /\
        forall t, (N.to_nat (size_ (self w)) <= t)%nat -> nb' !! t = nb !! t
  | Undef => False
  end.
Proof.
  intros Hv Hnb Hown Hfit. unfold copy_to_ptr.
  unfold mbind at 1, M_bind at 1. unfold try_catch at 1. rewrite !bind_gets.
  apply valid_inv in Hv as Hv'.
  destruct Hv' as [(Hd & Hn & Hc)|(bo & blk & xs & Hd & Hblk & Hc0 & HcM & HcS & Hlen & Hnc & Hxs)].
  - rewrite Hd, Hn. unfold copy_and_construct. change (N.to_nat 0) with 0%nat.
    cbn [try_for_up]. unfold mret at 1, M_ret at 1. mstep. rewrite Hd, Hn.
    unfold mbind, M_bind. by rewrite destroy_all_0.
  - rewrite Hd. assert (bn ≠ bo) as Hne by (intros ->; by eapply Hown).
    assert (forall t, (t < N.to_nat (size_ (self w)))%nat -> is_Some (blk !! t ≫= payload))
      as Hpay.
    { intros t Ht. eapply live_prefix_payload; [done|lia..]. }
    assert (forall nb1 c w1, w1 = World c (mem (upd w bn nb1)) ->
              exists blk',
                destroy_all (At bo 0) (size_ (self w)) w1 =
                  Ret tt (upd w1 bo blk') /\
                operator_delete (At bo 0) (upd w1 bo blk') =
                  Ret tt (World c (<[bo := None]> (mem (upd w1 bo blk'))))) as Hrest.
    { intros nb1 c w1 ->.
      assert (block_at (mem (World c (mem (upd w bn nb1)))) bo = Some blk) as Hblk1
        by (simpl; by rewrite block_at_insert_ne).
      destruct (destroy_all_loop bo (N.to_nat (size_ (self w))) 0 _ blk Hblk1)
        as (blk' & Hdes & _); [intros t Ht; apply Hpay; lia|].
      exists blk'. split; [done|].
      by erewrite operator_delete_At by (by eapply block_at_upd_eq). }
    pose proof (copy_loop_defined bn bo blk (N.to_nat (size_ (self w))) 0 w nb
                  Hnb Hblk Hne ltac:(intros t Ht; change (N.to_nat 0) with 0%nat in Ht; lia)
                  ltac:(intros t Ht; apply Hpay; lia) ltac:(lia)) as Hdef.
    unfold copy_and_construct.
    destruct (try_for_up _ _ _ _ w) as [[] w1|e w1|] eqn:Hcopy; [| |done].
    + eapply copy_loop_Ret in Hcopy as (nb1 & -> & _); [|done..].
      mstep. change (self (upd w bn nb1)) with (self w). rewrite Hd.
      destruct (Hrest nb1 (Vec (At bn 0) (size_ (self w)) cap) _ eq_refl)
        as (blk' & Hdes & Hdel).
      unfold mbind, M_bind. by rewrite Hdes, Hdel.
    + eapply copy_loop_Throw in Hcopy
        as (-> & nb1 & j & x & -> & Hlen1 & Hj & _ & _ & Hpt); [|done..|].
      2:{ intros t Ht. change (N.to_nat 0) with 0%nat in Ht. lia. }
      mstep. change (self (upd w bn nb1)) with (self w). rewrite Hd.
      destruct (Hrest nb1 (Vec (At bn 0) (size_ (self w)) cap) _ eq_refl)
        as (blk' & Hdes & Hdel).
      unfold mbind at 1, M_bind at 1. rewrite Hdes.
      unfold mbind at 1, M_bind at 1. rewrite Hdel. mstep.
      unfold throw. exists nb1. split.
      * unfold upd. simpl. rewrite !block_at_insert_ne by done.
        apply block_at_insert_eq. eauto using block_at_lt.
      * intros t Ht. rewrite Hpt. change (N.to_nat 0) with 0%nat in Hj.
        by rewrite decide_False by lia.
Qed.

(** X22.  On a valid container, at a position in range, [insert] has a
    defined result, provided the byte count of the doubled capacity is a
    [size_t] when the container is full: it completes or raises, and
    reads no slot without an object and none outside a block. *)
Theorem insert_defined w k e :
  valid w = true -> k <= size w ->
  (size w = capacity w -> N.max 1 (2 * capacity w) * sizeof < size_modulus) ->
  insert alloc_fails (ptr_add (begin_ w) k) e w ≠ Undef.
Proof.
  unfold size, capacity. intros Hv Hk Hbytes. unfold insert.
  destruct (ptr_diff_begin _ _ Hv Hk) as [Hpd HkM]. rewrite Hpd.
  rewrite to_size_t_of_N by done.
  unfold mbind at 1, M_bind at 1.
  match goal with |- match ?m w with _ => _ end ≠ _ => assert (m w ≠ Undef) as Hmain end.
  2:{ match goal with |- match ?m with _ => _ end ≠ _ => by destruct m end. }
  mstep.
  destruct (valid_view _ Hv) as (xs & Hview & Hlxs).
  assert (N.to_nat (size_ (self w)) = length xs) as Hnx by lia.
  destruct (decide (size_ (self w) = capacity_ (self w))) as [Hfull|Hroom].
  - specialize (Hbytes Hfull). pose proof sizeof_pos as HS.
    assert (capacity_ (self w) * 2 < size_modulus) as H2c by nia.
    unfold resize_and_insert. unfold mbind at 1, M_bind at 1, operator_new at 1.
    destruct (alloc_fails _); [done|]. mstep.
    rewrite (wrap_small (capacity_ (self w) * 2)) by done.
    replace (capacity_ (self w) * 2) with (2 * capacity_ (self w)) by lia.
    set (nc := N.max 1 _) in *. rewrite (wrap_small (nc * sizeof)) by done.
    rewrite N.div_mul by lia.
    set (bn := length (mem w)). set (nb := replicate _ _ : list (slot T)).
    set (wa := World _ _).
    assert (block_at (mem wa) bn = Some nb) as Hnb by apply block_at_app_new.
    assert (length nb = N.to_nat nc) as Hlnb by apply length_replicate.
    assert (size_ (self w) < nc) as Hnnc by (unfold nc; lia).
    rewrite ptr_add_base. unfold mbind at 1, M_bind at 1.
    rewrite (construct_at_At _ _ _ _ _ Hnb) by lia.
    destruct (copy_throws e); [done|].
    set (cur1 := <[_ := _]> nb).
    assert (forall b i blk, data_ (self w) = At b i -> block_at (mem w) b = Some blk ->
              block_at (mem (upd wa bn cur1)) b = Some blk) as Hpres.
    { intros b i blk _ Hb. pose proof (block_at_lt _ _ _ Hb).
      rewrite block_at_upd_ne by (unfold bn; lia). by apply block_at_app_l. }
    destruct (valid_ext w (upd wa bn cur1) Hv eq_refl Hpres) as [Hv1 Hview1].
    assert (forall i, data_ (self w) ≠ At bn i) as Hown.
    { intros i Hi. apply (data_below_fresh w) in Hi; [unfold bn in Hi; lia|done]. }
    assert (block_at (mem (upd wa bn cur1)) bn = Some cur1) as Hcur1
      by (by eapply block_at_upd_eq).
    pose proof (copy_to_ptr_outcome nc bn cur1 (upd wa bn cur1) Hv1 Hcur1 Hown
                  ltac:(unfold cur1; rewrite length_insert; simpl; lia)) as Hout.
    unfold mbind at 1, M_bind at 1. unfold try_catch at 1.
    destruct (copy_to_ptr nc (At bn 0) (upd wa bn cur1)) as [[] w2|e0 w2|] eqn:Hreloc;
      [| |done].
    + apply (copy_to_ptr_Ret _ _ _ _ cur1) in Hreloc
        as (nb' & Hself2 & Hnb' & Hlen' & _ & Htake & Hdrop & _); [|done..].
      change (size_ (self (upd wa bn cur1))) with (size_ (self w)) in *.
      mstep. rewrite Hself2. simpl.
      assert (nc < size_modulus) as HncM by nia.
      rewrite wrap_small by lia. rewrite sz_sub_small by lia.
      apply (move_element_defined bn nb'); [done|done|lia|].
      intros t Ht.
      assert (take (S (length xs)) nb' = Live <$> (xs ++ [e])) as Hall.
      { rewrite fmap_app. apply take_S_snoc; [|by rewrite length_fmap|].
        - rewrite <-Hnx, Htake. simpl in Hview1. by rewrite Hview1.
        - rewrite <-Hnx.
          rewrite <-(Nat.add_0_r (N.to_nat _)), <-lookup_drop, Hdrop, lookup_drop, Nat.add_0_r.
          unfold cur1. rewrite list_lookup_insert_eq; [done|lia]. }
      rewrite list_lookup_fmap, (take_live_lookup _ _ _ _ Hall)
        by (rewrite length_app; simpl; lia).
      destruct ((xs ++ [e]) !! t) eqn:Hx; [done|].
      apply lookup_ge_None in Hx. rewrite length_app in Hx. simpl in Hx. lia.
    + destruct Hout as (nb' & Hnb' & Htail).
      unfold mbind, M_bind.
      specialize (Htail (N.to_nat (size_ (self w))) ltac:(simpl; lia)).
      unfold cur1 in Htail. rewrite list_lookup_insert_eq in Htail by lia.
      by rewrite (destroy_at_At _ _ _ _ _ e Hnb' Htail).
  - apply valid_inv in Hv as Hv'.
    destruct Hv' as [(Hd & Hn & Hc)|(bo & blk & xs' & Hd & Hblk & Hc0 & HcM & HcS & Hlen & Hnc & Hxs)];
      [congruence|].
    mstep. rewrite Hd, ptr_add_base. unfold mbind at 1, M_bind at 1.
    rewrite (construct_at_At _ _ _ _ _ Hblk) by lia.
    destruct (copy_throws e); [done|]. mstep.
    rewrite wrap_small by lia. rewrite sz_sub_small by lia.
    set (cur1 := <[_ := _]> blk).
    apply (move_element_defined bo cur1); [by simpl|..|lia|].
    { simpl. apply block_at_insert_eq. eauto using block_at_lt. }
    intros t Ht. unfold cur1. rewrite list_fmap_insert.
    destruct (decide (t = N.to_nat (size_ (self w)))) as [->|].
    + rewrite list_lookup_insert_eq; [done|]. rewrite length_fmap. lia.
    + rewrite list_lookup_insert_ne by done.
      apply (valid_live w bo); [done..|lia].
Qed.

(** X21.  Copy construction from a valid container has a defined result.
    When it raises, the object under construction is the empty container
    without storage, and the source and every block are as they were;
    after the error of an element copy the block obtained for the copy
    is still allocated. *)
Theorem copy_construct_failure (o : vec) w :
  valid (World o (mem w)) = true ->
  match vector_copy alloc_fails o w with
  | Ret _ _ => True
  | Throw e w' =>
      self w' = vector_default /\
      valid (World o (mem w')) = true /\
      view (World o (mem w')) = view (World o (mem w)) /\
      (forall b blk, block_at (mem w) b = Some blk -> block_at (mem w') b = Some blk) /\
      ((e = bad_alloc /\ mem w' = mem w) \/
       (e = copy_failure /\ is_Some (block_at (mem w') (length (mem w)))))
  | Undef => False
  end.
Proof.
  intros Hv. pose proof (vector_copy_defined alloc_fails o w Hv) as Hdef.
  destruct (vector_copy alloc_fails o w) as [[] w'|e w'|] eqn:Hrun; [done| |done].
  apply vector_copy_Throw in Hrun as (Hs & Hpres & Hcase).
  split; [done|].
  destruct (valid_ext (World o (mem w)) (World o (mem w')) Hv eq_refl) as [Hv' Hview];
    [by eauto|].
  done.
Qed.

End InsertDefined.

(** ** The private [reserve_if_needed]; defined results of the capacity
    calls; assignment through [operator[]] *)

Lemma double_until_returns target : forall fuel c,
  1 <= c -> target <= 2 ^ 63 -> target <= c * 2 ^ N.of_nat fuel ->
  exists c', double_until fuel target c = Some c' /\
    target <= c' /\ c <= c' /\ (c' = c \/ c' < 2 * target).
Proof.
  induction fuel as [|fuel IH]; intros c Hc Ht Hf.
  - change (N.of_nat 0) with 0 in Hf. rewrite N.pow_0_r in Hf.
    exists c. cbn [double_until]. rewrite decide_False by lia.
    split; [done|]. split; [lia|]. split; [lia|by left].
  - cbn [double_until]. case_decide as Hlt.
    2:{ exists c. split; [done|]. split; [lia|]. split; [lia|by left]. }
    assert (c * 2 < size_modulus) as Hsmall by (unfold size_modulus; lia).
    rewrite wrap_small by done.
    destruct (IH (c * 2)) as (c' & -> & H1 & H2 & H3); [lia|done| |].
    { rewrite Nat2N.inj_succ, N.pow_succ_r' in Hf. lia. }
    exists c'. split; [done|]. split; [lia|]. split; [lia|]. right. lia.
Qed.

Lemma double_until_zero target fuel :
  0 < target -> double_until fuel target 0 = None.
Proof.
  intros Ht. induction fuel as [|fuel IH]; cbn [double_until];
    rewrite decide_True by done; [done|].
  by change (wrap (0 * 2)) with 0.
Qed.

Lemma double_until_pow2 target : forall (d : nat) (j : N) fuel,
  j + N.of_nat d = 63 -> 2 ^ 63 < target ->
  double_until fuel target (2 ^ j) = None.
Proof.
  induction d as [|d IH]; intros j fuel Hj Ht.
  - assert (j = 63) as -> by lia.
    destruct fuel as [|fuel]; cbn [double_until]; rewrite decide_True by done; [done|].
    change (wrap (2 ^ 63 * 2)) with 0. apply double_until_zero. lia.
  - assert (2 ^ j < 2 ^ 63) as Hlt by (apply N.pow_lt_mono_r; lia).
    destruct fuel as [|fuel]; cbn [double_until]; rewrite decide_True by lia; [done|].
    assert (2 ^ j * 2 = 2 ^ N.succ j) as -> by (rewrite N.pow_succ_r'; lia).
    assert (2 ^ N.succ j <= 2 ^ 63) by (apply N.pow_le_mono_r; lia).
    rewrite wrap_small by (unfold size_modulus; lia).
    apply IH; lia.
Qed.

Section PrivateFacts.
Context {T : Type} `{!Element T}.
Variable alloc_fails : N -> bool.
Implicit Types (w : world T) (v : T) (blk cur : list (slot T)).

(** X24.  [reserve_if_needed]: when [size() + additional_capacity] is at
    most [2^63], the doubling loop ends within 64 iterations, and the call
    is [reserve(c)] for the first of [max(1, capacity())], twice that,
    four times that, ... to reach the target. *)
Theorem reserve_if_needed_returns w additional_capacity fuel :
  wrap (size w + additional_capacity) <= 2 ^ 63 -> (64 <= fuel)%nat ->
  exists c,
    reserve_if_needed alloc_fails fuel additional_capacity w =
      Some (reserve alloc_fails c w) /\
    wrap (size w + additional_capacity) <= c /\ capacity w <= c /\
    (c = N.max 1 (capacity w) \/ c < 2 * wrap (size w + additional_capacity)).
Proof.
  unfold size, capacity, reserve_if_needed. intros Ht Hfuel.
  destruct (double_until_returns (wrap (size_ (self w) + additional_capacity)) fuel
              (N.max 1 (capacity_ (self w)))) as (c & -> & H1 & H2 & H3); [lia|done| |].
  { assert (2 ^ 63 <= 2 ^ N.of_nat fuel) by (apply N.pow_le_mono_r; lia). nia. }
  exists c. split; [done|]. split; [done|]. split; [lia|done].
Qed.

(** X25.  [reserve_if_needed] does not return when the target
    [size() + additional_capacity] is above [2^63] and the capacity, a
    power of two as [push_back] leaves it, is below the target: the
    doubled value wraps to zero and the loop runs on. *)
Theorem reserve_if_needed_diverges w additional_capacity (j : N) :
  N.max 1 (capacity w) = 2 ^ j ->
  2 ^ j < wrap (size w + additional_capacity) ->
  2 ^ 63 < wrap (size w + additional_capacity) ->
  forall fuel, reserve_if_needed alloc_fails fuel additional_capacity w = None.
Proof.
  unfold size, capacity, reserve_if_needed. intros Hc Hlt Ht fuel. rewrite Hc.
  pose proof (wrap_lt (size_ (self w) + additional_capacity)) as HM.
  assert (j < 64) as Hj.
  { apply (N.pow_lt_mono_r_iff 2); [lia|]. unfold size_modulus in HM. lia. }
  by rewrite (double_until_pow2 _ (N.to_nat (63 - j)) j fuel) by (done || lia).
Qed.

Lemma resize_defined w n :
  valid w = true -> size_ (self w) <= n -> n ≠ 0 -> n * sizeof < size_modulus ->
  resize alloc_fails n w ≠ Undef.
Proof.
  intros Hv Hn Hn0 HnS. unfold resize. rewrite decide_False by done.
  unfold mbind at 1, M_bind at 1, operator_new at 1.
  destruct (alloc_fails _); [done|].
  rewrite wrap_small by done. rewrite N.div_mul by (pose proof sizeof_pos; lia).
  set (nb := replicate _ _ : list (slot T)). set (wa := World _ _).
  destruct (valid_ext w wa Hv eq_refl) as [Hva _].
  { intros b i blk _ Hb. by apply block_at_app_l. }
  pose proof (copy_to_ptr_outcome n (length (mem w)) nb wa Hva
                ltac:(apply block_at_app_new)) as Hout.
  intros HU. rewrite HU in Hout. apply Hout.
  - intros i Hi. apply (data_below_fresh w) in Hi; [lia|done].
  - unfold nb. rewrite length_replicate. simpl. lia.
Qed.

(** X23.  On a valid container [shrink_to_fit] has a defined result, and
    so has [reserve(n)] when the byte count of a request beyond the
    capacity is a [size_t]. *)
Theorem capacity_calls_defined w :
  valid w = true ->
  shrink_to_fit alloc_fails w ≠ Undef /\
  forall n, (capacity w < n -> n * sizeof < size_modulus) ->
            reserve alloc_fails n w ≠ Undef.
Proof.
  unfold capacity. intros Hv. split.
  - unfold shrink_to_fit. mstep. case_decide as Hne; [|done].
    destruct (decide (size_ (self w) = 0)) as [Hz|Hz].
    + unfold resize. rewrite decide_True by done. mstep.
      apply valid_inv in Hv as [(Hd & Hn & Hc)|(bo & blk & xs & Hd & Hblk & _)];
        [congruence|].
      unfold mbind at 1, M_bind at 1. rewrite Hd.
      by rewrite (operator_delete_At _ _ _ Hblk).
    + apply resize_defined; [done|lia|done|].
      apply valid_inv in Hv as [(_ & ? & _)|(_ & _ & _ & _ & _ & _ & _ & ? & _ & ? & _)];
        [done|]. pose proof sizeof_pos. nia.
  - intros n Hn. unfold reserve. mstep. case_decide as Hlt; [|done].
    apply resize_defined; [done| |lia|by apply Hn].
    apply valid_inv in Hv as [(_ & ? & _)|(_ & _ & _ & _ & _ & _ & _ & _ & _ & ? & _)]; lia.
Qed.

(** X26.  Assignment through [operator[]]: [v[i] = x] on a valid container
    with [i < size()] has a defined result.  When it completes, the
    element at [i] is [x] and nothing else has changed.  When the
    assignment of [T] raises, its error is what the call raises; the
    container is still valid, its fields and the other elements are as
    they were, and the element at [i] holds whatever the failed
    assignment of [T] has left in it. *)
Theorem element_assign w xs i x :
  valid w = true -> view w = Live <$> xs -> i < size w ->
  match (operator_index i ≫= fun p => assign_at p x) w with
  | Ret _ w' =>
      assign_throws x = false /\ valid w' = true /\ self w' = self w /\
      view w' = Live <$> <[N.to_nat i := x]> xs
  | Throw e w' =>
      assign_throws x = true /\ e = assign_failure /\
      valid w' = true /\ self w' = self w /\
      exists y, xs !! N.to_nat i = Some y /\
        view w' = Live <$> <[N.to_nat i := assign_residue y x]> xs
  | Undef => False
  end.
Proof.
  unfold size. intros Hv Hview Hi.
  apply valid_inv in Hv as Hv'.
  destruct Hv' as [(Hd & Hn & Hc)|(bo & blk & xs' & Hd & Hblk & _ & _ & _ & Hlen & Hnc & Hxs)];
    [lia|].
  rewrite (view_At _ _ _ Hd Hblk) in Hview.
  assert (length xs = N.to_nat (size_ (self w))) as Hlx.
  { apply (f_equal length) in Hview. rewrite length_take, length_fmap in Hview. lia. }
  unfold operator_index. mstep. rewrite bool_decide_true by done. mstep.
  rewrite Hd, ptr_add_base.
  destruct (xs !! N.to_nat i) as [y|] eqn:Hy; [|apply lookup_ge_None in Hy; lia].
  assert (blk !! N.to_nat i = Some (Live y)) as Hs.
  { rewrite (take_live_lookup _ _ _ _ Hview) by lia. by rewrite Hy. }
  rewrite (assign_at_At _ _ _ _ _ _ Hblk Hs).
  assert (forall z, valid (upd w bo (<[N.to_nat i := Live z]> blk)) = true /\
            view (upd w bo (<[N.to_nat i := Live z]> blk)) =
              Live <$> <[N.to_nat i := z]> xs) as Hupd.
  { intros z. split.
    - rewrite (valid_live_pattern w bo 0 blk); try done.
      rewrite list_fmap_insert. apply list_insert_id.
      by rewrite list_lookup_fmap, Hs.
    - erewrite view_At; [|by simpl; rewrite Hd|by eapply block_at_upd_eq].
      simpl. rewrite take_insert_lt by lia. by rewrite Hview, list_fmap_insert. }
  destruct (assign_throws x); simpl.
  - destruct (Hupd (assign_residue y x)) as [Hv1 Hview1].
    do 4 (split; [done|]). by exists y.
  - destruct (Hupd x) as [Hv1 Hview1]. done.
Qed.

End PrivateFacts.

Section MoveElement.
Context {T : Type} `{!Element T}.
Implicit Types (w : world T) (v : T) (blk cur : list (slot T)).

(** X27.  [move_element(from, to)] on a block whose slots up to [from] hold
    live objects, the one at [from] being [e]: when it completes, [e] is
    at [to] and the objects that were at [to], ..., [from - 1] are one
    slot further; when it raises, it has raised an error of the element
    type, and every slot holds a live object as before; nothing past
    [from] is written to, and the result is always defined. *)
Theorem move_element_spec w bk cur (from to : N) xs e :
  data_ (self w) = At bk 0 -> block_at (mem w) bk = Some cur ->
  N.to_nat from = length xs ->
  take (S (length xs)) cur = Live <$> (xs ++ [e]) ->
  to <= from ->
  match move_element from to w with
  | Ret _ w' =>
      exists cur', w' = upd w bk cur' /\ length cur' = length cur /\
        take (S (length xs)) cur' =
          Live <$> (take (N.to_nat to) xs ++ e :: drop (N.to_nat to) xs) /\
        drop (S (length xs)) cur' = drop (S (length xs)) cur
  | Throw ex w' =>
      (ex = copy_failure \/ ex = assign_failure) /\
      exists cur', w' = upd w bk cur' /\ is_live <$> cur' = is_live <$> cur
  | Undef => False
  end.
Proof.
  intros Hd Hb Hfrom Htake Hle.
  pose proof (move_element_live bk 0 cur from to w Hd Hb) as Hlive.
  pose proof (move_element_defined bk cur from to w Hd Hb Hle) as Hdef.
  destruct (move_element from to w) as [[] w'|ex w'|] eqn:Hrun.
  - eapply move_element_Ret in Hrun as (_ & cur' & -> & Hlen & Ht & Hdr); [|done..].
    by exists cur'.
  - done.
  - apply Hdef; [|done]. intros t Ht.
    rewrite list_lookup_fmap, (take_live_lookup _ _ _ _ Htake)
      by (rewrite length_app; simpl; lia).
    destruct ((xs ++ [e]) !! t) eqn:Hx; [done|].
    apply lookup_ge_None in Hx. rewrite length_app in Hx. simpl in Hx. lia.
Qed.

End MoveElement.

(** ** The further properties on the test containers *)

(** [pop_back()] on [10, 20, 30, 40]. *)
Lemma pop_back_spec_witness :
  valid four = true /\
  match pop_back four with
  | Ret _ w' =>
      0 < size four /\ valid w' = true /\ size w' = size four - 1 /\
      capacity w' = capacity four /\ begin_ w' = begin_ four /\
      view w' = take (N.to_nat (size four - 1)) (view four) /\
      exists x, view four !! N.to_nat (size four - 1) = Some (Live x) /\
                load (mem w') (end_ w') = Some (Dead x)
  | Throw _ _ => False
  | Undef => size four = 0
  end.
Proof.
  assert (H1 : valid four = true) by reflexivity.
  split; [assumption|]. exact (pop_back_spec four H1).
Defined.

(** [push_back(40)] on [10, 20, 30], then [pop_back()]. *)
Lemma push_back_pop_back_witness :
  valid three_of_four = true /\
  push_back roomy 40 three_of_four = Ret tt four /\
  exists w2, pop_back four = Ret tt w2 /\ valid w2 = true /\
    size w2 = size three_of_four /\ view w2 = view three_of_four.
Proof.
  assert (H1 : valid three_of_four = true) by reflexivity.
  assert (H2 : push_back roomy 40 three_of_four = Ret tt four) by (vm_compute; reflexivity).
  split; [assumption|]. split; [assumption|].
  exact (push_back_pop_back roomy three_of_four 40 four H1 H2).
Defined.

(** [clear()] on [10, 20, 30, 40]. *)
Lemma clear_spec_witness :
  valid four = true /\ view four = Live <$> [10; 20; 30; 40] /\
  exists w', clear four = Ret tt w' /\ valid w' = true /\ size w' = 0 /\
    capacity w' = capacity four /\ begin_ w' = begin_ four /\
    view (World (self four) (mem w')) = Dead <$> [10; 20; 30; 40].
Proof.
  assert (H1 : valid four = true) by reflexivity.
  assert (H2 : view four = Live <$> [10; 20; 30; 40]) by reflexivity.
  split; [assumption|]. split; [assumption|].
  exact (clear_spec four [10; 20; 30; 40] H1 H2).
Defined.

(** [shrink_to_fit()] on [10, 20, 30] with capacity 4. *)
Lemma shrink_to_fit_spec_witness :
  valid three_of_four = true /\
  shrink_to_fit roomy three_of_four =
    Ret tt (World (Vec (At 1 0) 3 3) [None; Some [Live 10; Live 20; Live 30]]) /\
  valid (World (Vec (At 1 0) 3 3) [None; Some [Live 10; Live 20; Live 30]]) = true /\
  capacity (World (Vec (At 1 0) 3 3) [None; Some [Live 10; Live 20; Live 30]]) =
    size (World (Vec (At 1 0) 3 3) [None; Some [Live 10; Live 20; Live 30]]) /\
  view (World (Vec (At 1 0) 3 3) [None; Some [Live 10; Live 20; Live 30]]) =
    view three_of_four.
Proof.
  assert (H1 : valid three_of_four = true) by reflexivity.
  assert (H2 : shrink_to_fit roomy three_of_four =
    Ret tt (World (Vec (At 1 0) 3 3) [None; Some [Live 10; Live 20; Live 30]]))
    by (vm_compute; reflexivity).
  pose proof (proj2 (shrink_to_fit_spec roomy three_of_four H1) _ H2) as (H3 & H4 & _ & H5).
  repeat split; assumption.
Defined.

(** A copy of [10, 20, 30, 40]. *)
Lemma copy_construct_spec_witness :
  valid (World (self four) (mem four)) = true /\
  vector_copy roomy (self four) four =
    Ret tt (World (Vec (At 1 0) 4 4)
              [Some [Live 10; Live 20; Live 30; Live 40];
               Some [Live 10; Live 20; Live 30; Live 40]]) /\
  valid (World (Vec (At 1 0) 4 4)
           [Some [Live 10; Live 20; Live 30; Live 40];
            Some [Live 10; Live 20; Live 30; Live 40]]) = true /\
  view (World (Vec (At 1 0) 4 4)
          [Some [Live 10; Live 20; Live 30; Live 40];
           Some [Live 10; Live 20; Live 30; Live 40]]) =
    view (World (self four) (mem four)).
Proof.
  assert (H1 : valid (World (self four) (mem four)) = true) by reflexivity.
  assert (H2 : vector_copy roomy (self four) four =
    Ret tt (World (Vec (At 1 0) 4 4)
              [Some [Live 10; Live 20; Live 30; Live 40];
               Some [Live 10; Live 20; Live 30; Live 40]]))
    by (vm_compute; reflexivity).
  pose proof (copy_construct_spec roomy (self four) four _ H1 H2) as (H3 & H4 & _).
  repeat split; assumption.
Defined.

(** [*this = second] for [*this = 1, 2] and [second = 7, 8, 9]. *)
Lemma copy_assign_spec_witness :
  valid pair = true /\ valid (World second (mem pair)) = true /\
  operator_assign roomy second pair =
    Ret tt (World (Vec (At 2 0) 3 3)
              [None; Some [Live 7; Live 8; Live 9]; Some [Live 7; Live 8; Live 9]]) /\
  valid (World (Vec (At 2 0) 3 3)
           [None; Some [Live 7; Live 8; Live 9]; Some [Live 7; Live 8; Live 9]]) = true /\
  view (World (Vec (At 2 0) 3 3)
          [None; Some [Live 7; Live 8; Live 9]; Some [Live 7; Live 8; Live 9]]) =
    view (World second (mem pair)).
Proof.
  assert (H1 : valid pair = true) by reflexivity.
  assert (H2 : valid (World second (mem pair)) = true) by reflexivity.
  assert (H3 : forall b i j, data_ (self pair) = At b i -> data_ second ≠ At b j)
    by (intros b i j Hb Hs; vm_compute in Hb, Hs; congruence).
  assert (H4 : operator_assign roomy second pair =
    Ret tt (World (Vec (At 2 0) 3 3)
              [None; Some [Live 7; Live 8; Live 9]; Some [Live 7; Live 8; Live 9]]))
    by (vm_compute; reflexivity).
  pose proof (copy_assign_spec roomy second pair _ H1 H2 H3 H4) as (H5 & H6 & _).
  repeat split; assumption.
Defined.

(** The destructor of [10, 20, 30, 40]. *)
Lemma destructor_spec_witness :
  valid four = true /\
  exists w', vector_dtor four = Ret tt w' /\
    (forall b i, begin_ four = At b i -> block_at (mem w') b = None) /\
    (forall b, (forall i, begin_ four ≠ At b i) ->
               block_at (mem w') b = block_at (mem four) b) /\
    length (mem w') = length (mem four).
Proof.
  assert (H1 : valid four = true) by reflexivity.
  split; [assumption|]. exact (destructor_spec four H1).
Defined.

(** [v[2]], [front()] and [back()] of [10, 20, 30, 40]. *)
Lemma element_access_witness :
  valid four = true /\ view four = Live <$> [10; 20; 30; 40] /\
  (operator_index 2 ≫= read) four = Ret 30 four /\
  (front ≫= read) four = Ret 10 four /\
  (back ≫= read) four = Ret 40 four.
Proof.
  assert (H1 : valid four = true) by reflexivity.
  assert (H2 : view four = Live <$> [10; 20; 30; 40]) by reflexivity.
  split; [assumption|]. split; [assumption|].
  exact (element_access four [10; 20; 30; 40] 2 H1 H2).
Defined.

(** Insertion into the full [10, 20, 30, 40]: the capacity doubles. *)
Lemma insert_capacity_witness :
  valid four = true /\ 1 <= size four /\
  insert roomy (ptr_add (begin_ four) 1) 99 four =
    Ret (At 1 1)
        (World (Vec (At 1 0) 5 8)
           [None; Some [Live 10; Live 99; Live 20; Live 30; Live 40; Raw; Raw; Raw]]) /\
  size four = capacity four /\
  capacity (World (Vec (At 1 0) 5 8)
              [None; Some [Live 10; Live 99; Live 20; Live 30; Live 40; Raw; Raw; Raw]])
    = N.max 1 (2 * capacity four).
Proof.
  assert (H1 : valid four = true) by reflexivity.
  assert (H2 : 1 <= size four) by (vm_compute; discriminate).
  assert (H3 : insert roomy (ptr_add (begin_ four) 1) 99 four =
    Ret (At 1 1)
        (World (Vec (At 1 0) 5 8)
           [None; Some [Live 10; Live 99; Live 20; Live 30; Live 40; Raw; Raw; Raw]]))
    by (vm_compute; reflexivity).
  assert (H4 : size four = capacity four) by reflexivity.
  pose proof (insert_capacity roomy four 1 99 _ _ H1 H2 H3) as (_ & H5 & _).
  destruct (H5 H4) as (_ & H6 & _).
  repeat split; assumption.
Defined.

(** Insertion of 20 into the full [10, 13] whose element 13 cannot be
    copied: the relocation raises. *)
Lemma insert_failure_witness :
  @valid N fragile two = true /\ 0 <= size two /\
  @insert N fragile roomy (ptr_add (begin_ two) 0) 20 two =
    Throw copy_failure (World (Vec (At 1 0) 0 4) [None; Some [Dead 10; Raw; Dead 20; Raw]]) /\
  @valid N fragile (World (Vec (At 1 0) 0 4) [None; Some [Dead 10; Raw; Dead 20; Raw]])
    = true.
Proof.
  assert (H1 : @valid N fragile two = true) by reflexivity.
  assert (H2 : 0 <= size two) by (vm_compute; discriminate).
  assert (H3 : @insert N fragile roomy (ptr_add (begin_ two) 0) 20 two =
    Throw copy_failure (World (Vec (At 1 0) 0 4) [None; Some [Dead 10; Raw; Dead 20; Raw]]))
    by (vm_compute; reflexivity).
  pose proof (@insert_failure N fragile roomy two 0 20 _ _ H1 H2 H3) as (H4 & _).
  repeat split; assumption.
Defined.

(** Insertion of the value 13, which cannot be copied. *)
Lemma insert_value_copy_raises_witness :
  @copy_throws N fragile 13 = true /\
  match @insert N fragile roomy (begin_ two_of_four) 13 two_of_four with
  | Ret _ _ => False
  | Throw ex w' =>
      self w' = self two_of_four /\
      (size two_of_four ≠ capacity two_of_four -> ex = copy_failure /\ w' = two_of_four) /\
      (size two_of_four = capacity two_of_four ->
         (ex = bad_alloc /\ w' = two_of_four) \/
         (ex = copy_failure /\
          exists blk, mem w' = mem two_of_four ++ [Some blk] /\
                      Forall (fun s => s = Raw) blk))
  | Undef => True
  end.
Proof.
  assert (H1 : @copy_throws N fragile 13 = true) by reflexivity.
  split; [assumption|].
  exact (@insert_value_copy_raises N fragile roomy (begin_ two_of_four) 13 two_of_four H1).
Defined.

(** [erase(begin() + 2, end())] on [10, 20, 30, 40]. *)
Lemma erase_tail_witness :
  valid four = true /\ 2 <= size four /\
  erase (ptr_add (begin_ four) 2) (end_ four) four =
    Ret (ptr_add (begin_ four) 2)
        (World (Vec (data_ (self four)) 2 (capacity_ (self four))) (mem four)).
Proof.
  assert (H1 : valid four = true) by reflexivity.
  assert (H2 : 2 <= size four) by (vm_compute; discriminate).
  split; [assumption|]. split; [assumption|].
  exact (erase_tail four 2 H1 H2).
Defined.

(** [reserve(10)] on [10, 20, 30, 40]. *)
Lemma reserve_valid_witness :
  valid four = true /\ capacity four < 10 /\ 10 * sizeof < size_modulus /\
  reserve roomy 10 four =
    Ret tt (World (Vec (At 1 0) 4 10)
              [None; Some [Live 10; Live 20; Live 30; Live 40; Raw; Raw; Raw; Raw; Raw; Raw]]) /\
  valid (World (Vec (At 1 0) 4 10)
           [None; Some [Live 10; Live 20; Live 30; Live 40; Raw; Raw; Raw; Raw; Raw; Raw]])
    = true.
Proof.
  assert (H1 : valid four = true) by reflexivity.
  assert (H2 : capacity four < 10) by reflexivity.
  assert (H3 : 10 * sizeof < size_modulus) by reflexivity.
  assert (H4 : reserve roomy 10 four =
    Ret tt (World (Vec (At 1 0) 4 10)
              [None; Some [Live 10; Live 20; Live 30; Live 40; Raw; Raw; Raw; Raw; Raw; Raw]]))
    by (vm_compute; reflexivity).
  pose proof (reserve_valid roomy four 10 _ H1 H2 H3 H4) as (H5 & _).
  repeat split; assumption.
Defined.

(** [reserve(5)] on [10] for objects of [2^62] bytes: the byte count
    wraps to that of one object. *)
Lemma reserve_overflow_witness :
  @valid N wide one = true /\ capacity one < 5 /\ 5 < size_modulus /\
  size_modulus <= 5 * @sizeof N wide /\
  @reserve N wide roomy 5 one =
    Ret tt (World (Vec (At 1 0) 1 5) [None; Some [Live 10]]) /\
  capacity (World (Vec (At 1 0) 1 5) [None; Some [Live 10]]) = 5 /\
  @valid N wide (World (Vec (At 1 0) 1 5) [None; Some [Live 10]]) = false.
Proof.
  assert (H1 : @valid N wide one = true) by reflexivity.
  assert (H2 : capacity one < 5) by reflexivity.
  assert (H3 : 5 < size_modulus) by reflexivity.
  assert (H4 : size_modulus <= 5 * @sizeof N wide) by (vm_compute; discriminate).
  assert (H5 : @reserve N wide roomy 5 one =
    Ret tt (World (Vec (At 1 0) 1 5) [None; Some [Live 10]]))
    by (vm_compute; reflexivity).
  pose proof (@reserve_overflow N wide roomy one 5 _ H1 H2 H3 H4 H5) as (H6 & _ & _ & H7 & _).
  repeat split; assumption.
Defined.

(** [copy_and_construct] of [10, 13] when 13 cannot be copied. *)
Lemma copy_and_construct_spec_witness :
  block_at [Some [Live 10; Live 13]; Some [Raw; Raw]] 1 = Some [Raw; Raw] /\
  block_at [Some [Live 10; Live 13]; Some [Raw; Raw]] 0 = Some [Live 10; Live 13] /\
  1%nat ≠ 0%nat /\
  match @copy_and_construct N fragile (At 1 0) (At 0 0) 2
          (World vector_default [Some [Live 10; Live 13]; Some [Raw; Raw]]) with
  | Ret _ w' =>
      exists dst',
        w' = upd (World vector_default [Some [Live 10; Live 13]; Some [Raw; Raw]]) 1 dst' /\
        length dst' = length [Raw; Raw : slot N] /\
        forall t, dst' !! t =
          if decide (t < N.to_nat 2)%nat
          then Live <$> ([Live 10; Live 13] !! t ≫= payload)
          else [Raw; Raw] !! t
  | Throw e w' =>
      e = copy_failure /\
      exists dst' (j : nat) x,
        w' = upd (World vector_default [Some [Live 10; Live 13]; Some [Raw; Raw]]) 1 dst' /\
        length dst' = length [Raw; Raw : slot N] /\
        (j < N.to_nat 2)%nat /\
        [Live 10; Live 13] !! j ≫= payload = Some x /\ @copy_throws N fragile x = true /\
        forall t, dst' !! t =
          if decide (t < j)%nat then Dead <$> ([Live 10; Live 13] !! t ≫= payload)
          else [Raw; Raw] !! t
  | Undef => True
  end.
Proof.
  assert (H1 : block_at [Some [Live 10; Live 13]; Some [Raw; Raw]] 1
               = Some [Raw; Raw : slot N]) by reflexivity.
  assert (H2 : block_at [Some [Live 10; Live 13]; Some [Raw; Raw]] 0
               = Some [Live 10; Live 13]) by reflexivity.
  assert (H3 : 1%nat ≠ 0%nat) by lia.
  split; [assumption|]. split; [assumption|]. split; [assumption|].
  exact (@copy_and_construct_spec N fragile 1 0 [Raw; Raw] [Live 10; Live 13] 2
           (World vector_default [Some [Live 10; Live 13]; Some [Raw; Raw]]) H1 H2 H3).
Defined.

(** 10, 20, 30 pushed on the empty vector: capacity 4. *)
Lemma push_back_growth_witness :
  [10; 20; 30] ≠ [] /\
  push_all roomy [10; 20; 30] fresh_world =
    Ret tt (World (Vec (At 2 0) 3 4) [None; None; Some [Live 10; Live 20; Live 30; Raw]]) /\
  exists j : N,
    capacity (World (Vec (At 2 0) 3 4) [None; None; Some [Live 10; Live 20; Live 30; Raw]])
      = 2 ^ j /\
    size (World (Vec (At 2 0) 3 4) [None; None; Some [Live 10; Live 20; Live 30; Raw]])
      = N.of_nat (length [10; 20; 30]) /\
    size (World (Vec (At 2 0) 3 4) [None; None; Some [Live 10; Live 20; Live 30; Raw]])
      <= 2 ^ j /\
    2 ^ j < 2 * size (World (Vec (At 2 0) 3 4)
                        [None; None; Some [Live 10; Live 20; Live 30; Raw]]).
Proof.
  assert (H1 : [10; 20; 30] ≠ ([] : list N)) by discriminate.
  assert (H2 : push_all roomy [10; 20; 30] fresh_world =
    Ret tt (World (Vec (At 2 0) 3 4) [None; None; Some [Live 10; Live 20; Live 30; Raw]]))
    by (vm_compute; reflexivity).
  split; [assumption|]. split; [assumption|].
  exact (push_back_growth roomy [10; 20; 30] _ H1 H2).
Defined.

(** A copy of [10, 20, 30, 40], then an insertion into the original. *)
Lemma copy_independent_witness :
  valid four = true /\ 1 <= size four /\
  vector_copy roomy (self four) four =
    Ret tt (World (Vec (At 1 0) 4 4)
              [Some [Live 10; Live 20; Live 30; Live 40];
               Some [Live 10; Live 20; Live 30; Live 40]]) /\
  match insert roomy (ptr_add (begin_ four) 1) 99
          (World (self four)
             [Some [Live 10; Live 20; Live 30; Live 40];
              Some [Live 10; Live 20; Live 30; Live 40]]) with
  | Ret _ w2 | Throw _ w2 =>
      valid (World (Vec (At 1 0) 4 4) (mem w2)) = true /\
      view (World (Vec (At 1 0) 4 4) (mem w2)) = view four
  | Undef => True
  end.
Proof.
  assert (H1 : valid four = true) by reflexivity.
  assert (H2 : 1 <= size four) by (vm_compute; discriminate).
  assert (H3 : vector_copy roomy (self four) four =
    Ret tt (World (Vec (At 1 0) 4 4)
              [Some [Live 10; Live 20; Live 30; Live 40];
               Some [Live 10; Live 20; Live 30; Live 40]]))
    by (vm_compute; reflexivity).
  split; [assumption|]. split; [assumption|]. split; [assumption|].
  exact (copy_independent roomy four _ 1 99 H1 H2 H3).
Defined.

(** [v = v] for the [10, 13] whose element 13 cannot be copied. *)
Lemma copy_assign_failure_witness :
  @valid N fragile two = true /\
  @valid N fragile (World (self two) (mem two)) = true /\
  @operator_assign N fragile roomy (self two) two =
    Throw copy_failure
      (World (Vec (At 0 0) 2 2) [Some [Live 10; Live 13]; Some [Dead 10; Raw]]) /\
  @valid N fragile
    (World (Vec (At 0 0) 2 2) [Some [Live 10; Live 13]; Some [Dead 10; Raw]]) = true /\
  view (World (Vec (At 0 0) 2 2) [Some [Live 10; Live 13]; Some [Dead 10; Raw]]) = view two.
Proof.
  assert (H1 : @valid N fragile two = true) by reflexivity.
  assert (H2 : @valid N fragile (World (self two) (mem two)) = true) by reflexivity.
  assert (H3 : @operator_assign N fragile roomy (self two) two =
    Throw copy_failure
      (World (Vec (At 0 0) 2 2) [Some [Live 10; Live 13]; Some [Dead 10; Raw]]))
    by (vm_compute; reflexivity).
  pose proof (@copy_assign_failure N fragile roomy (self two) two _ _ H1 H2 H3)
    as (_ & H4 & H5 & _).
  repeat split; assumption.
Defined.

(** The queries on [10, 20, 30, 40]. *)
Lemma queries_spec_witness :
  valid four = true /\ view four = Live <$> [10; 20; 30; 40] /\
  size four = N.of_nat (length [10; 20; 30; 40]) /\
  empty four = bool_decide ([10; 20; 30; 40] = ([] : list N)) /\
  size four <= capacity four /\
  ptr_diff (end_ four) (begin_ four) = Some (Z.of_N (size four)) /\
  (begin_ four = end_ four <-> [10; 20; 30; 40] = ([] : list N)).
Proof.
  assert (H1 : valid four = true) by reflexivity.
  assert (H2 : view four = Live <$> [10; 20; 30; 40]) by reflexivity.
  split; [assumption|]. split; [assumption|].
  exact (queries_spec four [10; 20; 30; 40] H1 H2).
Defined.

(** A copy of the [10, 13] whose element 13 cannot be copied. *)
Lemma copy_construct_failure_witness :
  @valid N fragile (World (self two) (mem two)) = true /\
  @vector_copy N fragile roomy (self two) two =
    Throw copy_failure
      (World vector_default [Some [Live 10; Live 13]; Some [Dead 10; Raw]]) /\
  @valid N fragile
    (World (self two) [Some [Live 10; Live 13]; Some [Dead 10; Raw]]) = true.
Proof.
  assert (H1 : @valid N fragile (World (self two) (mem two)) = true) by reflexivity.
  assert (H2 : @vector_copy N fragile roomy (self two) two =
    Throw copy_failure
      (World vector_default [Some [Live 10; Live 13]; Some [Dead 10; Raw]]))
    by (vm_compute; reflexivity).
  pose proof (@copy_construct_failure N fragile roomy (self two) two H1) as Hc.
  rewrite H2 in Hc. destruct Hc as (_ & H3 & _).
  repeat split; assumption.
Defined.

(** Insertion into the full [10, 20, 30, 40]: 64 bytes are asked for. *)
Lemma insert_defined_witness :
  valid four = true /\ 1 <= size four /\
  (size four = capacity four -> N.max 1 (2 * capacity four) * sizeof < size_modulus) /\
  insert roomy (ptr_add (begin_ four) 1) 99 four ≠ Undef.
Proof.
  assert (H1 : valid four = true) by reflexivity.
  assert (H2 : 1 <= size four) by (vm_compute; discriminate).
  assert (H3 : size four = capacity four ->
               N.max 1 (2 * capacity four) * sizeof < size_modulus)
    by (intros _; reflexivity).
  split; [assumption|]. split; [assumption|]. split; [assumption|].
  exact (insert_defined roomy four 1 99 H1 H2 H3).
Defined.

(** [shrink_to_fit()] and [reserve(10)] on [10, 20, 30, 40]. *)
Lemma capacity_calls_defined_witness :
  valid four = true /\
  shrink_to_fit roomy four ≠ Undef /\
  (capacity four < 10 -> 10 * sizeof < size_modulus) /\
  reserve roomy 10 four ≠ Undef.
Proof.
  assert (H1 : valid four = true) by reflexivity.
  assert (H2 : capacity four < 10 -> 10 * sizeof < size_modulus)
    by (intros _; reflexivity).
  pose proof (capacity_calls_defined roomy four H1) as [H3 H4].
  split; [assumption|]. split; [assumption|]. split; [assumption|].
  exact (H4 10 H2).
Defined.

(** [reserve_if_needed(3)] on the full [10, 20, 30, 40] is [reserve(8)]. *)
Lemma reserve_if_needed_returns_witness :
  wrap (size four + 3) <= 2 ^ 63 /\ (64 <= 64)%nat /\
  exists c,
    reserve_if_needed roomy 64 3 four = Some (reserve roomy c four) /\
    wrap (size four + 3) <= c /\ capacity four <= c /\
    (c = N.max 1 (capacity four) \/ c < 2 * wrap (size four + 3)).
Proof.
  assert (H1 : wrap (size four + 3) <= 2 ^ 63) by (vm_compute; discriminate).
  assert (H2 : (64 <= 64)%nat) by lia.
  split; [assumption|]. split; [assumption|].
  exact (reserve_if_needed_returns roomy four 3 64 H1 H2).
Defined.

(** [reserve_if_needed(2^63 + 1)] on the full [10, 20, 30, 40]. *)
Lemma reserve_if_needed_diverges_witness :
  N.max 1 (capacity four) = 2 ^ 2 /\
  2 ^ 2 < wrap (size four + (2 ^ 63 + 1)) /\
  2 ^ 63 < wrap (size four + (2 ^ 63 + 1)) /\
  forall fuel, reserve_if_needed roomy fuel (2 ^ 63 + 1) four = None.
Proof.
  assert (H1 : N.max 1 (capacity four) = 2 ^ 2) by reflexivity.
  assert (H2 : 2 ^ 2 < wrap (size four + (2 ^ 63 + 1))) by reflexivity.
  assert (H3 : 2 ^ 63 < wrap (size four + (2 ^ 63 + 1))) by reflexivity.
  split; [assumption|]. split; [assumption|]. split; [assumption|].
  exact (reserve_if_needed_diverges roomy four (2 ^ 63 + 1) 2 H1 H2 H3).
Defined.

(** [v[1] = 99] on [10, 20, 30, 40]. *)
Lemma element_assign_witness :
  valid four = true /\ view four = Live <$> [10; 20; 30; 40] /\ 1 < size four /\
  (operator_index 1 ≫= fun p => assign_at p 99) four =
    Ret tt (World (Vec (At 0 0) 4 4) [Some [Live 10; Live 99; Live 30; Live 40]]) /\
  view (World (Vec (At 0 0) 4 4) [Some [Live 10; Live 99; Live 30; Live 40]]) =
    Live <$> <[N.to_nat 1 := 99]> [10; 20; 30; 40].
Proof.
  assert (H1 : valid four = true) by reflexivity.
  assert (H2 : view four = Live <$> [10; 20; 30; 40]) by reflexivity.
  assert (H3 : 1 < size four) by reflexivity.
  assert (H4 : (operator_index 1 ≫= fun p => assign_at p 99) four =
    Ret tt (World (Vec (At 0 0) 4 4) [Some [Live 10; Live 99; Live 30; Live 40]]))
    by (vm_compute; reflexivity).
  pose proof (element_assign four [10; 20; 30; 40] 1 99 H1 H2 H3) as Hc.
  rewrite H4 in Hc. destruct Hc as (_ & _ & _ & H5).
  repeat split; assumption.
Defined.

(** [move_element(3, 1)] on [10, 20, 30, 40]. *)
Lemma move_element_spec_witness :
  data_ (self four) = At 0 0 /\
  block_at (mem four) 0 = Some [Live 10; Live 20; Live 30; Live 40] /\
  N.to_nat 3 = length [10; 20; 30] /\
  take (S (length [10; 20; 30])) [Live 10; Live 20; Live 30; Live 40] =
    Live <$> ([10; 20; 30] ++ [40]) /\
  1 <= 3 /\
  move_element 3 1 four =
    Ret tt (World (Vec (At 0 0) 4 4) [Some [Live 10; Live 40; Live 20; Live 30]]) /\
  exists cur',
    World (Vec (At 0 0) 4 4) [Some [Live 10; Live 40; Live 20; Live 30]] = upd four 0 cur' /\
    length cur' = length [Live 10; Live 20; Live 30; Live 40 : slot N] /\
    take (S (length [10; 20; 30])) cur' =
      Live <$> (take (N.to_nat 1) [10; 20; 30] ++ 40 :: drop (N.to_nat 1) [10; 20; 30]) /\
    drop (S (length [10; 20; 30])) cur' =
      drop (S (length [10; 20; 30])) [Live 10; Live 20; Live 30; Live 40].
Proof.
  assert (H1 : data_ (self four) = At 0 0) by reflexivity.
  assert (H2 : block_at (mem four) 0 = Some [Live 10; Live 20; Live 30; Live 40])
    by reflexivity.
  assert (H3 : N.to_nat 3 = length [10; 20; 30]) by reflexivity.
  assert (H4 : take (S (length [10; 20; 30])) [Live 10; Live 20; Live 30; Live 40] =
               Live <$> ([10; 20; 30] ++ [40])) by reflexivity.
  assert (H5 : 1 <= 3) by lia.
  assert (H6 : move_element 3 1 four =
    Ret tt (World (Vec (At 0 0) 4 4) [Some [Live 10; Live 40; Live 20; Live 30]]))
    by (vm_compute; reflexivity).
  pose proof (move_element_spec four 0 _ 3 1 [10; 20; 30] 40 H1 H2 H3 H4 H5) as Hc.
  rewrite H6 in Hc.
  repeat split; assumption.
Defined.
